(** * Cost-basis tax engine (backend/tax_engine.py): model and properties

    The engine keeps, per asset, a list of cost-basis lots, matches
    disposals against them (FIFO / LIFO / HIFO) and reports gains.

    The embedding follows the Python source:
    - [Decimal] values are finite decimals [coefficient * 10^exponent];
      every arithmetic result is rounded to the 28 significant digits of
      the default context with round-half-even, as [decimal] does.
      NaN, infinities and a negative zero as an input are not
      represented, and the exponent range (Emin/Emax) of the context is
      not enforced.  The negative zero that [quantize] returns for a
      negative value rounded to zero is printed by [quantized_str].
    - Strings are byte strings; [str.upper] is modelled on ASCII text,
      and what is stated about an upper-cased name assumes an ASCII name.
    - [datetime] values are naive date-times (no tzinfo).
    - [self.lots] is a finite map from asset symbol to the list of lots;
      the lot objects shared between that list and the sorted list are
      addressed by their position in the asset's list. *)

From Stdlib Require Import ZArith List Bool Lia Ascii String.
From Stdlib Require Import Permutation Sorted QArith Qpower Qfield Lqa.
From stdpp Require Import base gmap strings list pretty sorting.

Local Open Scope Z_scope.

(** ** Decimal arithmetic (module [decimal], default context) *)

Module Dec.

Record Decimal : Type := mkDec { dcoeff : Z; dexp : Z }.

(** Precision of the default context. *)
Definition prec : Z := 28.

Fixpoint ndigits_fuel (fuel : nat) (n : Z) : Z :=
match fuel with
| O => 1
| S f => if n <? 10 then 1 else 1 + ndigits_fuel f (n / 10)
end.

(** [len(str(n))] for a non-negative integer [n]. *)
Definition ndigits (n : Z) : Z := ndigits_fuel (Z.to_nat (Z.log2 n)) n.

(** Coefficient left after dropping the last [k] digits of [c >= 0],
  rounding half to even ([_round_half_even]). *)
Definition round_half_even (c k : Z) : Z :=
let q := c / 10 ^ k in
let r := c mod 10 ^ k in
let half := 5 * 10 ^ (k - 1) in
if (half <? r) || ((r =? half) && Z.odd q) then q + 1 else q.

(** Same, rounding half away from zero ([_round_half_up]). *)
Definition round_half_up (c k : Z) : Z :=
let q := c / 10 ^ k in
let r := c mod 10 ^ k in
let half := 5 * 10 ^ (k - 1) in
if half <=? r then q + 1 else q.

(** [Decimal._fix]: round to at most [prec] digits. *)
Definition dec_fix (d : Decimal) : Decimal :=
let a := Z.abs (dcoeff d) in
let k := ndigits a - prec in
if (a =? 0) || (k <=? 0) then d
else
  let q := round_half_even a k in
  if prec <? ndigits q
  then mkDec (Z.sgn (dcoeff d) * (q / 10)) (dexp d + k + 1)
  else mkDec (Z.sgn (dcoeff d) * q) (dexp d + k).

Definition dec_of_Z (n : Z) : Decimal := mkDec n 0.
Definition dec_zero : Decimal := dec_of_Z 0.

Definition dec_neg (a : Decimal) : Decimal := mkDec (- dcoeff a) (dexp a).

(** [Decimal.__add__]: the exact sum at the smaller exponent, then [_fix]. *)
Definition dec_add (a b : Decimal) : Decimal :=
let m := Z.min (dexp a) (dexp b) in
dec_fix (mkDec (dcoeff a * 10 ^ (dexp a - m) + dcoeff b * 10 ^ (dexp b - m)) m).

Definition dec_sub (a b : Decimal) : Decimal := dec_add a (dec_neg b).

(** [Decimal.__mul__]. *)
Definition dec_mul (a b : Decimal) : Decimal :=
dec_fix (mkDec (dcoeff a * dcoeff b) (dexp a + dexp b)).

(** The loop of [__truediv__] that strips trailing zeros of an exact
  quotient while the exponent is below the ideal one; [fuel] is the
  distance to the ideal exponent. *)
Fixpoint strip_zeros (fuel : nat) (q e : Z) : Z * Z :=
match fuel with
| O => (q, e)
| S f => if q mod 10 =? 0 then strip_zeros f (q / 10) (e + 1) else (q, e)
end.

(** [Decimal.__truediv__] for a non-zero divisor.  Python raises on a
  zero divisor; every division of the engine is guarded by a test of
  the divisor, and the model returns zero there. *)
Definition dec_div (a b : Decimal) : Decimal :=
let ca := Z.abs (dcoeff a) in
let cb := Z.abs (dcoeff b) in
let sign := Z.sgn (dcoeff a) * Z.sgn (dcoeff b) in
if cb =? 0 then dec_zero
else if ca =? 0 then dec_fix (mkDec 0 (dexp a - dexp b))
else
  let shift := ndigits cb - ndigits ca + prec + 1 in
  let e := dexp a - dexp b - shift in
  let num := if 0 <=? shift then ca * 10 ^ shift else ca in
  let den := if 0 <=? shift then cb else cb * 10 ^ (- shift) in
  let q := num / den in
  let r := num mod den in
  let '(q', e') :=
    if r =? 0 then strip_zeros (Z.to_nat (dexp a - dexp b - e)) q e
    else (if q mod 5 =? 0 then q + 1 else q, e) in
  dec_fix (mkDec (sign * q') e').

(** [Decimal._cmp] on finite values: comparison of the values. *)
Definition dec_cmp (a b : Decimal) : comparison :=
let m := Z.min (dexp a) (dexp b) in
(dcoeff a * 10 ^ (dexp a - m)) ?= (dcoeff b * 10 ^ (dexp b - m)).

Definition dec_ltb (a b : Decimal) : bool :=
match dec_cmp a b with Lt => true | _ => false end.
Definition dec_leb (a b : Decimal) : bool :=
match dec_cmp a b with Gt => false | _ => true end.
Definition dec_eqb (a b : Decimal) : bool :=
match dec_cmp a b with Eq => true | _ => false end.

(** The builtin [min(a, b)]: the first argument unless the second is
  smaller. *)
Definition py_min (a b : Decimal) : Decimal := if dec_ltb b a then b else a.

Inductive rounding : Type := ROUND_HALF_EVEN | ROUND_HALF_UP.

Definition round_with (m : rounding) : Z -> Z -> Z :=
match m with
| ROUND_HALF_EVEN => round_half_even
| ROUND_HALF_UP => round_half_up
end.

(** [Decimal._rescale]. *)
Definition rescale (d : Decimal) (e : Z) (m : rounding) : Decimal :=
if dcoeff d =? 0 then mkDec 0 e
else if e <=? dexp d then mkDec (dcoeff d * 10 ^ (dexp d - e)) e
else mkDec (Z.sgn (dcoeff d) * round_with m (Z.abs (dcoeff d)) (e - dexp d)) e.

(** [Decimal.quantize]; [None] is the InvalidOperation raised when the
  result would need more than [prec] digits. *)
Definition quantize (d : Decimal) (e : Z) (m : rounding) : option Decimal :=
if dcoeff d =? 0 then Some (mkDec 0 e)
else if prec <? dexp d + ndigits (Z.abs (dcoeff d)) - 1 - e + 1 then None
else
  let ans := rescale d e m in
  if prec <? ndigits (Z.abs (dcoeff ans)) then None else Some (dec_fix ans).

End Dec.

Export Dec.

Coercion dec_of_Z : Z >-> Decimal.

(** *** Evaluation checks against the [decimal] module *)

Example div_10_15 : dec_div 10 15 = mkDec 6666666666666666666666666667 (-28).
Proof. vm_compute. reflexivity. Qed.
Example div_1_3 : dec_div 1 3 = mkDec 3333333333333333333333333333 (-28).
Proof. vm_compute. reflexivity. Qed.
Example div_5_10 : dec_div 5 10 = mkDec 5 (-1).
Proof. vm_compute. reflexivity. Qed.
Example div_10_10 : dec_div 10 10 = mkDec 1 0.
Proof. vm_compute. reflexivity. Qed.
Example div_1000e3_1 : dec_div (mkDec 1000 (-3)) 1 = mkDec 1000 (-3).
Proof. vm_compute. reflexivity. Qed.
Example mul_300_23 :
  dec_mul 300 (dec_div 10 15) = mkDec 2000000000000000000000000000 (-25).
Proof. vm_compute. reflexivity. Qed.
Example mul_300_13 :
  dec_mul 300 (dec_div 5 15) = mkDec 9999999999999999999999999999 (-26).
Proof. vm_compute. reflexivity. Qed.
Example half_even_tie :
  dec_div (mkDec 6666666666666666666666666667 (-28)) 2
  = mkDec 3333333333333333333333333334 (-28).
Proof. vm_compute. reflexivity. Qed.

(** ** Naive date-times (module [datetime]) *)

Module datetime.

Record t : Type := mk {
year : Z; month : Z; day : Z;
hour : Z; minute : Z; second : Z; microsecond : Z
}.

Definition _is_leap (y : Z) : bool :=
(y mod 4 =? 0) && (negb (y mod 100 =? 0) || (y mod 400 =? 0)).

Definition _days_before_year (y : Z) : Z :=
let y := y - 1 in y * 365 + y / 4 - y / 100 + y / 400.

Definition _days_before_month (y m : Z) : Z :=
nth (Z.to_nat m) [0; 0; 31; 59; 90; 120; 151; 181; 212; 243; 273; 304; 334] 0
+ (if (2 <? m) && _is_leap y then 1 else 0).

Definition toordinal (d : t) : Z :=
_days_before_year (year d) + _days_before_month (year d) (month d) + day d.

(** [(a - b).days]: the timedelta is normalised with floor divisions, so
  [days] is the number of whole days, rounded towards minus infinity. *)
Definition days_between (a b : t) : Z :=
let d := toordinal a - toordinal b in
let s := (second a + minute a * 60 + hour a * 3600)
         - (second b + minute b * 60 + hour b * 3600) in
let us := microsecond a - microsecond b in
let s := s + us / 1000000 in
d + s / 86400.

Definition fields (d : t) : list Z :=
[year d; month d; day d; hour d; minute d; second d; microsecond d].

Fixpoint lex_cmp (a b : list Z) : comparison :=
match a, b with
| [], [] => Eq
| [], _ :: _ => Lt
| _ :: _, [] => Gt
| x :: a', y :: b' =>
    match x ?= y with Eq => lex_cmp a' b' | c => c end
end.

(** [datetime._cmp]: the field tuples compared lexicographically. *)
Definition cmp (a b : t) : comparison := lex_cmp (fields a) (fields b).
Definition ltb (a b : t) : bool :=
match cmp a b with Lt => true | _ => false end.

Definition date (y m d : Z) : t := mk y m d 0 0 0 0.

End datetime.

(** ** Python's stable sort *)

Section Sorted.
Context {A K : Type} (ltb : K -> K -> bool) (key : A -> K).

(** Insert [x], which precedes every element of [l] in the input, in
    front of the first element whose key is not smaller. *)
Fixpoint insert_stable (x : A) (l : list A) : list A :=
  match l with
  | [] => [x]
  | y :: l' =>
      if ltb (key y) (key x) then y :: insert_stable x l' else x :: y :: l'
  end.

(** [sorted(l, key=key)]: ascending, stable, using only [<] on keys. *)
Definition sorted (l : list A) : list A := foldr insert_stable [] l.

(** [sorted(l, key=key, reverse=True)]: CPython reverses the list, sorts
    it stably and reverses the result. *)
Definition sorted_reverse (l : list A) : list A := rev (sorted (rev l)).
End Sorted.

(** ** Data model *)

Module TaxLot.
Record t : Type := mk {
  asset : string;
  amount : Decimal;
  cost_basis_usd : Decimal;
  acquired_date : datetime.t;
  tx_hash : string;
  protocol : string;
  lot_id : string
}.

Definition unit_cost (self : t) : Decimal :=
  if dec_eqb (amount self) 0 then 0
  else dec_div (cost_basis_usd self) (amount self).

(** The two in-place updates at the end of the matching loop. *)
Definition consume (self : t) (disposed_amount cost_basis : Decimal) : t :=
  mk (asset self)
     (dec_sub (amount self) disposed_amount)
     (dec_sub (cost_basis_usd self) cost_basis)
     (acquired_date self) (tx_hash self) (protocol self) (lot_id self).
End TaxLot.

Module TaxEvent.
Record t : Type := mk {
  asset : string;
  amount_disposed : Decimal;
  proceeds_usd : Decimal;
  cost_basis_usd : Decimal;
  gain_loss_usd : Decimal;
  acquired_date : datetime.t;
  disposed_date : datetime.t;
  holding_period : string;
  tx_hash : string;
  protocol : string;
  event_type : string
}.
End TaxEvent.

Module IncomeEvent.
Record t : Type := mk {
  asset : string;
  amount : Decimal;
  fair_market_value_usd : Decimal;
  date : datetime.t;
  tx_hash : string;
  protocol : string;
  income_type : string
}.
End IncomeEvent.

(** ** The engine *)

Definition upper_ascii (c : ascii) : ascii :=
  let n := nat_of_ascii c in
  if ((97 <=? n) && (n <=? 122))%nat then ascii_of_nat (n - 32) else c.

(** [s.isascii()] *)
Fixpoint isascii (s : string) : bool :=
  match s with
  | EmptyString => true
  | String c s' => (nat_of_ascii c <? 128)%nat && isascii s'
  end.

(** [str.upper] on ASCII text, where it changes the letters a-z only.  On
    other text Python applies the Unicode case mapping (the ligature fi
    becomes FI), which is not modelled. *)
Fixpoint upper (s : string) : string :=
  match s with
  | EmptyString => EmptyString
  | String c s' => String (upper_ascii c) (upper s')
  end.

(** [s[:n]] *)
Fixpoint str_take (n : nat) (s : string) : string :=
  match n, s with
  | S n', String c s' => String c (str_take n' s')
  | _, _ => EmptyString
  end.

Record TaxEngine : Type := mkEngine {
  method : string;
  lots : gmap string (list TaxLot.t);
  tax_events : list TaxEvent.t;
  income_events : list IncomeEvent.t
}.

(** [TaxEngine.__init__] *)
Definition __init__ (cost_basis_method : string) : TaxEngine :=
  mkEngine (upper cost_basis_method) ∅ [] [].

(** [self.lots.get(asset, [])] *)
Definition lots_get (self : TaxEngine) (asset : string) : list TaxLot.t :=
  default [] (lots self !! asset).

Definition add_acquisition (self : TaxEngine)
    (asset : string) (amount cost_basis_usd : Decimal)
    (acquired_date : datetime.t) (tx_hash protocol : string)
  : TaxLot.t * TaxEngine :=
  let old := lots_get self asset in
  let lot :=
    TaxLot.mk asset amount cost_basis_usd acquired_date tx_hash protocol
      (str_take 8 tx_hash +:+ "-" +:+ asset +:+ "-" +:+ pretty (length old)) in
  (lot,
   mkEngine (method self) (<[asset := old ++ [lot]]> (lots self))
            (tax_events self) (income_events self)).

(** A lot object in a list of the engine: its position in the asset's
    list together with the lot as it is when the list is sorted. *)
Abbreviation lot_ref := (nat * TaxLot.t)%type.

Definition refs (asset_lots : list TaxLot.t) : list lot_ref :=
  zip (seq 0 (length asset_lots)) asset_lots.

Definition _sort_lots (self : TaxEngine) (lots : list lot_ref)
    (current_price : Decimal) : list lot_ref :=
  if String.eqb (method self) "FIFO" then
    sorted datetime.ltb (fun l => TaxLot.acquired_date (snd l)) lots
  else if String.eqb (method self) "LIFO" then
    sorted_reverse datetime.ltb (fun l => TaxLot.acquired_date (snd l)) lots
  else if String.eqb (method self) "HIFO" then
    sorted_reverse dec_ltb (fun l => TaxLot.unit_cost (snd l)) lots
  else lots.

Section Disposal.
Variables (asset : string) (amount proceeds_usd : Decimal)
          (disposed_date : datetime.t) (tx_hash protocol event_type : string).

(** The event built for one matched lot, with the cost basis it
    consumes. *)
Definition match_lot (remaining : Decimal) (lot : TaxLot.t)
  : Decimal * Decimal * TaxEvent.t :=
  let disposed_amount := py_min remaining (TaxLot.amount lot) in
  let proportion :=
    if dec_ltb 0 (TaxLot.amount lot)
    then dec_div disposed_amount (TaxLot.amount lot) else 0 in
  let cost_basis := dec_mul (TaxLot.cost_basis_usd lot) proportion in
  let proceeds :=
    if dec_ltb 0 amount
    then dec_mul proceeds_usd (dec_div disposed_amount amount) else 0 in
  let gain_loss := dec_sub proceeds cost_basis in
  let days_held := datetime.days_between disposed_date (TaxLot.acquired_date lot) in
  let holding_period := if 365 <? days_held then "long" else "short" in
  (disposed_amount, cost_basis,
   TaxEvent.mk asset disposed_amount proceeds cost_basis gain_loss
     (TaxLot.acquired_date lot) disposed_date holding_period
     tx_hash protocol event_type).

(** The [for lot in sorted_lots] loop.  [store] is the asset's list of
    lots, updated in place; the result carries the local [events] and
    the final value of [remaining]. *)
Fixpoint match_loop (sorted_lots : list nat) (remaining : Decimal)
    (store : list TaxLot.t) (events : list TaxEvent.t)
  : list TaxLot.t * list TaxEvent.t * Decimal :=
  match sorted_lots with
  | [] => (store, events, remaining)
  | i :: rest =>
      if dec_leb remaining 0 then (store, events, remaining)
      else
        match store !! i with
        | None => match_loop rest remaining store events
        | Some lot =>
            if dec_leb (TaxLot.amount lot) 0
            then match_loop rest remaining store events
            else
              let '(disposed_amount, cost_basis, event) :=
                match_lot remaining lot in
              match_loop rest (dec_sub remaining disposed_amount)
                (<[i := TaxLot.consume lot disposed_amount cost_basis]> store)
                (events ++ [event])
        end
  end.

Definition fallback_event : TaxEvent.t :=
  TaxEvent.mk asset amount proceeds_usd 0 proceeds_usd
    disposed_date disposed_date "short" tx_hash protocol event_type.

Definition add_disposal (self : TaxEngine) : list TaxEvent.t * TaxEngine :=
  let asset_lots := lots_get self asset in
  match asset_lots with
  | [] =>
      ([fallback_event],
       mkEngine (method self) (lots self)
                (tax_events self ++ [fallback_event]) (income_events self))
  | _ :: _ =>
      let sorted_lots :=
        _sort_lots self (refs asset_lots)
          (if dec_ltb 0 amount then dec_div proceeds_usd amount else 0) in
      let '(store, events, _) :=
        match_loop (map fst sorted_lots) amount asset_lots [] in
      (events,
       mkEngine (method self) (<[asset := store]> (lots self))
                (tax_events self ++ events) (income_events self))
  end.
End Disposal.

Definition add_income (self : TaxEngine)
    (asset : string) (amount fmv_usd : Decimal) (date : datetime.t)
    (tx_hash protocol income_type : string) : IncomeEvent.t * TaxEngine :=
  let event :=
    IncomeEvent.mk asset amount fmv_usd date tx_hash protocol income_type in
  let self1 :=
    mkEngine (method self) (lots self) (tax_events self)
             (income_events self ++ [event]) in
  (event, snd (add_acquisition self1 asset amount fmv_usd date tx_hash protocol)).

(** ** Reports *)

Inductive exn : Type :=
| AttributeError    (* an [int] has no attribute [quantize] *)
| InvalidOperation. (* signalled by [Decimal.quantize] *)

Inductive result (A : Type) : Type :=
| Ok (a : A)
| Raise (e : exn).
Arguments Ok {A} a.
Arguments Raise {A} e.

#[global] Instance result_bind : MBind result := fun A B k r =>
  match r with Ok a => k a | Raise e => Raise e end.

Fixpoint mapM {A B : Type} (f : A -> result B) (l : list A) : result (list B) :=
  match l with
  | [] => Ok []
  | x :: l' => y ← f x; ys ← mapM f l'; Ok (y :: ys)
  end.

(** The value of [sum(...)]: the integer [0] it starts from, or a
    [Decimal] once an item has been added. *)
Inductive pynum : Type :=
| PyInt (n : Z)
| PyDec (d : Decimal).

Definition py_add (a b : pynum) : pynum :=
  match a, b with
  | PyInt m, PyInt n => PyInt (m + n)
  | PyInt m, PyDec d => PyDec (dec_add (dec_of_Z m) d)
  | PyDec d, PyInt n => PyDec (dec_add d (dec_of_Z n))
  | PyDec d, PyDec d' => PyDec (dec_add d d')
  end.

Definition py_sum (l : list Decimal) : pynum :=
  fold_left (fun acc d => py_add acc (PyDec d)) l (PyInt 0).

(** [x.quantize(Decimal("0.01"), rounding=m)] *)
Definition py_quantize (x : pynum) (m : rounding) : result Decimal :=
  match x with
  | PyInt _ => Raise AttributeError
  | PyDec d =>
      match quantize d (-2) m with
      | Some q => Ok q
      | None => Raise InvalidOperation
      end
  end.

Definition digits_of (n : Z) : string := pretty (Z.to_N (Z.abs n)).

Fixpoint zeros (n : nat) : string :=
  match n with O => "" | S n' => String "0" (zeros n') end.

Fixpoint str_drop (n : nat) (s : string) : string :=
  match n, s with
  | S n', String _ s' => str_drop n' s'
  | _, _ => s
  end.

(** [str(d)] ([Decimal.__str__]). *)
Definition dec_str (d : Decimal) : string :=
  let int := digits_of (dcoeff d) in
  let len := Z.of_nat (String.length int) in
  let leftdigits := dexp d + len in
  let dotplace :=
    if (dexp d <=? 0) && (-6 <? leftdigits) then leftdigits else 1 in
  let body :=
    if dotplace <=? 0 then "0." +:+ zeros (Z.to_nat (- dotplace)) +:+ int
    else if len <=? dotplace then int +:+ zeros (Z.to_nat (dotplace - len))
    else str_take (Z.to_nat dotplace) int +:+ "." +:+ str_drop (Z.to_nat dotplace) int in
  let e := leftdigits - dotplace in
  (if dcoeff d <? 0 then "-" else "") +:+ body +:+
  (if e =? 0 then "" else "E" +:+ (if 0 <=? e then "+" else "-") +:+ digits_of e).

(** [str(d.quantize(...))] for the value [q] that [quantize] returned for
    [d].  Python's decimals carry their sign apart from the coefficient
    and [quantize] keeps the sign of its operand, so a negative value that
    rounds to zero gives the negative zero, printed [-0.00]. *)
Definition quantized_str (d q : Decimal) : string :=
  if (dcoeff d <? 0) && (dcoeff q =? 0) then "-" +:+ dec_str q else dec_str q.

(** [str(x.quantize(Decimal("0.01"), rounding=m))] *)
Definition py_quantize_str (x : pynum) (m : rounding) : result string :=
  match x with
  | PyInt _ => Raise AttributeError
  | PyDec d => q ← py_quantize (PyDec d) m; Ok (quantized_str d q)
  end.

(** [f"{d:.6f}"] *)
Definition format_6f (d : Decimal) : string :=
  let r := rescale d (-6) ROUND_HALF_EVEN in
  let int := digits_of (dcoeff r) in
  let int := zeros (7 - String.length int) +:+ int in
  let n := (String.length int - 6)%nat in
  (if dcoeff d <? 0 then "-" else "") +:+ str_take n int +:+ "." +:+ str_drop n int.

Definition pad2 (n : Z) : string :=
  let s := digits_of n in zeros (2 - String.length s) +:+ s.

(** [strftime("%m/%d/%Y")] and [strftime("%Y-%m-%d")]; the year is
    printed without padding, as glibc does. *)
Definition strftime_mdY (d : datetime.t) : string :=
  pad2 (datetime.month d) +:+ "/" +:+ pad2 (datetime.day d) +:+ "/"
  +:+ digits_of (datetime.year d).
Definition strftime_Ymd (d : datetime.t) : string :=
  digits_of (datetime.year d) +:+ "-" +:+ pad2 (datetime.month d) +:+ "-"
  +:+ pad2 (datetime.day d).

(** [if tax_year:] keeps every event for [None] and for the year 0. *)
Definition in_year {A : Type} (date : A -> datetime.t) (tax_year : option Z)
    (l : list A) : list A :=
  match tax_year with
  | None => l
  | Some y =>
      if y =? 0 then l
      else List.filter (fun e => datetime.year (date e) =? y) l
  end.

Definition with_period (p : string) (events : list TaxEvent.t) : list TaxEvent.t :=
  List.filter (fun e => String.eqb (TaxEvent.holding_period e) p) events.

(** [totals[k] += v] on the insertion-ordered dict of
    [_group_income_by_type]. *)
Fixpoint totals_add (k : string) (v : Decimal) (totals : list (string * Decimal))
  : list (string * Decimal) :=
  match totals with
  | [] => [(k, dec_add 0 v)]
  | (k', t) :: rest =>
      if String.eqb k' k then (k', dec_add t v) :: rest
      else (k', t) :: totals_add k v rest
  end.

Definition _group_income_by_type (income : list IncomeEvent.t)
  : result (list (string * string)) :=
  let totals :=
    fold_left
      (fun totals e =>
         totals_add (IncomeEvent.income_type e)
                    (IncomeEvent.fair_market_value_usd e) totals)
      income [] in
  mapM (fun kv =>
          q ← py_quantize_str (PyDec (snd kv)) ROUND_HALF_EVEN;
          Ok (fst kv, q)) totals.

Record Summary : Type := mkSummary {
  sum_tax_year : option Z;
  sum_cost_basis_method : string;
  short_term_total : string;
  short_term_events : nat;
  long_term_total : string;
  long_term_events : nat;
  net_total : string;
  income_total : string;
  income_count : nat;
  income_by_type : list (string * string);
  protocols_used : gset string;
  total_transactions : nat
}.

Definition generate_summary (self : TaxEngine) (tax_year : option Z)
  : result Summary :=
  let events := in_year TaxEvent.disposed_date tax_year (tax_events self) in
  let income := in_year IncomeEvent.date tax_year (income_events self) in
  let short_term_gains :=
    py_sum (map TaxEvent.gain_loss_usd (with_period "short" events)) in
  let long_term_gains :=
    py_sum (map TaxEvent.gain_loss_usd (with_period "long" events)) in
  let total_income := py_sum (map IncomeEvent.fair_market_value_usd income) in
  st ← py_quantize_str short_term_gains ROUND_HALF_UP;
  lt ← py_quantize_str long_term_gains ROUND_HALF_UP;
  net ← py_quantize_str (py_add short_term_gains long_term_gains) ROUND_HALF_UP;
  inc ← py_quantize_str total_income ROUND_HALF_UP;
  by_type ← _group_income_by_type income;
  Ok (mkSummary tax_year (method self)
        st (length (with_period "short" events))
        lt (length (with_period "long" events))
        net
        inc (length income) by_type
        (list_to_set (map TaxEvent.protocol events ++ map IncomeEvent.protocol income))
        (length events)).

Record Form8949Row : Type := mkForm8949Row {
  description : string;
  date_acquired : string;
  date_sold : string;
  proceeds : string;
  cost_basis : string;
  gain_loss : string;
  term : string;
  row_tx_hash : string
}.

Definition form_8949_row (event : TaxEvent.t) : result Form8949Row :=
  let description :=
    format_6f (TaxEvent.amount_disposed event) +:+ " " +:+ TaxEvent.asset event
    +:+ " (" +:+ TaxEvent.protocol event +:+ ")" in
  p ← py_quantize_str (PyDec (TaxEvent.proceeds_usd event)) ROUND_HALF_EVEN;
  c ← py_quantize_str (PyDec (TaxEvent.cost_basis_usd event)) ROUND_HALF_EVEN;
  g ← py_quantize_str (PyDec (TaxEvent.gain_loss_usd event)) ROUND_HALF_EVEN;
  Ok (mkForm8949Row description
        (strftime_mdY (TaxEvent.acquired_date event))
        (strftime_mdY (TaxEvent.disposed_date event))
        p c g
        (if String.eqb (TaxEvent.holding_period event) "short" then "A" else "D")
        (TaxEvent.tx_hash event)).

Definition generate_form_8949 (self : TaxEngine) (tax_year : option Z)
  : result (list Form8949Row) :=
  mapM form_8949_row (in_year TaxEvent.disposed_date tax_year (tax_events self)).

(** The dict handed to [writer.writerow] for one event; field order as in
    [fieldnames]. *)
Record CsvRow : Type := mkCsvRow {
  csv_date_sold : string;
  csv_date_acquired : string;
  csv_asset : string;
  csv_amount : string;
  csv_proceeds_usd : string;
  csv_cost_basis_usd : string;
  csv_gain_loss_usd : string;
  csv_holding_period : string;
  csv_protocol : string;
  csv_event_type : string;
  csv_tx_hash : string
}.

Definition csv_row (event : TaxEvent.t) : result CsvRow :=
  p ← py_quantize_str (PyDec (TaxEvent.proceeds_usd event)) ROUND_HALF_EVEN;
  c ← py_quantize_str (PyDec (TaxEvent.cost_basis_usd event)) ROUND_HALF_EVEN;
  g ← py_quantize_str (PyDec (TaxEvent.gain_loss_usd event)) ROUND_HALF_EVEN;
  Ok (mkCsvRow
        (strftime_Ymd (TaxEvent.disposed_date event))
        (strftime_Ymd (TaxEvent.acquired_date event))
        (TaxEvent.asset event)
        (dec_str (TaxEvent.amount_disposed event))
        p c g
        (TaxEvent.holding_period event) (TaxEvent.protocol event)
        (TaxEvent.event_type event) (TaxEvent.tx_hash event)).

(** The rows [export_csv] writes (the CSV text itself is produced by
    [csv.DictWriter]). *)
Definition export_csv_rows (self : TaxEngine) (tax_year : option Z)
  : result (list CsvRow) :=
  mapM csv_row (in_year TaxEvent.disposed_date tax_year (tax_events self)).

(** * Properties *)

(** ** The matching loop *)

Section LoopFacts.
Variables (asset : string) (amount proceeds_usd : Decimal)
          (disposed_date : datetime.t) (tx_hash protocol event_type : string).

Abbreviation match_lot :=
  (match_lot asset amount proceeds_usd disposed_date tx_hash protocol event_type).
Abbreviation match_loop :=
  (match_loop asset amount proceeds_usd disposed_date tx_hash protocol event_type).

(** The loop only appends to the local list of events, and its other
    results do not depend on that list. *)
Lemma match_loop_events_app order : forall remaining store events,
  match_loop order remaining store events
  = ((match_loop order remaining store []).1.1,
     events ++ (match_loop order remaining store []).1.2,
     (match_loop order remaining store []).2).
Proof.
  induction order as [|i rest IH]; intros remaining store events; simpl.
  - by rewrite app_nil_r.
  - destruct (dec_leb remaining 0); [by rewrite app_nil_r|].
    destruct (store !! i) as [lot|]; [|apply IH].
    destruct (dec_leb (TaxLot.amount lot) 0); [apply IH|].
    rewrite IH. symmetry. rewrite IH. simpl. by rewrite <- app_assoc.
Qed.

(** Every event the loop adds is built by [match_lot] from a lot of the
    store that is open at that moment, with a positive remainder. *)
Lemma match_loop_events_Forall (P : TaxEvent.t -> Prop) :
  (forall remaining lot,
      dec_leb remaining 0 = false -> dec_leb (TaxLot.amount lot) 0 = false ->
      P (match_lot remaining lot).2) ->
  forall order remaining store events,
    Forall P events ->
    Forall P (match_loop order remaining store events).1.2.
Proof.
  intros HP. induction order as [|i rest IH]; intros remaining store events Hev;
    simpl; [done|].
  destruct (dec_leb remaining 0) eqn:Hr; [done|].
  destruct (store !! i) as [lot|]; [|by apply IH].
  destruct (dec_leb (TaxLot.amount lot) 0) eqn:Ha; [by apply IH|].
  apply IH. apply Forall_app. split; [done|].
  constructor; [|constructor]. apply (HP remaining lot Hr Ha).
Qed.

(** The loop keeps the length of the asset's list. *)
Lemma match_loop_length order : forall remaining store events,
  length (match_loop order remaining store events).1.1 = length store.
Proof.
  induction order as [|i rest IH]; intros remaining store events; simpl; [done|].
  destruct (dec_leb remaining 0); [done|].
  destruct (store !! i) as [lot|]; [|apply IH].
  destruct (dec_leb (TaxLot.amount lot) 0); [apply IH|].
  rewrite IH. apply length_insert.
Qed.
End LoopFacts.

(** ** Holding period (C8) *)

Definition days_held (e : TaxEvent.t) : Z :=
  datetime.days_between (TaxEvent.disposed_date e) (TaxEvent.acquired_date e).






Example held_365_days :
  datetime.days_between (datetime.date 2024 1 1) (datetime.date 2023 1 1) = 365.
Proof. reflexivity. Qed.

Example held_366_days :
  datetime.days_between (datetime.date 2024 1 2) (datetime.date 2023 1 1) = 366.
Proof. reflexivity. Qed.

(** ** Sample ledgers *)

Module Scenario.
Definition jan1 : datetime.t := datetime.date 2024 1 1.
Definition jun1 : datetime.t := datetime.date 2024 6 1.
Definition jul1 : datetime.t := datetime.date 2024 7 1.

(** Two UNI lots under FIFO: 10 for $50 on 2024-01-01, then 10 for $100
    on 2024-06-01. *)
Definition two_lots : TaxEngine :=
  let e0 := __init__ "FIFO" in
  let e1 := (add_acquisition e0 "UNI" 10 50 jan1 "0xa1" "uniswap").2 in
  (add_acquisition e1 "UNI" 10 100 jun1 "0xa2" "uniswap").2.

Definition sell_15 : list TaxEvent.t * TaxEngine :=
  add_disposal "UNI" 15 300 jul1 "0xd1" "uniswap" "swap" two_lots.

(** One lot of 10 UNI, sold whole; the asset then has a lot but no open
    lot. *)
Definition sold_out : TaxEngine :=
  let e0 := __init__ "FIFO" in
  let e1 := (add_acquisition e0 "UNI" 10 50 jan1 "0xa1" "uniswap").2 in
  (add_disposal "UNI" 10 100 jun1 "0xd1" "uniswap" "swap" e1).2.
End Scenario.


(** ** Disposal of an asset without lots (C10, C5) *)

(** C10. When the asset has no lots, [add_disposal] emits the single
    fallback event; its acquisition date is the disposal date and its
    amount the whole requested amount, so the Form 8949 row and the CSV row
    of that event show the same date as acquired and as sold. *)
Theorem fallback_event_same_dates asset amount proceeds_usd disposed_date tx_hash
    protocol event_type self :
  lots_get self asset = [] ->
  exists e,
    (add_disposal asset amount proceeds_usd disposed_date tx_hash protocol
       event_type self).1 = [e] /\
    tax_events (add_disposal asset amount proceeds_usd disposed_date tx_hash
                  protocol event_type self).2 = tax_events self ++ [e] /\
    TaxEvent.acquired_date e = TaxEvent.disposed_date e /\
    TaxEvent.disposed_date e = disposed_date /\
    TaxEvent.amount_disposed e = amount /\
    (forall row, form_8949_row e = Ok row -> date_acquired row = date_sold row) /\
    (forall row, csv_row e = Ok row -> csv_date_acquired row = csv_date_sold row).
Proof.
  intros Hnone. unfold add_disposal. rewrite Hnone.
  eexists. split; [reflexivity|]. split; [reflexivity|].
  split; [reflexivity|]. split; [reflexivity|]. split; [reflexivity|].
  split; intros row; unfold form_8949_row, csv_row; simpl;
    repeat (match goal with
            | |- context [quantize ?d ?e ?m] => destruct (quantize d e m)
            end; simpl; try discriminate);
    intros [= <-]; reflexivity.
Qed.

Lemma fallback_event_same_dates_witness :
  lots_get (__init__ "FIFO") "UNI" = [] /\
  exists e,
    (add_disposal "UNI" 5 60 Scenario.jul1 "0xd2" "uniswap" "swap"
       (__init__ "FIFO")).1 = [e] /\
    TaxEvent.acquired_date e = TaxEvent.disposed_date e /\
    form_8949_row e
    = Ok (mkForm8949Row "5.000000 UNI (uniswap)" "07/01/2024" "07/01/2024"
            "60.00" "0.00" "60.00" "A" "0xd2").
Proof.
  split; [reflexivity|].
  destruct (fallback_event_same_dates "UNI" 5 60 Scenario.jul1 "0xd2" "uniswap"
              "swap" (__init__ "FIFO") eq_refl) as (e & He & _ & Hd & _).
  exists e. split; [exact He|]. split; [exact Hd|].
  injection He as <-. vm_compute. reflexivity.
Defined.

(** C5 (the case the code misses). Once the only lot of an asset is
    exhausted, a further disposal of that asset returns no event at all and
    records none: no zero-cost-basis event is emitted for it. *)
Theorem exhausted_lots_emit_no_event :
  Forall (fun lot => dec_ltb 0 (TaxLot.amount lot) = false)
         (lots_get Scenario.sold_out "UNI") /\
  (add_disposal "UNI" 5 60 Scenario.jul1 "0xd2" "uniswap" "swap"
     Scenario.sold_out).1 = [] /\
  tax_events (add_disposal "UNI" 5 60 Scenario.jul1 "0xd2" "uniswap" "swap"
                Scenario.sold_out).2 = tax_events Scenario.sold_out.
Proof.
  split; [|split].
  - vm_compute. constructor; [reflexivity | constructor].
  - vm_compute. reflexivity.
  - vm_compute. reflexivity.
Qed.

(** ** The end-to-end scenario (C9) *)

(** C9 (what the code does). In the scenario the disposal returns two
    short-term events: 10 UNI with cost basis 50, proceeds 200 and gain
    150, then 5 UNI with cost basis 50, proceeds
    99.99999999999999999999999999 and gain 49.99999999999999999999999999
    (the 28-digit quotient 5/15 times 300).  [generate_summary(2024)] then
    raises AttributeError: there is no long-term event, so the long-term
    [sum] is the integer 0, which has no [quantize]; the short-term total
    computed before that is 200.00. *)
Theorem scenario_summary_raises :
  Scenario.sell_15.1
  = [ TaxEvent.mk "UNI" 10 (mkDec 2000000000000000000000000000 (-25)) 50
        (mkDec 1500000000000000000000000000 (-25))
        Scenario.jan1 Scenario.jul1 "short" "0xd1" "uniswap" "swap";
      TaxEvent.mk "UNI" 5 (mkDec 9999999999999999999999999999 (-26))
        (mkDec 500 (-1)) (mkDec 4999999999999999999999999999 (-26))
        Scenario.jun1 Scenario.jul1 "short" "0xd1" "uniswap" "swap" ] /\
  dec_eqb (mkDec 9999999999999999999999999999 (-26)) 100 = false /\
  generate_summary Scenario.sell_15.2 (Some 2024) = Raise AttributeError /\
  (let events := in_year TaxEvent.disposed_date (Some 2024)
                   (tax_events Scenario.sell_15.2) in
   py_sum (map TaxEvent.gain_loss_usd (with_period "long" events)) = PyInt 0 /\
   (q ← py_quantize
      (py_sum (map TaxEvent.gain_loss_usd (with_period "short" events)))
      ROUND_HALF_UP; Ok (dec_str q)) = Ok "200.00").
Proof.
  split; [vm_compute; reflexivity|].
  split; [vm_compute; reflexivity|].
  split; [vm_compute; reflexivity|].
  split; vm_compute; reflexivity.
Qed.

(** ** Construction and validation (C3, C2) *)

Definition known_method (m : string) : bool :=
  String.eqb m "FIFO" || String.eqb m "LIFO" || String.eqb m "HIFO".

Lemma sort_lots_unknown self (l : list lot_ref) price :
  known_method (method self) = false -> _sort_lots self l price = l.
Proof.
  unfold known_method, _sort_lots. intros H.
  apply orb_false_elim in H as [H H3]. apply orb_false_elim in H as [H1 H2].
  by rewrite H1, H2, H3.
Qed.

Lemma refs_fst (l : list TaxLot.t) : map fst (refs l) = seq 0 (length l).
Proof.
  unfold refs. generalize 0%nat. induction l as [|x l IH]; intros n; simpl; [done|].
  f_equal. apply IH.
Qed.

(** C3 (counterexample). An engine is constructed for the method name
    "average"; a disposal then consumes the lot inserted first although it
    was acquired later. *)
Lemma unknown_method_is_accepted :
  let e0 := __init__ "average" in
  let e1 := (add_acquisition e0 "UNI" 10 100 Scenario.jun1 "0xa2" "uniswap").2 in
  let e2 := (add_acquisition e1 "UNI" 10 50 Scenario.jan1 "0xa1" "uniswap").2 in
  method e0 = "AVERAGE" /\
  map TaxEvent.acquired_date
      (add_disposal "UNI" 10 300 Scenario.jul1 "0xd1" "uniswap" "swap" e2).1
  = [Scenario.jun1].
Proof. split; vm_compute; reflexivity. Qed.

(** C3 (amended). Construction accepts every method name made of ASCII
    characters and stores it in upper case; when that upper-cased name is
    none of FIFO, LIFO and HIFO, [_sort_lots] returns the lots as they
    are, so a disposal walks the asset's lots in insertion order.  (A
    name with other characters is upper-cased by the Unicode case mapping,
    which can turn it into one of the three names.) *)
Theorem unknown_method_keeps_insertion_order cost_basis_method :
  isascii cost_basis_method = true ->
  known_method (upper cost_basis_method) = false ->
  let self := __init__ cost_basis_method in
  method self = upper cost_basis_method /\
  lots self = ∅ /\ tax_events self = [] /\ income_events self = [] /\
  forall (engine : TaxEngine) asset_lots price,
    method engine = method self ->
    _sort_lots engine (refs asset_lots) price = refs asset_lots /\
    map fst (_sort_lots engine (refs asset_lots) price)
    = seq 0 (length asset_lots).
Proof.
  intros _ Hm self. repeat (split; [reflexivity|]).
  intros engine asset_lots price He.
  assert (Hs : _sort_lots engine (refs asset_lots) price = refs asset_lots).
  { apply sort_lots_unknown. rewrite He. exact Hm. }
  split; [exact Hs|]. rewrite Hs. apply refs_fst.
Qed.

Lemma unknown_method_keeps_insertion_order_witness :
  isascii "average" = true /\
  known_method (upper "average") = false /\
  method (__init__ "average") = "AVERAGE".
Proof.
  split; [reflexivity|]. split; [reflexivity|].
  apply (unknown_method_keeps_insertion_order "average"); reflexivity.
Defined.

Lemma match_loop_nonpositive asset amount proceeds_usd disposed_date tx_hash
    protocol event_type order remaining store events :
  dec_leb remaining 0 = true ->
  match_loop asset amount proceeds_usd disposed_date tx_hash protocol event_type
    order remaining store events = (store, events, remaining).
Proof. intros H. destruct order; simpl; [done|]. by rewrite H. Qed.

Lemma lots_get_cons self asset l0 ls :
  lots_get self asset = l0 :: ls -> lots self !! asset = Some (l0 :: ls).
Proof.
  unfold lots_get. destruct (lots self !! asset); simpl; [congruence|done].
Qed.

(** C2 (counterexample). An acquisition of -5 UNI for -10 USD is accepted
    and recorded as a lot; a disposal of -5 UNI for -60 USD is accepted and
    recorded as a tax event. *)
Lemma negative_input_is_recorded :
  let e0 := __init__ "FIFO" in
  let r1 := add_acquisition e0 "UNI" (-5) (-10) Scenario.jan1 "0xa1" "uniswap" in
  let r2 := add_disposal "UNI" (-5) (-60) Scenario.jul1 "0xd1" "uniswap" "swap" e0 in
  map TaxLot.amount (lots_get r1.2 "UNI") = [dec_of_Z (-5)] /\
  lots_get e0 "UNI" = [] /\
  map TaxEvent.amount_disposed (tax_events r2.2) = [dec_of_Z (-5)] /\
  tax_events e0 = [].
Proof. repeat split; vm_compute; reflexivity. Qed.

(** C2 (amended). Neither operation validates its input.  For every
    amount and cost basis [add_acquisition] appends the lot to the asset's
    list and leaves the other lists, the tax events and the income events
    as they are.  [add_disposal] with an amount <= 0 leaves the ledger
    unchanged and returns no event when the asset has lots, and records the
    zero-cost-basis event for the given amount when it has none. *)
Theorem no_input_validation self asset amount usd date tx_hash protocol event_type :
  (let r := add_acquisition self asset amount usd date tx_hash protocol in
   TaxLot.amount r.1 = amount /\ TaxLot.cost_basis_usd r.1 = usd /\
   lots_get r.2 asset = lots_get self asset ++ [r.1] /\
   (forall other, other <> asset -> lots_get r.2 other = lots_get self other) /\
   tax_events r.2 = tax_events self /\ income_events r.2 = income_events self) /\
  (dec_leb amount 0 = true ->
   let r := add_disposal asset amount usd date tx_hash protocol event_type self in
   (lots_get self asset <> [] -> r = ([], self)) /\
   (lots_get self asset = [] ->
    r.1 = [fallback_event asset amount usd date tx_hash protocol event_type] /\
    lots r.2 = lots self /\ income_events r.2 = income_events self /\
    tax_events r.2 = tax_events self ++ r.1)).
Proof.
  split.
  - simpl. repeat split.
    + unfold lots_get at 1. simpl. by rewrite lookup_insert_eq.
    + intros other Hne. unfold lots_get. simpl. by rewrite lookup_insert_ne.
  - intros Hle r. subst r. split.
    + intros Hlots. unfold add_disposal.
      destruct (lots_get self asset) as [|l0 ls] eqn:E; [done|].
      rewrite match_loop_nonpositive by exact Hle.
      apply lots_get_cons in E. destruct self as [m l t i]; simpl in *.
      rewrite app_nil_r. by rewrite insert_id.
    + intros Hnone. unfold add_disposal. rewrite Hnone. by simpl.
Qed.

Lemma no_input_validation_witness :
  dec_leb (-5) 0 = true /\
  add_disposal "UNI" (-5) 60 Scenario.jul1 "0xd2" "uniswap" "swap"
    Scenario.two_lots = ([], Scenario.two_lots).
Proof.
  split; [reflexivity|].
  apply (no_input_validation Scenario.two_lots "UNI" (-5) 60 Scenario.jul1
           "0xd2" "uniswap" "swap"); [reflexivity|].
  vm_compute. discriminate.
Defined.

(** ** The order of [_sort_lots] (C4) *)

Section SortedFacts.
Context {A K : Type} (ltb : K -> K -> bool) (key : A -> K).

(** [ltb] is the strict part of a total preorder on keys. *)
Hypothesis ltb_cotrans :
  forall a b c, ltb a c = true -> ltb a b = true \/ ltb b c = true.

(** [x] is placed before [y]: its key is smaller, or the keys tie and
    [x] precedes [y] in the input ([pos]). *)
Definition before (pos : A -> A -> Prop) (x y : A) : Prop :=
  ltb (key x) (key y) = true \/ (ltb (key y) (key x) = false /\ pos x y).

Lemma insert_stable_perm x l : insert_stable ltb key x l ≡ₚ x :: l.
Proof.
  induction l as [|y l IH]; simpl; [done|].
  destruct (ltb (key y) (key x)); [|done].
  rewrite IH. apply Permutation_swap.
Qed.

Lemma sorted_perm l : sorted ltb key l ≡ₚ l.
Proof.
  induction l as [|x l IH]; simpl; [done|].
  by rewrite insert_stable_perm, IH.
Qed.

Lemma sorted_reverse_perm l : sorted_reverse ltb key l ≡ₚ l.
Proof.
  unfold sorted_reverse.
  by rewrite <- Permutation_rev, sorted_perm, <- Permutation_rev.
Qed.

Lemma insert_stable_sorted pos x l :
  StronglySorted (before pos) l -> Forall (pos x) l ->
  StronglySorted (before pos) (insert_stable ltb key x l).
Proof.
  induction l as [|y l IH]; intros Hs Hx; simpl.
  - repeat constructor.
  - apply StronglySorted_cons in Hs as [Hy Hs].
    apply Forall_cons in Hx as [Hxy Hx].
    destruct (ltb (key y) (key x)) eqn:Hyx.
    + apply StronglySorted_cons. split; [|by apply IH].
      rewrite insert_stable_perm. constructor; [by left | done].
    + apply StronglySorted_cons. split; [|by apply StronglySorted_cons].
      constructor; [by right|].
      rewrite Forall_forall in Hy, Hx |- *. intros z Hz.
      destruct (Hy z Hz) as [Hlt | [Hge _]].
      * destruct (ltb_cotrans _ (key x) _ Hlt) as [H|H]; [congruence|by left].
      * right. split; [|by apply Hx].
        destruct (ltb (key z) (key x)) eqn:Hzx; [|done].
        destruct (ltb_cotrans _ (key y) _ Hzx) as [H|H]; congruence.
Qed.

(** [sorted] is ascending by key, ties in input order. *)
Lemma sorted_stable pos l :
  StronglySorted pos l -> StronglySorted (before pos) (sorted ltb key l).
Proof.
  induction l as [|x l IH]; intros Hs; simpl; [constructor|].
  apply StronglySorted_cons in Hs as [Hx Hs].
  apply insert_stable_sorted; [by apply IH|]. by rewrite sorted_perm.
Qed.

Lemma StronglySorted_rev (R : A -> A -> Prop) l :
  StronglySorted R l -> StronglySorted (flip R) (rev l).
Proof.
  induction l as [|x l IH]; intros Hs; simpl; [constructor|].
  apply StronglySorted_cons in Hs as [Hx Hs].
  apply StronglySorted_app. split; [|split].
  - intros a b Ha Hb. apply list_elem_of_singleton in Hb as ->.
    rewrite Forall_forall in Hx. apply Hx.
    apply list_elem_of_In, in_rev, list_elem_of_In, Ha.
  - by apply IH.
  - repeat constructor.
Qed.

(** [x] is placed before [y] by a descending sort: its key is larger,
    or the keys tie and [x] precedes [y] in the input. *)
Definition before_desc (pos : A -> A -> Prop) (x y : A) : Prop :=
  ltb (key y) (key x) = true \/ (ltb (key x) (key y) = false /\ pos x y).

(** [sorted_reverse] is descending by key, ties still in input order. *)
Lemma sorted_reverse_stable pos l :
  StronglySorted pos l ->
  StronglySorted (before_desc pos) (sorted_reverse ltb key l).
Proof.
  intros Hs. unfold sorted_reverse.
  apply StronglySorted_rev in Hs. apply sorted_stable in Hs.
  apply StronglySorted_rev in Hs. exact Hs.
Qed.
End SortedFacts.

Lemma lex_cmp_cotrans a : forall b c,
  datetime.lex_cmp a c = Lt ->
  datetime.lex_cmp a b = Lt \/ datetime.lex_cmp b c = Lt.
Proof.
  induction a as [|x a IH]; intros [|y b] [|z c]; simpl; try (by auto).
  destruct (Z.compare_spec x z) as [Hxz|Hxz|Hxz]; try done;
    destruct (Z.compare_spec x y) as [Hxy|Hxy|Hxy];
    destruct (Z.compare_spec y z) as [Hyz|Hyz|Hyz];
    try lia; auto.
Qed.

Lemma datetime_ltb_cotrans a b c :
  datetime.ltb a c = true -> datetime.ltb a b = true \/ datetime.ltb b c = true.
Proof.
  unfold datetime.ltb, datetime.cmp. intros H.
  destruct (datetime.lex_cmp (datetime.fields a) (datetime.fields c)) eqn:E;
    try done.
  destruct (lex_cmp_cotrans _ (datetime.fields b) _ E) as [-> | ->]; auto.
Qed.

(** *** Comparison of decimals *)

Lemma pow10_pos k : 0 < 10 ^ k \/ (k < 0 /\ 10 ^ k = 0).
Proof.
  destruct (Z.le_gt_cases 0 k).
  - left. by apply Z.pow_pos_nonneg.
  - right. split; [done|]. by apply Z.pow_neg_r.
Qed.

Lemma pow10_gt0 k : 0 <= k -> 0 < 10 ^ k.
Proof. intros. by apply Z.pow_pos_nonneg. Qed.

Lemma compare_mul_pos x y p : 0 < p -> (x * p ?= y * p) = (x ?= y).
Proof.
  intros Hp. destruct (Z.compare_spec x y);
    [apply Z.compare_eq_iff | apply Z.compare_lt_iff | apply Z.compare_gt_iff]; nia.
Qed.

(** The comparison may be carried out at any exponent below both. *)
Lemma dec_cmp_scale a b k :
  k <= dexp a -> k <= dexp b ->
  dec_cmp a b = (dcoeff a * 10 ^ (dexp a - k) ?= dcoeff b * 10 ^ (dexp b - k)).
Proof.
  intros Ha Hb. unfold dec_cmp.
  set (m := Z.min (dexp a) (dexp b)).
  assert (Hm : k <= m) by (subst m; lia).
  replace (dexp a - k) with ((dexp a - m) + (m - k)) by lia.
  replace (dexp b - k) with ((dexp b - m) + (m - k)) by lia.
  rewrite !Z.pow_add_r by (subst m; lia).
  rewrite !Z.mul_assoc.
  symmetry. apply compare_mul_pos. apply pow10_gt0. lia.
Qed.

Lemma dec_ltb_cotrans a b c :
  dec_ltb a c = true -> dec_ltb a b = true \/ dec_ltb b c = true.
Proof.
  unfold dec_ltb.
  set (k := Z.min (dexp a) (Z.min (dexp b) (dexp c))).
  rewrite (dec_cmp_scale a c k), (dec_cmp_scale a b k), (dec_cmp_scale b c k)
    by (subst k; lia).
  destruct (Z.compare_spec (dcoeff a * 10 ^ (dexp a - k))
              (dcoeff c * 10 ^ (dexp c - k))); try done.
  intros _.
  destruct (Z.compare_spec (dcoeff a * 10 ^ (dexp a - k))
              (dcoeff b * 10 ^ (dexp b - k))); auto;
  destruct (Z.compare_spec (dcoeff b * 10 ^ (dexp b - k))
              (dcoeff c * 10 ^ (dexp c - k))); auto; lia.
Qed.

(** Comparisons with zero only look at the sign of the coefficient. *)
Lemma dec_cmp_0_r a : dec_cmp a 0 = (dcoeff a ?= 0).
Proof.
  unfold dec_cmp. simpl.
  assert (0 < 10 ^ (dexp a - Z.min (dexp a) 0)) by (apply pow10_gt0; lia).
  destruct (Z.compare_spec (dcoeff a) 0);
    [apply Z.compare_eq_iff | apply Z.compare_lt_iff | apply Z.compare_gt_iff]; nia.
Qed.

Lemma dec_cmp_antisym a b : dec_cmp b a = CompOpp (dec_cmp a b).
Proof.
  unfold dec_cmp. rewrite (Z.min_comm (dexp b)). apply Z.compare_antisym.
Qed.

Lemma dec_cmp_0_l a : dec_cmp 0 a = (0 ?= dcoeff a).
Proof.
  rewrite dec_cmp_antisym, dec_cmp_0_r. symmetry. apply Z.compare_antisym.
Qed.

Lemma dec_leb_0 a : dec_leb a 0 = (dcoeff a <=? 0).
Proof.
  unfold dec_leb. rewrite dec_cmp_0_r. unfold Z.leb. by destruct (dcoeff a ?= 0).
Qed.

Lemma dec_ltb_0 a : dec_ltb 0 a = (0 <? dcoeff a).
Proof.
  unfold dec_ltb. rewrite dec_cmp_0_l. unfold Z.ltb. by destruct (0 ?= dcoeff a).
Qed.


(** *** Lot references *)

Definition idx_lt (x y : lot_ref) : Prop := (x.1 < y.1)%nat.
Definition date_key (l : lot_ref) : datetime.t := TaxLot.acquired_date l.2.
Definition unit_cost_key (l : lot_ref) : Decimal := TaxLot.unit_cost l.2.

(** A lot that the loop does not skip. *)
Definition is_open (l : lot_ref) : bool := negb (dec_leb (TaxLot.amount l.2) 0).

Lemma refs_from_sorted (l : list TaxLot.t) : forall n,
  StronglySorted idx_lt (zip (seq n (length l)) l) /\
  Forall (fun r => (n <= r.1)%nat) (zip (seq n (length l)) l).
Proof.
  induction l as [|x l IH]; intros n; simpl; [split; constructor|].
  destruct (IH (S n)) as [Hs Hf]. split.
  - constructor; [done|].
    eapply Forall_impl; [exact Hf|]. intros r Hr. unfold idx_lt. simpl in *. lia.
  - constructor; [simpl; lia|].
    eapply Forall_impl; [exact Hf|]. intros r Hr. simpl in *. lia.
Qed.

Lemma refs_sorted (l : list TaxLot.t) : StronglySorted idx_lt (refs l).
Proof. apply refs_from_sorted. Qed.

Lemma refs_lookup (l : list TaxLot.t) r : r ∈ refs l -> l !! r.1 = Some r.2.
Proof.
  unfold refs. intros Hr.
  apply list_elem_of_lookup in Hr as [i Hi].
  apply lookup_zip_with_Some in Hi as (a & b & -> & Ha & Hb).
  apply lookup_seq in Ha as [-> _]. simpl. exact Hb.
Qed.

Lemma sort_lots_perm self (l : list lot_ref) price : _sort_lots self l price ≡ₚ l.
Proof.
  unfold _sort_lots.
  repeat match goal with
         | |- context [if ?b then _ else _] => destruct b
         end;
    auto using sorted_perm, sorted_reverse_perm.
Qed.

Section LoopOrder.
Variables (asset : string) (amount proceeds_usd : Decimal)
          (disposed_date : datetime.t) (tx_hash protocol event_type : string).

Abbreviation match_lot' :=
  (match_lot asset amount proceeds_usd disposed_date tx_hash protocol event_type).
Abbreviation match_loop' :=
  (match_loop asset amount proceeds_usd disposed_date tx_hash protocol event_type).

(** The event at a position of the result is the one built for the lot
    at the same position of the lots visited. *)
Definition built_from (r : lot_ref) (e : TaxEvent.t) : Prop :=
  exists remaining, e = (match_lot' remaining r.2).2.

(** The events of the loop are built, one each and in order, from a
    prefix of the open lots of [order]. *)
Lemma match_loop_follows_order (order : list lot_ref) :
  forall remaining store,
    NoDup (map fst order) ->
    (forall r, r ∈ order -> store !! r.1 = Some r.2) ->
    exists visited,
      visited `prefix_of` List.filter is_open order /\
      Forall2 built_from visited
        (match_loop' (map fst order) remaining store []).1.2.
Proof.
  induction order as [|[i lot] rest IH]; intros remaining store Hnd Hst; simpl.
  - exists []. split; [done | constructor].
  - apply NoDup_cons in Hnd as [Hi Hnd].
    destruct (dec_leb remaining 0) eqn:Hr.
    { exists []. split; [apply prefix_nil | constructor]. }
    assert (Hl : store !! i = Some lot) by (apply (Hst (i, lot)); left).
    rewrite Hl. simpl.
    unfold is_open at 1. simpl.
    destruct (dec_leb (TaxLot.amount lot) 0) eqn:Ha; simpl.
    { apply IH; [done|]. intros r Hr'. apply Hst. by right. }
    rewrite match_loop_events_app. simpl.
    match goal with
    | |- context [match_loop' _ ?r' ?s' []] =>
        destruct (IH r' s' Hnd) as (visited & Hpre & Hall)
    end.
    { intros r Hr'. rewrite list_lookup_insert_ne; [apply Hst; by right|].
      intros ->. apply Hi. apply list_elem_of_fmap. by exists r. }
    exists ((i, lot) :: visited). split; [by apply prefix_cons|].
    constructor; [|exact Hall]. by exists remaining.
Qed.
End LoopOrder.

Lemma sort_lots_NoDup self (l : list TaxLot.t) price :
  NoDup (map fst (_sort_lots self (refs l) price)).
Proof.
  rewrite (sort_lots_perm self (refs l) price), refs_fst. apply NoDup_seq.
Qed.

Lemma sort_lots_lookup self (l : list TaxLot.t) price r :
  r ∈ _sort_lots self (refs l) price -> l !! r.1 = Some r.2.
Proof. rewrite sort_lots_perm. apply refs_lookup. Qed.

(** C4 (counterexample). Under LIFO two lots acquired at the same instant
    are consumed first-inserted first (cost basis 50, not 100); under HIFO
    two lots of equal unit cost are consumed first-inserted first although
    the second one is older. *)
Lemma ties_follow_insertion_order :
  (let e0 := __init__ "LIFO" in
   let e1 := (add_acquisition e0 "UNI" 10 50 Scenario.jan1 "0xa1" "uniswap").2 in
   let e2 := (add_acquisition e1 "UNI" 10 100 Scenario.jan1 "0xa2" "uniswap").2 in
   map TaxEvent.cost_basis_usd
     (add_disposal "UNI" 10 300 Scenario.jul1 "0xd1" "uniswap" "swap" e2).1
   = [dec_of_Z 50]) /\
  (let e0 := __init__ "HIFO" in
   let e1 := (add_acquisition e0 "UNI" 10 100 Scenario.jun1 "0xa1" "uniswap").2 in
   let e2 := (add_acquisition e1 "UNI" 10 100 Scenario.jan1 "0xa2" "uniswap").2 in
   map TaxEvent.acquired_date
     (add_disposal "UNI" 10 300 Scenario.jul1 "0xd1" "uniswap" "swap" e2).1
   = [Scenario.jun1]).
Proof. split; vm_compute; reflexivity. Qed.

(** C4 (amended). For a disposal of an asset that has lots, the lots are
    visited in the order of [_sort_lots], a permutation of the asset's
    lots: under FIFO by ascending acquisition date, under LIFO by
    descending acquisition date, under HIFO by descending unit cost (the
    28-digit quotient [cost_basis_usd / amount], 0 for an empty lot); under
    each method lots with equal keys stay in insertion order.  The events
    returned are built, one each and in that order, from a prefix of the
    lots of that sequence whose amount is positive. *)
Theorem lots_consumed_in_sorted_order asset amount proceeds_usd disposed_date
    tx_hash protocol event_type self :
  lots_get self asset <> [] ->
  let order :=
    _sort_lots self (refs (lots_get self asset))
      (if dec_ltb 0 amount then dec_div proceeds_usd amount else 0) in
  order ≡ₚ refs (lots_get self asset) /\
  (method self = "FIFO" ->
   StronglySorted (before datetime.ltb date_key idx_lt) order) /\
  (method self = "LIFO" ->
   StronglySorted (before_desc datetime.ltb date_key idx_lt) order) /\
  (method self = "HIFO" ->
   StronglySorted (before_desc dec_ltb unit_cost_key idx_lt) order) /\
  exists visited,
    visited `prefix_of` List.filter is_open order /\
    Forall2 (built_from asset amount proceeds_usd disposed_date tx_hash
               protocol event_type)
      visited
      (add_disposal asset amount proceeds_usd disposed_date tx_hash protocol
         event_type self).1.
Proof.
  intros Hlots order.
  split; [apply sort_lots_perm|].
  split.
  { intros Hm. subst order. unfold _sort_lots. rewrite Hm. simpl.
    apply (sorted_stable datetime.ltb date_key datetime_ltb_cotrans).
    apply refs_sorted. }
  split.
  { intros Hm. subst order. unfold _sort_lots. rewrite Hm. simpl.
    apply (sorted_reverse_stable datetime.ltb date_key datetime_ltb_cotrans).
    apply refs_sorted. }
  split.
  { intros Hm. subst order. unfold _sort_lots. rewrite Hm. simpl.
    apply (sorted_reverse_stable dec_ltb unit_cost_key dec_ltb_cotrans).
    apply refs_sorted. }
  destruct (match_loop_follows_order asset amount proceeds_usd disposed_date
              tx_hash protocol event_type order amount (lots_get self asset))
    as (visited & Hpre & Hall).
  { apply sort_lots_NoDup. }
  { intros r. apply sort_lots_lookup. }
  exists visited. split; [exact Hpre|].
  unfold add_disposal. destruct (lots_get self asset) as [|l0 ls] eqn:E; [done|].
  fold order.
  destruct (match_loop _ _ _ _ _ _ _ (map fst order) amount (l0 :: ls) [])
    as [[st evs] rem].
  exact Hall.
Qed.

Lemma lots_consumed_in_sorted_order_witness :
  lots_get Scenario.two_lots "UNI" <> [] /\
  exists visited,
    visited `prefix_of`
      List.filter is_open
        (_sort_lots Scenario.two_lots (refs (lots_get Scenario.two_lots "UNI"))
           (if dec_ltb 0 15 then dec_div 300 15 else 0)) /\
    Forall2 (built_from "UNI" 15 300 Scenario.jul1 "0xd1" "uniswap" "swap")
      visited Scenario.sell_15.1.
Proof.
  assert (H : lots_get Scenario.two_lots "UNI" <> [])
    by (vm_compute; discriminate).
  split; [exact H|].
  apply (lots_consumed_in_sorted_order "UNI" 15 300 Scenario.jul1 "0xd1"
           "uniswap" "swap" Scenario.two_lots H).
Defined.

(** ** Decimal arithmetic: digits and rounding *)

Lemma ndigits_fuel_pos f n : 1 <= ndigits_fuel f n.
Proof.
  revert n. induction f as [|f IH]; intros n; simpl; [lia|].
  destruct (n <? 10); [lia|]. specialize (IH (n / 10)). lia.
Qed.

Lemma ndigits_fuel_spec f : forall n,
  0 < n -> n < 10 * 2 ^ Z.of_nat f ->
  10 ^ (ndigits_fuel f n - 1) <= n < 10 ^ ndigits_fuel f n.
Proof.
  induction f as [|f IH]; intros n Hpos Hlt.
  - simpl in *. lia.
  - simpl ndigits_fuel. destruct (Z.ltb_spec n 10) as [H10|H10].
    + simpl. lia.
    + assert (Hq : 0 < n / 10) by (apply Z.div_str_pos; lia).
      assert (Hq2 : n / 10 < 10 * 2 ^ Z.of_nat f).
      { rewrite Nat2Z.inj_succ, Z.pow_succ_r in Hlt by lia.
        apply Z.div_lt_upper_bound; lia. }
      specialize (IH _ Hq Hq2).
      pose proof (ndigits_fuel_pos f (n / 10)) as Hm.
      set (m := ndigits_fuel f (n / 10)) in *.
      replace (1 + m - 1) with (Z.succ (m - 1)) by lia.
      replace (1 + m) with (Z.succ m) by lia.
      rewrite !Z.pow_succ_r by lia.
      pose proof (Z.div_mod n 10 ltac:(lia)) as Hdm.
      pose proof (Z.mod_pos_bound n 10 ltac:(lia)).
      lia.
Qed.

Lemma ndigits_spec n : 0 < n -> 10 ^ (ndigits n - 1) <= n < 10 ^ ndigits n.
Proof.
  intros Hn. apply ndigits_fuel_spec; [done|].
  rewrite Z2Nat.id by apply Z.log2_nonneg.
  pose proof (Z.log2_spec n Hn) as [_ H].
  rewrite Z.pow_succ_r in H by apply Z.log2_nonneg. lia.
Qed.

Lemma ndigits_pos n : 1 <= ndigits n.
Proof. apply ndigits_fuel_pos. Qed.

Lemma ndigits_unique n a : 1 <= a -> 10 ^ (a - 1) <= n < 10 ^ a -> ndigits n = a.
Proof.
  intros Ha [Hlo Hhi].
  assert (Hn : 0 < n).
  { assert (0 < 10 ^ (a - 1)) by (apply Z.pow_pos_nonneg; lia). lia. }
  pose proof (ndigits_spec n Hn) as [Hlo' Hhi'].
  pose proof (ndigits_pos n) as Hp.
  destruct (Z.lt_trichotomy (ndigits n) a) as [H|[H|H]]; [|done|].
  - assert (10 ^ ndigits n <= 10 ^ (a - 1)) by (apply Z.pow_le_mono_r; lia). lia.
  - assert (10 ^ a <= 10 ^ (ndigits n - 1)) by (apply Z.pow_le_mono_r; lia). lia.
Qed.

Lemma ndigits_mul_pow10 c n : 0 < c -> 0 <= n -> ndigits (c * 10 ^ n) = ndigits c + n.
Proof.
  intros Hc Hn. pose proof (ndigits_spec c Hc) as [Hlo Hhi].
  pose proof (ndigits_pos c).
  apply ndigits_unique; [lia|].
  replace (ndigits c + n - 1) with ((ndigits c - 1) + n) by lia.
  rewrite !Z.pow_add_r by lia.
  assert (0 < 10 ^ n) by (apply Z.pow_pos_nonneg; lia). nia.
Qed.

Lemma ndigits_le_iff c p : 0 <= c -> 1 <= p -> (ndigits c <= p <-> c < 10 ^ p).
Proof.
  intros Hc Hp. destruct (Z.eq_dec c 0) as [->|Hne].
  - change (ndigits 0) with 1. split; [intros _; apply Z.pow_pos_nonneg; lia | lia].
  - pose proof (ndigits_spec c ltac:(lia)) as [Hlo Hhi]. pose proof (ndigits_pos c).
    split; intros H'.
    + assert (10 ^ ndigits c <= 10 ^ p) by (apply Z.pow_le_mono_r; lia). lia.
    + destruct (Z.le_gt_cases (ndigits c) p); [done|].
      assert (10 ^ p <= 10 ^ (ndigits c - 1)) by (apply Z.pow_le_mono_r; lia). lia.
Qed.

(** The value of [d] in units of [10^k], for [k <= dexp d]. *)
Definition units (k : Z) (d : Decimal) : Z := dcoeff d * 10 ^ (dexp d - k).

Lemma dec_cmp_units a b k :
  k <= dexp a -> k <= dexp b -> dec_cmp a b = (units k a ?= units k b).
Proof. apply dec_cmp_scale. Qed.

Lemma pow10_split a b : 0 <= a -> 0 <= b -> 10 ^ (a + b) = 10 ^ a * 10 ^ b.
Proof. intros. by apply Z.pow_add_r. Qed.

Lemma units_shift k k' d :
  k <= k' -> k' <= dexp d -> units k d = units k' d * 10 ^ (k' - k).
Proof.
  intros H1 H2. unfold units.
  replace (dexp d - k) with ((dexp d - k') + (k' - k)) by lia.
  rewrite Z.pow_add_r by lia. ring.
Qed.

(** *** [round_half_even] *)

Lemma round_half_even_spec c k :
  0 <= c -> 1 <= k ->
  round_half_even c k = c / 10 ^ k \/
  (round_half_even c k = c / 10 ^ k + 1 /\ 0 < c mod 10 ^ k).
Proof.
  intros Hc Hk. unfold round_half_even.
  assert (Hh : 0 < 5 * 10 ^ (k - 1)).
  { assert (0 < 10 ^ (k - 1)) by (apply Z.pow_pos_nonneg; lia). lia. }
  destruct ((5 * 10 ^ (k - 1) <? c mod 10 ^ k)
            || (c mod 10 ^ k =? 5 * 10 ^ (k - 1)) && Z.odd (c / 10 ^ k)) eqn:E;
    [right | by left].
  split; [done|].
  apply orb_true_iff in E as [E|E].
  - apply Z.ltb_lt in E. lia.
  - apply andb_true_iff in E as [E _]. apply Z.eqb_eq in E. lia.
Qed.

(** Dropping the digits beyond the precision leaves 28 digits. *)
Lemma kept_digits c :
  0 < c -> prec < ndigits c ->
  10 ^ 27 <= c / 10 ^ (ndigits c - prec) < 10 ^ 28.
Proof.
  intros Hc Hn. unfold prec in *.
  pose proof (ndigits_spec c Hc) as [Hlo Hhi].
  set (k := ndigits c - 28) in *.
  assert (Hk : 0 < 10 ^ k) by (apply Z.pow_pos_nonneg; lia).
  replace (ndigits c - 1) with (27 + k) in Hlo by lia.
  replace (ndigits c) with (28 + k) in Hhi by lia.
  rewrite Z.pow_add_r in Hlo, Hhi by lia.
  split.
  - apply Z.div_le_lower_bound; lia.
  - apply Z.div_lt_upper_bound; lia.
Qed.

(** What [dec_fix] does to a coefficient of more than 28 digits: the
    result, in units of the exponent of the last kept digit, is the kept
    coefficient or its successor. *)
Lemma dec_fix_round d :
  prec < ndigits (Z.abs (dcoeff d)) ->
  let k := ndigits (Z.abs (dcoeff d)) - prec in
  let q0 := Z.abs (dcoeff d) / 10 ^ k in
  exists q,
    (q = q0 \/ (q = q0 + 1 /\ 0 < Z.abs (dcoeff d) mod 10 ^ k)) /\
    dexp d + k <= dexp (dec_fix d) /\
    units (dexp d + k) (dec_fix d) = Z.sgn (dcoeff d) * q /\
    Z.abs (dcoeff (dec_fix d)) < 10 ^ 28.
Proof.
  intros Hn k q0.
  assert (Ha : 0 < Z.abs (dcoeff d)).
  { destruct (Z.eq_dec (Z.abs (dcoeff d)) 0) as [E|E]; [|lia].
    rewrite E in Hn. change (ndigits 0) with 1 in Hn. unfold prec in Hn. lia. }
  pose proof (kept_digits _ Ha Hn) as Hq0. fold k in Hq0. fold q0 in Hq0.
  assert (Hk : 1 <= k) by (subst k; lia).
  unfold dec_fix. fold k.
  destruct (Z.eqb_spec (Z.abs (dcoeff d)) 0) as [E|_]; [lia|].
  destruct (Z.leb_spec k 0) as [E|_]; [lia|]. simpl orb. cbv iota.
  set (q := round_half_even (Z.abs (dcoeff d)) k).
  assert (Hq : q = q0 \/ (q = q0 + 1 /\ 0 < Z.abs (dcoeff d) mod 10 ^ k)).
  { apply round_half_even_spec; lia. }
  exists q. split; [exact Hq|].
  assert (Hs : Z.abs (Z.sgn (dcoeff d)) = 1) by lia.
  destruct (Z.ltb_spec prec (ndigits q)) as [Hbig|Hsmall]; unfold units; simpl.
  - (* the coefficient was all nines *)
    assert (Hq28 : q = 10 ^ 28).
    { assert (10 ^ 28 <= q); [|lia].
      destruct (Z.le_gt_cases (10 ^ 28) q); [done|].
      assert (ndigits q <= 28); [|unfold prec in Hbig; lia].
      apply ndigits_le_iff; lia. }
    rewrite Hq28. change (10 ^ 28 / 10) with (10 ^ 27).
    split; [lia|]. split.
    + replace (dexp d + k + 1 - (dexp d + k)) with 1 by lia.
      change (10 ^ 28) with (10 ^ 27 * 10 ^ 1). ring.
    + rewrite Z.abs_mul, Hs. simpl. lia.
  - split; [lia|]. split.
    + replace (dexp d + k - (dexp d + k)) with 0 by lia. simpl. ring.
    + rewrite Z.abs_mul, Hs.
      assert (0 <= q) by lia. rewrite (Z.abs_eq q) by done.
      assert (Hq28 : q < 10 ^ prec) by (apply ndigits_le_iff; unfold prec in *; lia).
      unfold prec in Hq28. lia.
Qed.

Lemma dec_fix_id d : ndigits (Z.abs (dcoeff d)) <= prec -> dec_fix d = d.
Proof.
  intros H. unfold dec_fix.
  destruct (Z.leb_spec (ndigits (Z.abs (dcoeff d)) - prec) 0); [|lia].
  by rewrite orb_true_r.
Qed.

Lemma dec_fix_digits d : Z.abs (dcoeff (dec_fix d)) < 10 ^ 28.
Proof.
  destruct (Z.le_gt_cases (ndigits (Z.abs (dcoeff d))) prec) as [H|H].
  - rewrite dec_fix_id by done. apply ndigits_le_iff in H; unfold prec in *; lia.
  - by destruct (dec_fix_round d H) as (q & _ & _ & _ & Hd).
Qed.

Lemma dec_fix_sgn d : Z.sgn (dcoeff (dec_fix d)) = Z.sgn (dcoeff d).
Proof.
  destruct (Z.le_gt_cases (ndigits (Z.abs (dcoeff d))) prec) as [H|H].
  - by rewrite dec_fix_id.
  - destruct (dec_fix_round d H) as (q & Hq & He & Hu & _).
    pose proof (kept_digits (Z.abs (dcoeff d))) as Hk.
    assert (Ha : 0 < Z.abs (dcoeff d)).
    { destruct (Z.eq_dec (Z.abs (dcoeff d)) 0) as [E|E]; [|lia].
      rewrite E in H. change (ndigits 0) with 1 in H. unfold prec in H. lia. }
    specialize (Hk Ha H).
    assert (Hqpos : 0 < q) by lia.
    unfold units in Hu.
    assert (Hp : 0 < 10 ^ (dexp (dec_fix d) -
                           (dexp d + (ndigits (Z.abs (dcoeff d)) - prec))))
      by (apply Z.pow_pos_nonneg; lia).
    destruct (Z.sgn_spec (dcoeff d)) as [[? E]|[[? E]|[? E]]]; rewrite E in *;
      destruct (Z.sgn_spec (dcoeff (dec_fix d))) as [[? E']|[[? E']|[? E']]];
      rewrite E'; try done; nia.
Qed.

Lemma dec_leb_units a b k :
  k <= dexp a -> k <= dexp b -> dec_leb a b = (units k a <=? units k b).
Proof.
  intros Ha Hb. unfold dec_leb. rewrite (dec_cmp_units a b k Ha Hb).
  unfold Z.leb. by destruct (units k a ?= units k b).
Qed.

Lemma dec_ltb_units a b k :
  k <= dexp a -> k <= dexp b -> dec_ltb a b = (units k a <? units k b).
Proof.
  intros Ha Hb. unfold dec_ltb. rewrite (dec_cmp_units a b k Ha Hb).
  unfold Z.ltb. by destruct (units k a ?= units k b).
Qed.

Lemma dec_eqb_units a b k :
  k <= dexp a -> k <= dexp b -> dec_eqb a b = (units k a =? units k b).
Proof.
  intros Ha Hb. unfold dec_eqb. rewrite (dec_cmp_units a b k Ha Hb).
  destruct (Z.compare_spec (units k a) (units k b)); symmetry;
    [apply Z.eqb_eq | apply Z.eqb_neq | apply Z.eqb_neq]; lia.
Qed.

(** A value of at most 28 digits cannot lie strictly between two
    neighbours of a 28-digit grid. *)
Lemma grid_gap q0 cy E ey K :
  K <= E -> K <= ey -> 10 ^ 27 <= q0 -> Z.abs cy < 10 ^ 28 ->
  let G := 10 ^ (E - K) in
  let Y := cy * 10 ^ (ey - K) in
  (q0 * G < Y -> (q0 + 1) * G <= Y) /\ (Y < (q0 + 1) * G -> Y <= q0 * G).
Proof.
  intros HE Hey Hq Hcy G Y.
  destruct (Z.le_gt_cases E ey) as [Hc|Hc].
  - (* the value lies on the grid *)
    assert (HG : 0 < G) by (apply Z.pow_pos_nonneg; lia).
    assert (HY : Y = cy * 10 ^ (ey - E) * G).
    { subst Y G. replace (ey - K) with ((ey - E) + (E - K)) by lia.
      rewrite Z.pow_add_r by lia. ring. }
    rewrite HY. set (m := cy * 10 ^ (ey - E)). split; intros H.
    + assert (q0 < m) by nia. nia.
    + assert (m < q0 + 1) by nia. nia.
  - (* the grid is coarser than the value's last digit *)
    set (S := 10 ^ (ey - K)). set (T := 10 ^ (E - ey)).
    assert (HS : 0 < S) by (apply Z.pow_pos_nonneg; lia).
    assert (HT : 10 <= T).
    { subst T. change 10 with (10 ^ 1) at 1. apply Z.pow_le_mono_r; lia. }
    assert (HGT : G = T * S).
    { subst G T S. rewrite <- Z.pow_add_r by lia. f_equal. lia. }
    assert (Hb : 10 ^ 28 <= q0 * T).
    { change (10 ^ 28) with (10 ^ 27 * 10). nia. }
    subst Y. fold S. rewrite HGT. split; intros H.
    + assert (q0 * T < cy) by nia. lia.
    + assert (cy <= q0 * T) by lia. nia.
Qed.

Lemma dec_fix_mono x y :
  0 <= dcoeff x -> Z.abs (dcoeff y) < 10 ^ 28 ->
  (dec_leb x y = true -> dec_leb (dec_fix x) y = true) /\
  (dec_leb y x = true -> dec_leb y (dec_fix x) = true).
Proof.
  intros Hx Hy.
  destruct (Z.le_gt_cases (ndigits (Z.abs (dcoeff x))) prec) as [Hn|Hn].
  { by rewrite dec_fix_id. }
  destruct (dec_fix_round x Hn) as (q & Hq & HE & Hu & _).
  assert (Ha : 0 < dcoeff x).
  { destruct (Z.eq_dec (dcoeff x) 0) as [E|E]; [|lia].
    rewrite E in Hn. change (ndigits (Z.abs 0)) with 1 in Hn.
    unfold prec in Hn. lia. }
  rewrite (Z.abs_eq (dcoeff x)) in * by lia.
  rewrite (Z.sgn_pos (dcoeff x)) in Hu by done.
  pose proof (kept_digits _ Ha Hn) as Hq0.
  set (k := ndigits (dcoeff x) - prec) in *.
  set (q0 := dcoeff x / 10 ^ k) in *.
  assert (Hk : 1 <= k) by (subst k; lia).
  set (K := Z.min (dexp x) (dexp y)).
  rewrite (dec_leb_units x y K), (dec_leb_units (dec_fix x) y K),
    (dec_leb_units y x K), (dec_leb_units y (dec_fix x) K) by (subst K; lia).
  rewrite (units_shift K (dexp x + k) (dec_fix x)) by (subst K; lia).
  rewrite Hu, Z.mul_1_l.
  set (E := dexp x + k) in *. set (G := 10 ^ (E - K)).
  assert (HG : 0 < G) by (apply Z.pow_pos_nonneg; subst E K; lia).
  assert (HX : units K x = q0 * G + (dcoeff x mod 10 ^ k) * 10 ^ (dexp x - K)).
  { unfold units. subst G E.
    replace (dexp x + k - K) with (k + (dexp x - K)) by lia.
    rewrite Z.pow_add_r by (subst K; lia).
    rewrite (Z.div_mod (dcoeff x) (10 ^ k)) at 1
      by (apply Z.pow_nonzero; lia).
    fold q0. ring. }
  assert (Hr : 0 <= dcoeff x mod 10 ^ k < 10 ^ k)
    by (apply Z.mod_pos_bound, Z.pow_pos_nonneg; lia).
  assert (HS : 0 < 10 ^ (dexp x - K)) by (apply Z.pow_pos_nonneg; subst K; lia).
  assert (HGk : G = 10 ^ k * 10 ^ (dexp x - K)).
  { subst G E. rewrite <- Z.pow_add_r by (subst K; lia). f_equal. lia. }
  destruct (grid_gap q0 (dcoeff y) E (dexp y) K) as [Hup Hdown];
    [subst E K; lia | subst K; lia | lia | done |].
  fold G in Hup, Hdown. fold (units K y) in Hup, Hdown.
  rewrite !Z.leb_le. rewrite HX.
  set (R := dcoeff x mod 10 ^ k * 10 ^ (dexp x - K)) in *.
  assert (HR : 0 <= R < G) by (subst R; nia).
  destruct Hq as [-> | [-> Hrpos]]; split; intros H.
  - lia.
  - apply Hdown. lia.
  - apply Hup. assert (0 < R) by (subst R; nia). lia.
  - lia.
Qed.

(** *** Subtraction *)

Lemma dec_sub_sgn a b :
  Z.sgn (dcoeff (dec_sub a b))
  = match dec_cmp a b with Eq => 0 | Lt => -1 | Gt => 1 end.
Proof.
  unfold dec_sub, dec_add. rewrite dec_fix_sgn. unfold dec_cmp. simpl.
  set (m := Z.min (dexp a) (dexp b)).
  set (x := dcoeff a * 10 ^ (dexp a - m)). set (y := dcoeff b * 10 ^ (dexp b - m)).
  replace (- dcoeff b * 10 ^ (dexp b - m)) with (- y) by (subst y; ring).
  destruct (Z.compare_spec x y).
  - replace (x + - y) with 0 by lia. done.
  - apply Z.sgn_neg. lia.
  - apply Z.sgn_pos. lia.
Qed.

Lemma dec_sub_nonneg a b : dec_leb b a = true -> 0 <= dcoeff (dec_sub a b).
Proof.
  intros H. apply Z.sgn_nonneg. rewrite dec_sub_sgn.
  unfold dec_leb in H. rewrite dec_cmp_antisym in H.
  destruct (dec_cmp a b); simpl in *; try done; lia.
Qed.

Lemma dec_sub_zero a b : dcoeff (dec_sub a b) = 0 <-> dec_eqb a b = true.
Proof.
  rewrite <- Z.sgn_null_iff, dec_sub_sgn. unfold dec_eqb.
  destruct (dec_cmp a b); split; try done; lia.
Qed.

(** On a grid that holds the operands and their difference in 28 digits,
    subtraction is exact. *)
Lemma dec_sub_exact k a b :
  k <= dexp a -> k <= dexp b ->
  Z.abs (units k a - units k b) < 10 ^ 28 ->
  k <= dexp (dec_sub a b) /\ units k (dec_sub a b) = units k a - units k b.
Proof.
  intros Ha Hb Hfit. unfold dec_sub, dec_add. simpl.
  set (m := Z.min (dexp a) (dexp b)).
  set (c := dcoeff a * 10 ^ (dexp a - m) + - dcoeff b * 10 ^ (dexp b - m)).
  assert (Hc : c * 10 ^ (m - k) = units k a - units k b).
  { subst c. unfold units.
    replace (dexp a - k) with ((dexp a - m) + (m - k)) by lia.
    replace (dexp b - k) with ((dexp b - m) + (m - k)) by lia.
    rewrite !Z.pow_add_r by (subst m; lia). ring. }
  assert (Hp : 0 < 10 ^ (m - k)) by (apply Z.pow_pos_nonneg; subst m; lia).
  assert (Hd : Z.abs c < 10 ^ 28).
  { rewrite <- Hc, Z.abs_mul, (Z.abs_eq (10 ^ (m - k))) in Hfit by lia. nia. }
  rewrite dec_fix_id.
  - simpl. split; [subst m; lia|]. unfold units. simpl. exact Hc.
  - simpl. apply ndigits_le_iff; unfold prec; lia.
Qed.

(** *** Division *)

Lemma strip_zeros_spec fuel : forall q e,
  e <= (strip_zeros fuel q e).2 /\
  (strip_zeros fuel q e).1 * 10 ^ ((strip_zeros fuel q e).2 - e) = q.
Proof.
  induction fuel as [|f IH]; intros q e; simpl.
  - rewrite Z.sub_diag. simpl. lia.
  - destruct (Z.eqb_spec (q mod 10) 0) as [Hm|Hm]; simpl.
    + destruct (IH (q / 10) (e + 1)) as [He Hq]. split; [lia|].
      replace ((strip_zeros f (q / 10) (e + 1)).2 - e)
        with (((strip_zeros f (q / 10) (e + 1)).2 - (e + 1)) + 1) by lia.
      rewrite Z.pow_add_r by lia. rewrite Z.mul_assoc, Hq.
      pose proof (Z.div_mod q 10 ltac:(lia)). change (10 ^ 1) with 10. lia.
    + rewrite Z.sub_diag. simpl. lia.
Qed.

(** Digits and exponents of two positive decimals in order. *)
Lemma digits_le_of_le d a :
  0 < dcoeff d -> 0 < dcoeff a -> dec_leb d a = true ->
  ndigits (dcoeff d) + dexp d <= ndigits (dcoeff a) + dexp a.
Proof.
  intros Hd Ha Hle.
  set (K := Z.min (dexp d) (dexp a)).
  rewrite (dec_leb_units d a K) in Hle by (subst K; lia).
  apply Z.leb_le in Hle. unfold units in Hle.
  pose proof (ndigits_spec _ Hd) as [Hdl _].
  pose proof (ndigits_spec _ Ha) as [_ Hah].
  pose proof (ndigits_pos (dcoeff d)). pose proof (ndigits_pos (dcoeff a)).
  assert (H1 : 10 ^ (ndigits (dcoeff d) - 1 + (dexp d - K))
               <= dcoeff d * 10 ^ (dexp d - K)).
  { rewrite Z.pow_add_r by (subst K; lia).
    apply Z.mul_le_mono_nonneg_r; [apply Z.pow_nonneg; lia | done]. }
  assert (H2 : dcoeff a * 10 ^ (dexp a - K)
               < 10 ^ (ndigits (dcoeff a) + (dexp a - K))).
  { rewrite Z.pow_add_r by (subst K; lia).
    apply Z.mul_lt_mono_pos_r; [apply Z.pow_pos_nonneg; subst K; lia | done]. }
  assert (H3 : 10 ^ (ndigits (dcoeff d) - 1 + (dexp d - K))
               < 10 ^ (ndigits (dcoeff a) + (dexp a - K))) by lia.
  apply Z.pow_lt_mono_r_iff in H3; subst K; lia.
Qed.

(** The scaled operands of [__truediv__], when the dividend has no more
    integer digits than the divisor: both are the operands' values on one
    grid, the divisor's times [10^(-e)] for the exponent [e] of the raw
    quotient. *)
Lemma div_operands d a :
  0 < dcoeff d -> 0 < dcoeff a ->
  ndigits (dcoeff d) + dexp d <= ndigits (dcoeff a) + dexp a ->
  let shift := ndigits (dcoeff a) - ndigits (dcoeff d) + prec + 1 in
  let e := dexp d - dexp a - shift in
  let num := if 0 <=? shift then dcoeff d * 10 ^ shift else dcoeff d in
  let den := if 0 <=? shift then dcoeff a else dcoeff a * 10 ^ (- shift) in
  let K := Z.min (dexp d) (dexp a) in
  e <= -29 /\ 0 < den /\
  exists t, 0 <= t /\ num = units K d * 10 ^ t /\
            den * 10 ^ (- e) = units K a * 10 ^ t.
Proof.
  intros Hd Ha Hdig shift e num den K. unfold prec in *.
  assert (He : e <= -29) by (subst e shift; lia).
  split; [exact He|].
  destruct (Z.leb_spec 0 shift) as [Hs|Hs]; subst num den.
  - split; [done|].
    destruct (Z.le_gt_cases (dexp d) (dexp a)) as [Hc|Hc].
    + exists shift. split; [done|]. unfold units.
      replace K with (dexp d) by (subst K; lia).
      rewrite Z.sub_diag, Z.mul_1_r. split; [done|].
      rewrite <- !Z.mul_assoc, <- Z.pow_add_r by lia. do 2 f_equal.
      subst e. lia.
    + exists (- e). split; [lia|]. unfold units.
      replace K with (dexp a) by (subst K; lia).
      rewrite Z.sub_diag, Z.mul_1_r. split; [|done].
      rewrite <- !Z.mul_assoc, <- Z.pow_add_r by lia. do 2 f_equal.
      subst e. lia.
  - split; [apply Z.mul_pos_pos; [done | apply Z.pow_pos_nonneg; lia]|].
    exists 0. split; [done|]. unfold units.
    replace K with (dexp d) by (subst K e; lia).
    rewrite Z.sub_diag, !Z.mul_1_r. split; [done|].
    rewrite <- !Z.mul_assoc, <- Z.pow_add_r by lia. do 2 f_equal.
    subst e. lia.
Qed.

(** A positive dividend not above a positive divisor gives a quotient
    between 0 and 1, and exactly 1 when the two are equal. *)
Lemma dec_div_le_1 d a :
  0 < dcoeff d -> 0 < dcoeff a -> dec_leb d a = true ->
  0 <= dcoeff (dec_div d a) /\
  dec_leb (dec_div d a) 1 = true /\
  (dec_leb a d = true -> dec_leb 1 (dec_div d a) = true).
Proof.
  intros Hd Ha Hle.
  pose proof (digits_le_of_le d a Hd Ha Hle) as Hdig.
  destruct (div_operands d a Hd Ha Hdig) as (He & Hden & t & Ht & Hnum & Hscale).
  unfold dec_div.
  rewrite (Z.abs_eq (dcoeff d)), (Z.abs_eq (dcoeff a)) by lia.
  rewrite (Z.sgn_pos (dcoeff d)), (Z.sgn_pos (dcoeff a)) by lia.
  destruct (Z.eqb_spec (dcoeff a) 0) as [E|_]; [lia|].
  destruct (Z.eqb_spec (dcoeff d) 0) as [E|_]; [lia|].
  set (shift := ndigits (dcoeff a) - ndigits (dcoeff d) + prec + 1) in *.
  set (e := dexp d - dexp a - shift) in *.
  set (num := if 0 <=? shift then dcoeff d * 10 ^ shift else dcoeff d) in *.
  set (den := if 0 <=? shift then dcoeff a else dcoeff a * 10 ^ (- shift)) in *.
  set (K := Z.min (dexp d) (dexp a)) in *.
  rewrite (dec_leb_units d a K) in Hle by (subst K; lia).
  apply Z.leb_le in Hle.
  assert (Hpt : 0 < 10 ^ t) by (apply Z.pow_pos_nonneg; lia).
  assert (Hpe : 0 < 10 ^ (- e)) by (apply Z.pow_pos_nonneg; lia).
  assert (Hnum_pos : 0 <= num).
  { rewrite Hnum. apply Z.mul_nonneg_nonneg; [|lia].
    unfold units. apply Z.mul_nonneg_nonneg; [lia|].
    apply Z.pow_nonneg. lia. }
  assert (K1 : num <= den * 10 ^ (- e)) by (rewrite Hnum, Hscale; nia).
  pose proof (Z.div_mod num den ltac:(lia)) as Hdm.
  pose proof (Z.mod_pos_bound num den Hden) as Hr.
  assert (Hq0 : 0 <= num / den) by (apply Z.div_pos; lia).
  set (q := num / den) in *. set (r := num mod den) in *.
  (* the raw quotient, before [_fix] *)
  set (pre := if r =? 0 then strip_zeros (Z.to_nat (dexp d - dexp a - e)) q e
              else (if q mod 5 =? 0 then q + 1 else q, e)).
  assert (Hpre : e <= pre.2 /\ 0 <= pre.1 /\
                 pre.1 * 10 ^ (pre.2 - e) <= 10 ^ (- e) /\
                 (den * 10 ^ (- e) <= num -> 10 ^ (- e) <= pre.1 * 10 ^ (pre.2 - e))).
  { subst pre. destruct (Z.eqb_spec r 0) as [Hr0|Hr0].
    - destruct (strip_zeros_spec (Z.to_nat (dexp d - dexp a - e)) q e) as [H1 H2].
      set (s := strip_zeros (Z.to_nat (dexp d - dexp a - e)) q e) in *.
      split; [done|]. rewrite H2.
      assert (0 < 10 ^ (s.2 - e)) by (apply Z.pow_pos_nonneg; lia).
      split; [nia|]. split; [nia|]. intros K2. nia.
    - simpl. rewrite Z.sub_diag, Z.mul_1_r.
      split; [lia|]. split; [destruct (q mod 5 =? 0); lia|].
      assert (q < 10 ^ (- e)) by nia.
      split; [destruct (q mod 5 =? 0); lia|]. intros K2.
      assert (num = den * 10 ^ (- e)) by lia.
      assert (r = 0); [|done].
      subst r. rewrite H0, Z.mul_comm. apply Z.mod_mul. lia. }
  destruct pre as [q' e']. simpl in Hpre.
  destruct Hpre as (He' & Hq' & Hup & Hlow).
  rewrite Z.mul_1_l.
  destruct (dec_fix_mono (mkDec q' e') 1) as [Hm1 Hm2]; [done | simpl; lia |].
  assert (Hu1 : units e (dec_of_Z 1) = 10 ^ (- e)).
  { unfold units. simpl. rewrite Z.mul_1_l. f_equal. }
  split; [|split].
  - apply Z.sgn_nonneg. rewrite dec_fix_sgn. simpl. lia.
  - apply Hm1. rewrite (dec_leb_units _ _ e) by (simpl; lia).
    apply Z.leb_le. rewrite Hu1. exact Hup.
  - intros Hge. apply Hm2. rewrite (dec_leb_units _ _ e) by (simpl; lia).
    apply Z.leb_le. rewrite Hu1. apply Hlow.
    rewrite (dec_leb_units a d K) in Hge by (subst K; lia).
    apply Z.leb_le in Hge. rewrite Hnum, Hscale. nia.
Qed.

(** *** Order facts *)

Lemma dec_leb_refl a : dec_leb a a = true.
Proof.
  rewrite (dec_leb_units a a (dexp a)) by lia. apply Z.leb_refl.
Qed.

Lemma dec_eqb_leb a b :
  dec_eqb a b = true <-> dec_leb a b = true /\ dec_leb b a = true.
Proof.
  unfold dec_eqb, dec_leb. rewrite (dec_cmp_antisym a b).
  destruct (dec_cmp a b); simpl; split; try done; intros [? ?]; done.
Qed.

Lemma dec_ltb_false_leb a b : dec_ltb a b = false -> dec_leb b a = true.
Proof.
  unfold dec_ltb, dec_leb. rewrite (dec_cmp_antisym a b).
  by destruct (dec_cmp a b).
Qed.

Lemma dec_ltb_leb a b : dec_ltb a b = true -> dec_leb a b = true.
Proof. unfold dec_ltb, dec_leb. by destruct (dec_cmp a b). Qed.

Lemma dec_eqb_sym a b : dec_eqb a b = dec_eqb b a.
Proof.
  unfold dec_eqb. rewrite (dec_cmp_antisym a b). by destruct (dec_cmp a b).
Qed.

(** [min] returns one of its arguments, not above the second. *)
Lemma py_min_spec r a :
  (py_min r a = a \/ py_min r a = r) /\ dec_leb (py_min r a) a = true /\
  dec_leb (py_min r a) r = true.
Proof.
  unfold py_min. destruct (dec_ltb a r) eqn:E.
  - split; [by left|]. split; [apply dec_leb_refl | by apply dec_ltb_leb].
  - split; [by right|]. split; [by apply dec_ltb_false_leb | apply dec_leb_refl].
Qed.

(** Every result of an operation has at most 28 digits. *)
Lemma dec_sub_digits a b : Z.abs (dcoeff (dec_sub a b)) < 10 ^ 28.
Proof. unfold dec_sub, dec_add. apply dec_fix_digits. Qed.

(** *** Multiplication by a factor between 0 and 1 *)

Lemma dec_mul_le_1 c p :
  0 <= dcoeff c < 10 ^ 28 -> 0 <= dcoeff p -> dec_leb p 1 = true ->
  0 <= dcoeff (dec_mul c p) /\
  dec_leb (dec_mul c p) c = true /\
  (dec_leb 1 p = true -> dec_leb c (dec_mul c p) = true).
Proof.
  intros Hc Hp Hle. unfold dec_mul.
  set (x := mkDec (dcoeff c * dcoeff p) (dexp c + dexp p)).
  assert (Hx : 0 <= dcoeff x) by (simpl; nia).
  destruct (dec_fix_mono x c Hx) as [Hm1 Hm2]; [lia|].
  split; [apply Z.sgn_nonneg; rewrite dec_fix_sgn; by apply Z.sgn_nonneg|].
  set (K := Z.min (dexp c + dexp p) (dexp c)).
  set (K1 := Z.min (dexp p) 0).
  rewrite (dec_leb_units p 1 K1) in Hle by (subst K1; simpl; lia).
  apply Z.leb_le in Hle.
  assert (Hrel : units K x = dcoeff c * units K1 p /\
                 units K c = dcoeff c * units K1 1).
  { unfold units; subst x K K1; simpl.
    destruct (Z.le_gt_cases 0 (dexp p)).
    - rewrite !Z.min_r by lia.
      replace (dexp c + dexp p - dexp c) with (dexp p - 0) by lia.
      rewrite !Z.sub_diag. simpl. split; ring.
    - rewrite !Z.min_l by lia. rewrite !Z.sub_diag.
      replace (dexp c - (dexp c + dexp p)) with (0 - dexp p) by lia.
      simpl. split; ring. }
  destruct Hrel as [Hux Huc].
  split.
  - apply Hm1. rewrite (dec_leb_units x c K) by (subst K x; simpl; lia).
    apply Z.leb_le. rewrite Hux, Huc. nia.
  - intros Hge. apply Hm2.
    rewrite (dec_leb_units 1 p K1) in Hge by (subst K1; simpl; lia).
    apply Z.leb_le in Hge.
    rewrite (dec_leb_units c x K) by (subst K x; simpl; lia).
    apply Z.leb_le. rewrite Hux, Huc. nia.
Qed.

(** *** Consumption of one lot *)

(** What holds of every lot of the ledger: amount and cost basis are not
    negative, the cost basis has at most 28 digits, and an exhausted lot
    carries no cost basis. *)
Definition lot_ok (lot : TaxLot.t) : Prop :=
  0 <= dcoeff (TaxLot.amount lot) /\
  0 <= dcoeff (TaxLot.cost_basis_usd lot) < 10 ^ 28 /\
  (dcoeff (TaxLot.amount lot) = 0 -> dcoeff (TaxLot.cost_basis_usd lot) = 0).

Section ConsumeLot.
Variables (asset : string) (amount proceeds_usd : Decimal)
          (disposed_date : datetime.t) (tx_hash protocol event_type : string).

Abbreviation matched remaining lot :=
  (match_lot asset amount proceeds_usd disposed_date tx_hash protocol
     event_type remaining lot).

Abbreviation consumed remaining lot :=
  (TaxLot.consume lot (matched remaining lot).1.1 (matched remaining lot).1.2).

Lemma match_lot_amount remaining lot :
  (matched remaining lot).1.1 = py_min remaining (TaxLot.amount lot) /\
  TaxEvent.amount_disposed (matched remaining lot).2 = (matched remaining lot).1.1 /\
  TaxEvent.cost_basis_usd (matched remaining lot).2 = (matched remaining lot).1.2.
Proof. done. Qed.

(** The consumed cost basis lies between 0 and the lot's cost basis, and
    is all of it when the whole lot is taken. *)
Lemma match_lot_cost remaining lot :
  0 < dcoeff remaining -> 0 < dcoeff (TaxLot.amount lot) ->
  0 <= dcoeff (TaxLot.cost_basis_usd lot) < 10 ^ 28 ->
  let d := (matched remaining lot).1.1 in
  let cb := (matched remaining lot).1.2 in
  0 < dcoeff d /\ dec_leb d (TaxLot.amount lot) = true /\
  0 <= dcoeff cb /\ dec_leb cb (TaxLot.cost_basis_usd lot) = true /\
  (dec_leb (TaxLot.amount lot) d = true ->
   dec_eqb cb (TaxLot.cost_basis_usd lot) = true).
Proof.
  intros Hr Ha Hc d cb.
  destruct (py_min_spec remaining (TaxLot.amount lot)) as (Hd & Hle & _).
  assert (Hdpos : 0 < dcoeff d).
  { subst d. simpl. destruct Hd as [-> | ->]; done. }
  assert (Hopen : dec_ltb 0 (TaxLot.amount lot) = true).
  { rewrite dec_ltb_0. by apply Z.ltb_lt. }
  destruct (dec_div_le_1 d (TaxLot.amount lot) Hdpos Ha Hle) as (Hp0 & Hp1 & Hp2).
  assert (Hcb : cb = dec_mul (TaxLot.cost_basis_usd lot)
                       (dec_div d (TaxLot.amount lot))).
  { subst cb d. simpl. by rewrite Hopen. }
  destruct (dec_mul_le_1 (TaxLot.cost_basis_usd lot)
              (dec_div d (TaxLot.amount lot)) Hc Hp0 Hp1) as (Hm0 & Hm1 & Hm2).
  rewrite <- Hcb in Hm0, Hm1, Hm2.
  split; [done|]. split; [exact Hle|]. split; [done|]. split; [done|].
  intros Hge. apply dec_eqb_leb. split; [done|]. by apply Hm2, Hp2.
Qed.

(** Consuming from an open lot keeps [lot_ok]. *)
Lemma consume_ok remaining lot :
  0 < dcoeff remaining -> 0 < dcoeff (TaxLot.amount lot) -> lot_ok lot ->
  lot_ok (consumed remaining lot).
Proof.
  intros Hr Ha (_ & Hc & _).
  destruct (match_lot_cost remaining lot Hr Ha Hc) as (Hd & Hle & Hcb0 & Hcb1 & Heq).
  unfold lot_ok, TaxLot.consume. cbn [TaxLot.amount TaxLot.cost_basis_usd].
  split; [by apply dec_sub_nonneg|]. split.
  - split; [by apply dec_sub_nonneg|].
    pose proof (dec_sub_digits (TaxLot.cost_basis_usd lot)
                  (matched remaining lot).1.2). lia.
  - intros Hz. apply dec_sub_zero in Hz. apply dec_eqb_leb in Hz as [Hz _].
    apply dec_sub_zero. rewrite dec_eqb_sym. by apply Heq.
Qed.
End ConsumeLot.

Lemma dec_leb_0_l a : dec_leb 0 a = (0 <=? dcoeff a).
Proof.
  unfold dec_leb. rewrite dec_cmp_0_l. unfold Z.leb. by destruct (0 ?= dcoeff a).
Qed.

(** ** Ledger invariants (C6) *)


(** The calls a caller can make on an engine. *)
Inductive operation : Type :=
| Acquisition (asset : string) (amount cost_basis_usd : Decimal)
    (acquired_date : datetime.t) (tx_hash protocol : string)
| Disposal (asset : string) (amount proceeds_usd : Decimal)
    (disposed_date : datetime.t) (tx_hash protocol event_type : string)
| Income (asset : string) (amount fmv_usd : Decimal) (date : datetime.t)
    (tx_hash protocol income_type : string).

Definition apply_op (self : TaxEngine) (op : operation) : TaxEngine :=
  match op with
  | Acquisition asset amount cost_basis_usd acquired_date tx_hash protocol =>
      (add_acquisition self asset amount cost_basis_usd acquired_date tx_hash
         protocol).2
  | Disposal asset amount proceeds_usd disposed_date tx_hash protocol event_type =>
      (add_disposal asset amount proceeds_usd disposed_date tx_hash protocol
         event_type self).2
  | Income asset amount fmv_usd date tx_hash protocol income_type =>
      (add_income self asset amount fmv_usd date tx_hash protocol income_type).2
  end.

Definition run (ops : list operation) (self : TaxEngine) : TaxEngine :=
  fold_left apply_op ops self.








(** ** Exact values *)

(** The rational number a decimal stands for. *)
Definition dval (d : Decimal) : Q :=
  (inject_Z (dcoeff d) * inject_Z 10 ^ dexp d)%Q.

Lemma pow10Q_pos k : (0 < inject_Z 10 ^ k)%Q.
Proof. apply Qpower_0_lt. reflexivity. Qed.

Lemma pow10Q_nonzero k : ~ (inject_Z 10 ^ k == 0)%Q.
Proof. pose proof (pow10Q_pos k) as H. intros E. rewrite E in H. by apply Qlt_irrefl in H. Qed.

Lemma dval_units k d :
  k <= dexp d -> (dval d == inject_Z (units k d) * inject_Z 10 ^ k)%Q.
Proof.
  intros Hk. unfold dval, units.
  rewrite inject_Z_mult, Zpower_Qpower by lia.
  rewrite <- Qmult_assoc, <- Qpower_plus by (intros E; discriminate E).
  replace (dexp d - k + k) with (dexp d) by lia. reflexivity.
Qed.

Lemma dval_eq a b : dec_eqb a b = true <-> (dval a == dval b)%Q.
Proof.
  set (K := Z.min (dexp a) (dexp b)).
  rewrite (dec_eqb_units a b K) by (subst K; lia).
  rewrite (dval_units K a), (dval_units K b) by (subst K; lia).
  rewrite Qmult_inj_r by apply pow10Q_nonzero.
  rewrite inject_Z_injective. apply Z.eqb_eq.
Qed.

Lemma dval_le a b : dec_leb a b = true <-> (dval a <= dval b)%Q.
Proof.
  set (K := Z.min (dexp a) (dexp b)).
  rewrite (dec_leb_units a b K) by (subst K; lia).
  rewrite (dval_units K a), (dval_units K b) by (subst K; lia).
  rewrite Qmult_le_r by apply pow10Q_pos.
  rewrite <- Zle_Qle. apply Z.leb_le.
Qed.

(** The exact sum of a list of decimals. *)
Definition exact_sum (l : list Decimal) : Q :=
  foldr (fun d acc => dval d + acc)%Q 0%Q l.

Lemma exact_sum_app l1 l2 : (exact_sum (l1 ++ l2) == exact_sum l1 + exact_sum l2)%Q.
Proof.
  induction l1 as [|d l1 IH]; simpl; [by rewrite Qplus_0_l|].
  rewrite IH. apply Qplus_assoc.
Qed.

Lemma exact_sum_perm l1 l2 : l1 ≡ₚ l2 -> (exact_sum l1 == exact_sum l2)%Q.
Proof.
  induction 1 as [|d l1 l2 _ IH|d1 d2 l|l1 l2 l3 _ IH1 _ IH2]; simpl.
  - reflexivity.
  - by rewrite IH.
  - rewrite !Qplus_assoc. by rewrite (Qplus_comm (dval d2)).
  - by rewrite IH1.
Qed.

Lemma exact_sum_Forall2 l1 l2 :
  Forall2 (fun a b => dec_eqb a b = true) l1 l2 -> (exact_sum l1 == exact_sum l2)%Q.
Proof.
  induction 1 as [|a b l1 l2 Hab _ IH]; simpl; [reflexivity|].
  apply dval_eq in Hab. by rewrite Hab, IH.
Qed.

(** The exact sum, counted in units of [10^k]. *)
Definition sum_units (k : Z) (l : list Decimal) : Z :=
  foldr (fun d acc => units k d + acc) 0 l.

Lemma exact_sum_as_units k l :
  Forall (fun d => k <= dexp d) l ->
  (exact_sum l == inject_Z (sum_units k l) * inject_Z 10 ^ k)%Q.
Proof.
  induction 1 as [|d l Hd _ IH]; simpl.
  - by rewrite Qmult_0_l.
  - rewrite IH, (dval_units k d) by done.
    rewrite inject_Z_plus. by rewrite Qmult_plus_distr_l.
Qed.

(** *** The unit cost under exact arithmetic *)





(** ** Disposals that take whole lots (C1, C7) *)

Definition open_amounts (order : list lot_ref) : list Decimal :=
  map (fun r => TaxLot.amount r.2) (List.filter is_open order).

Lemma sum_units_cons k d l :
  sum_units k (d :: l) = units k d + sum_units k l.
Proof. reflexivity. Qed.

Lemma is_open_pos r : is_open r = true <-> 0 < dcoeff (TaxLot.amount r.2).
Proof.
  unfold is_open. rewrite dec_leb_0, negb_true_iff. apply Z.leb_gt.
Qed.

Lemma units_pos k d : k <= dexp d -> 0 < dcoeff d -> 0 < units k d.
Proof.
  intros Hk Hd. unfold units. apply Z.mul_pos_pos; [done|].
  apply Z.pow_pos_nonneg; lia.
Qed.

Lemma units_sgn k d : k <= dexp d -> Z.sgn (units k d) = Z.sgn (dcoeff d).
Proof.
  intros Hk. unfold units. rewrite Z.sgn_mul.
  rewrite (Z.sgn_pos (10 ^ _)) by (apply Z.pow_pos_nonneg; lia). lia.
Qed.

(** The open lots of [order] have their amounts on the grid [10^k] and a
    cost basis of at most 28 digits that is not negative. *)
Definition on_grid (k : Z) (order : list lot_ref) : Prop :=
  Forall (fun r : lot_ref =>
            is_open r = true ->
            k <= dexp (TaxLot.amount r.2) /\
            0 <= dcoeff (TaxLot.cost_basis_usd r.2) < 10 ^ 28) order.

Lemma open_amounts_nonneg k order :
  on_grid k order ->
  0 <= sum_units k (open_amounts order) /\
  (sum_units k (open_amounts order) <= 0 -> List.filter is_open order = []).
Proof.
  unfold open_amounts, on_grid.
  induction 1 as [|r order Hr _ [IH1 IH2]]; simpl; [done|].
  destruct (is_open r) eqn:Ho; simpl; [|done].
  destruct (Hr eq_refl) as [Hk _].
  apply is_open_pos in Ho. pose proof (units_pos k _ Hk Ho). lia.
Qed.

(** The loop leaves alone the lots it is not given. *)
Lemma match_loop_frame asset amount proceeds_usd disposed_date tx_hash protocol
    event_type order : forall remaining store events i,
  i ∉ order ->
  (match_loop asset amount proceeds_usd disposed_date tx_hash protocol event_type
     order remaining store events).1.1 !! i = store !! i.
Proof.
  induction order as [|j rest IH]; intros remaining store events i Hi; simpl;
    [done|].
  apply not_elem_of_cons in Hi as [Hne Hi].
  destruct (dec_leb remaining 0); [done|].
  destruct (store !! j) as [lot|]; [|by apply IH].
  destruct (dec_leb (TaxLot.amount lot) 0); [by apply IH|].
  rewrite IH by done. by apply list_lookup_insert_ne.
Qed.

Section TakesAll.
Variables (asset : string) (amount proceeds_usd : Decimal)
          (disposed_date : datetime.t) (tx_hash protocol event_type : string).

Abbreviation loop :=
  (match_loop asset amount proceeds_usd disposed_date tx_hash protocol event_type).

Abbreviation matched' remaining lot :=
  (match_lot asset amount proceeds_usd disposed_date tx_hash protocol
     event_type remaining lot).

(** One iteration on an open lot with something left to dispose of. *)
Lemma match_loop_step i rest remaining store events lot :
  dec_leb remaining 0 = false -> store !! i = Some lot ->
  dec_leb (TaxLot.amount lot) 0 = false ->
  loop (i :: rest) remaining store events
  = loop rest (dec_sub remaining (matched' remaining lot).1.1)
      (<[i := TaxLot.consume lot (matched' remaining lot).1.1
                (matched' remaining lot).1.2]> store)
      (events ++ [(matched' remaining lot).2]).
Proof. intros Hr Hl Ha. simpl. by rewrite Hr, Hl, Ha. Qed.

(** One iteration on an exhausted lot. *)
Lemma match_loop_skip i rest remaining store events lot :
  dec_leb remaining 0 = false -> store !! i = Some lot ->
  dec_leb (TaxLot.amount lot) 0 = true ->
  loop (i :: rest) remaining store events = loop rest remaining store events.
Proof. intros Hr Hl Ha. simpl. by rewrite Hr, Hl, Ha. Qed.

(** The event carries the whole amount and the whole cost basis of the
    lot, and the lot's acquisition date. *)
Definition takes_whole (r : lot_ref) (e : TaxEvent.t) : Prop :=
  TaxEvent.acquired_date e = TaxLot.acquired_date r.2 /\
  dec_eqb (TaxEvent.amount_disposed e) (TaxLot.amount r.2) = true /\
  dec_eqb (TaxEvent.cost_basis_usd e) (TaxLot.cost_basis_usd r.2) = true.

(** A lot with nothing left: amount 0 and cost basis 0. *)
Definition exhausted (lot : TaxLot.t) : Prop :=
  dcoeff (TaxLot.amount lot) = 0 /\ dcoeff (TaxLot.cost_basis_usd lot) = 0.

(** When the amounts lie on a grid of 28 digits and the open lots hold no
    more than [remaining], the loop takes every open lot whole, in order,
    and what is left of [remaining] is the exact difference. *)
Lemma match_loop_takes_all k (order : list lot_ref) :
  forall remaining store,
    NoDup (map fst order) ->
    (forall r, r ∈ order -> store !! r.1 = Some r.2) ->
    on_grid k order ->
    k <= dexp remaining -> units k remaining < 10 ^ 28 ->
    sum_units k (open_amounts order) <= units k remaining ->
    let res := loop (map fst order) remaining store [] in
    Forall2 takes_whole (List.filter is_open order) res.1.2 /\
    k <= dexp res.2 /\
    units k res.2 = units k remaining - sum_units k (open_amounts order) /\
    (forall r, r ∈ List.filter is_open order ->
               exists lot', res.1.1 !! r.1 = Some lot' /\ exhausted lot').
Proof.
  induction order as [|[i lot] rest IH];
    intros remaining store Hnd Hst Hgrid Hk Hfit Hsum;
    unfold open_amounts in *.
  { simpl. split; [constructor|]. split; [done|]. split; [simpl; lia|].
    intros r Hr. by apply elem_of_nil in Hr. }
  cbn [map] in Hnd. apply NoDup_cons in Hnd as [Hi Hnd]. cbn [fst] in Hi.
  pose proof (open_amounts_nonneg k ((i, lot) :: rest) Hgrid) as [_ Hnil].
  apply Forall_cons in Hgrid as [Hhead Hgrid]. fold (on_grid k rest) in Hgrid.
  pose proof (open_amounts_nonneg k rest Hgrid) as [Hrest0 _].
  unfold open_amounts in *.
  assert (Hl : store !! i = Some lot) by (apply (Hst (i, lot)); left).
  assert (Hst' : forall r, r ∈ rest -> store !! r.1 = Some r.2)
    by (intros r Hr; apply Hst; by right).
  destruct (dec_leb remaining 0) eqn:Hr.
  { (* nothing is left to dispose of: no lot of the list is open *)
    assert (Hu : units k remaining <= 0).
    { rewrite dec_leb_0 in Hr. apply Z.leb_le in Hr.
      pose proof (units_sgn k remaining Hk). lia. }
    assert (Hf : List.filter is_open ((i, lot) :: rest) = [])
      by (apply Hnil; lia).
    rewrite Hf in Hsum |- *.
    cbn [map fst match_loop]. rewrite Hr. simpl in *.
    split; [constructor|]. split; [done|]. split; [lia|].
    intros r Hr'. by apply elem_of_nil in Hr'. }
  cbn [map fst List.filter] in *.
  assert (Ho : is_open (i, lot) = negb (dec_leb (TaxLot.amount lot) 0)) by done.
  destruct (dec_leb (TaxLot.amount lot) 0) eqn:Ha; cbn [negb] in Ho;
    rewrite Ho in *.
  { rewrite (match_loop_skip i _ _ _ _ lot) by done. by apply IH. }
  rewrite (match_loop_step i _ _ _ _ lot) by done.
  destruct (Hhead eq_refl) as [Hka Hc]. cbn [snd] in Hka, Hc.
  (* an open lot *)
  rewrite dec_leb_0 in Hr, Ha. apply Z.leb_gt in Hr, Ha.
  cbn [map snd] in Hsum |- *. rewrite sum_units_cons in Hsum |- *.
  pose proof (units_pos k _ Hka Ha) as Hua.
  set (m := match_lot asset amount proceeds_usd disposed_date tx_hash protocol
              event_type remaining lot).
  destruct (match_lot_cost asset amount proceeds_usd disposed_date tx_hash
              protocol event_type remaining lot Hr Ha Hc)
    as (Hd & Hle & Hcb0 & Hcb1 & Heq).
  fold m in Hd, Hle, Hcb0, Hcb1, Heq.
  destruct (py_min_spec remaining (TaxLot.amount lot)) as (Hmin & _ & _).
  assert (Hdm : m.1.1 = py_min remaining (TaxLot.amount lot)) by done.
  assert (Hkd : k <= dexp m.1.1).
  { rewrite Hdm. destruct Hmin as [-> | ->]; done. }
  assert (Hge : dec_leb (TaxLot.amount lot) m.1.1 = true).
  { rewrite Hdm. destruct Hmin as [-> | ->]; [apply dec_leb_refl|].
    rewrite (dec_leb_units _ _ k) by done. apply Z.leb_le. lia. }
  assert (Hud : units k m.1.1 = units k (TaxLot.amount lot)).
  { assert (E : dec_eqb m.1.1 (TaxLot.amount lot) = true)
      by (by apply dec_eqb_leb).
    rewrite (dec_eqb_units _ _ k) in E by done. by apply Z.eqb_eq in E. }
  destruct (dec_sub_exact k remaining m.1.1 Hk Hkd) as [Hk' Hu'].
  { rewrite Hud. lia. }
  rewrite Hud in Hu'.
  fold m. rewrite match_loop_events_app. cbn [fst snd app].
  set (store' := <[i := TaxLot.consume lot m.1.1 m.1.2]> store).
  destruct (IH (dec_sub remaining m.1.1) store') as (Hev & Hkr & Hur & Hex);
    try done.
  { intros r Hr'. subst store'. rewrite list_lookup_insert_ne; [by apply Hst'|].
    intros ->. apply Hi. apply list_elem_of_fmap. by exists r. }
  { lia. }
  { lia. }
  split; [|split; [|split]].
  - constructor; [|exact Hev].
    split; [done|]. split; [by apply dec_eqb_leb | by apply Heq].
  - exact Hkr.
  - rewrite Hur, Hu'. lia.
  - intros r Hr'. apply elem_of_cons in Hr' as [-> | Hr'].
    + exists (TaxLot.consume lot m.1.1 m.1.2). split.
      * rewrite match_loop_frame by done. subst store'. simpl.
        apply list_lookup_insert_eq. by eapply lookup_lt_Some.
      * split; simpl.
        -- apply dec_sub_zero. rewrite dec_eqb_sym. by apply dec_eqb_leb.
        -- apply dec_sub_zero. rewrite dec_eqb_sym. by apply Heq.
    + by apply Hex.
Qed.
End TakesAll.

Lemma refs_snd (l : list TaxLot.t) : map snd (refs l) = l.
Proof.
  unfold refs. generalize 0%nat. induction l as [|x l IH]; intros n; simpl; [done|].
  f_equal. apply IH.
Qed.

Lemma sum_units_perm k l1 l2 : l1 ≡ₚ l2 -> sum_units k l1 = sum_units k l2.
Proof.
  induction 1 as [|d l1 l2 _ IH|d1 d2 l|l1 l2 l3 _ IH1 _ IH2]; simpl; lia.
Qed.

Lemma filter_perm {A} (f : A -> bool) (l1 l2 : list A) :
  l1 ≡ₚ l2 -> List.filter f l1 ≡ₚ List.filter f l2.
Proof.
  induction 1 as [|x l1 l2 _ IH|x y l|l1 l2 l3 _ IH1 _ IH2]; simpl.
  - done.
  - destruct (f x); by rewrite IH.
  - destruct (f x), (f y); try done. apply Permutation_swap.
  - by rewrite IH1.
Qed.

Lemma filter_all {A} (f : A -> bool) (l : list A) :
  Forall (fun x => f x = true) l -> List.filter f l = l.
Proof. induction 1 as [|x l Hx _ IH]; simpl; [done|]. by rewrite Hx, IH. Qed.

Lemma open_amounts_perm k o1 o2 :
  o1 ≡ₚ o2 -> sum_units k (open_amounts o1) = sum_units k (open_amounts o2).
Proof.
  intros H. apply sum_units_perm. unfold open_amounts.
  apply Permutation_map. by apply filter_perm.
Qed.

Lemma on_grid_perm k o1 o2 : o1 ≡ₚ o2 -> on_grid k o1 -> on_grid k o2.
Proof. unfold on_grid. intros H. by rewrite H. Qed.

Section WholeLots.
Variables (asset : string) (amount proceeds_usd : Decimal)
          (disposed_date : datetime.t) (tx_hash protocol event_type : string).

Abbreviation dispose self :=
  (add_disposal asset amount proceeds_usd disposed_date tx_hash protocol
     event_type self).
Abbreviation price :=
  (if dec_ltb 0 amount then dec_div proceeds_usd amount else 0).

(** A disposal of at least what the open lots hold, amounts on a grid of
    28 digits: every open lot is taken whole, in the order of
    [_sort_lots]; the loop ends with the exact unmatched remainder in
    [remaining], and [add_disposal] returns the events only. *)
Lemma add_disposal_takes_all self k :
  lots_get self asset <> [] ->
  let order := _sort_lots self (refs (lots_get self asset)) price in
  on_grid k (refs (lots_get self asset)) ->
  k <= dexp amount -> units k amount < 10 ^ 28 ->
  sum_units k (open_amounts (refs (lots_get self asset))) <= units k amount ->
  exists store leftover,
    match_loop asset amount proceeds_usd disposed_date tx_hash protocol
      event_type (map fst order) amount (lots_get self asset) []
    = (store, (dispose self).1, leftover) /\
    lots_get (dispose self).2 asset = store /\
    tax_events (dispose self).2 = tax_events self ++ (dispose self).1 /\
    income_events (dispose self).2 = income_events self /\
    Forall2 takes_whole (List.filter is_open order) (dispose self).1 /\
    k <= dexp leftover /\
    units k leftover
    = units k amount - sum_units k (open_amounts (refs (lots_get self asset))) /\
    (forall r, r ∈ List.filter is_open order ->
               exists lot', store !! r.1 = Some lot' /\ exhausted lot').
Proof.
  intros Hne order Hgrid Hk Hfit Hsum.
  assert (Hperm : order ≡ₚ refs (lots_get self asset)) by apply sort_lots_perm.
  pose proof (match_loop_takes_all asset amount proceeds_usd disposed_date
                tx_hash protocol event_type k order amount (lots_get self asset)
                (sort_lots_NoDup _ _ _)
                (fun r => sort_lots_lookup _ _ _ r)
                (on_grid_perm _ _ _ (symmetry Hperm) Hgrid) Hk Hfit) as H.
  rewrite (open_amounts_perm k order _ Hperm) in H.
  specialize (H Hsum). cbv zeta in H.
  unfold add_disposal. fold order.
  destruct (lots_get self asset) as [|l0 ls] eqn:E; [done|].
  destruct (match_loop asset amount proceeds_usd disposed_date tx_hash protocol
              event_type (map fst order) amount (l0 :: ls) [])
    as [[store events] leftover].
  cbn [fst snd] in *. exists store, leftover.
  destruct H as (H1 & H2 & H3 & H4).
  split; [done|]. split.
  { unfold lots_get. simpl. by rewrite lookup_insert_eq. }
  done.
Qed.
End WholeLots.

Lemma refs_elem (l : list TaxLot.t) i lot : l !! i = Some lot -> (i, lot) ∈ refs l.
Proof.
  intros H. unfold refs. apply list_elem_of_lookup. exists i.
  apply lookup_zip_with_Some. exists i, lot. split; [done|]. split; [|done].
  apply lookup_seq. split; [done|]. by eapply lookup_lt_Some.
Qed.

Lemma refs_map {B} (f : TaxLot.t -> B) (l : list TaxLot.t) :
  map (fun r : lot_ref => f r.2) (refs l) = map f l.
Proof. by rewrite <- (map_map snd f), refs_snd. Qed.

Lemma refs_Forall (P : TaxLot.t -> Prop) (l : list TaxLot.t) :
  Forall P l -> Forall (fun r : lot_ref => P r.2) (refs l).
Proof.
  intros H. apply Forall_forall. intros r Hr.
  apply refs_lookup in Hr. by eapply Forall_lookup_1.
Qed.

(** C7 (counterexample). Lots of 1, 10^10 and 10^-18 UNI, 1 USD each, are
    followed by a disposal of their sum, 10000000001.000000000000000001
    (29 digits): after the first lot the remainder is rounded to
    10000000000.00000000000000000, the second lot uses it up and the
    third lot is never matched.  The events carry 2 USD of cost basis and
    10000000001 UNI; the lots held 3 USD and the disposal asked for
    more. *)
Lemma full_disposal_misses_a_lot :
  let e0 := __init__ "FIFO" in
  let e1 := (add_acquisition e0 "UNI" 1 1 Scenario.jan1 "0xa1" "uniswap").2 in
  let e2 := (add_acquisition e1 "UNI" 10000000000 1 Scenario.jan1 "0xa2"
               "uniswap").2 in
  let e3 := (add_acquisition e2 "UNI" (mkDec 1 (-18)) 1 Scenario.jan1 "0xa3"
               "uniswap").2 in
  let requested := mkDec 10000000001000000000000000001 (-18) in
  let r := add_disposal "UNI" requested 300 Scenario.jul1 "0xd1" "uniswap"
             "swap" e3 in
  (dval requested
   == exact_sum (map TaxLot.amount (lots_get e3 "UNI")))%Q /\
  map TaxEvent.amount_disposed r.1
  = [dec_of_Z 1; mkDec 1000000000000000000000000000 (-17)] /\
  map TaxEvent.cost_basis_usd r.1
  = [dec_of_Z 1; mkDec 100000000000000000 (-17)] /\
  ~ (exact_sum (map TaxEvent.cost_basis_usd r.1)
     == exact_sum (map TaxLot.cost_basis_usd (lots_get e3 "UNI")))%Q /\
  ~ (exact_sum (map TaxEvent.amount_disposed r.1) == dval requested)%Q.
Proof.
  repeat split; try (vm_compute; reflexivity);
    intros H; vm_compute in H; discriminate H.
Qed.

(** C7 (amended). The asset's lots all have a positive amount and a cost
    basis of at most 28 digits that is not negative; the requested amount
    is exactly the sum of their amounts, and it has at most 28 digits
    counted from the smallest exponent [k] among the amounts.  Then the
    cost bases of the events returned by one [add_disposal] add up exactly
    to the cost bases of the lots, their amounts add up exactly to the
    requested amount, and every lot is left with amount 0 and cost basis
    0. *)
Theorem full_disposal_conserves_totals asset amount proceeds_usd disposed_date
    tx_hash protocol event_type self k :
  Forall (fun lot => 0 < dcoeff (TaxLot.amount lot) /\
                     k <= dexp (TaxLot.amount lot) /\
                     0 <= dcoeff (TaxLot.cost_basis_usd lot) < 10 ^ 28)
         (lots_get self asset) ->
  k <= dexp amount -> units k amount < 10 ^ 28 ->
  units k amount = sum_units k (map TaxLot.amount (lots_get self asset)) ->
  let r := add_disposal asset amount proceeds_usd disposed_date tx_hash protocol
             event_type self in
  (exact_sum (map TaxEvent.cost_basis_usd r.1)
   == exact_sum (map TaxLot.cost_basis_usd (lots_get self asset)))%Q /\
  (exact_sum (map TaxEvent.amount_disposed r.1) == dval amount)%Q /\
  Forall exhausted (lots_get r.2 asset).
Proof.
  intros Hlots Hk Hfit Hsum r.
  destruct (lots_get self asset) as [|l0 ls] eqn:E.
  { (* no lot: the requested amount is 0 and the fallback event carries it *)
    subst r. unfold add_disposal. rewrite E. simpl.
    split; [|split].
    - unfold dval. simpl. ring.
    - ring.
    - unfold lots_get in *. simpl. rewrite E. constructor. }
  rewrite <- E in *.
  assert (Hne : lots_get self asset <> []) by (rewrite E; done).
  set (order := _sort_lots self (refs (lots_get self asset))
                  (if dec_ltb 0 amount then dec_div proceeds_usd amount else 0)).
  assert (Hperm : order ≡ₚ refs (lots_get self asset)) by apply sort_lots_perm.
  assert (Hopen : Forall (fun r : lot_ref => is_open r = true)
                         (refs (lots_get self asset))).
  { apply (refs_Forall (fun lot => is_open (0%nat, lot) = true)).
    eapply Forall_impl; [exact Hlots|]. intros lot (Ha & _).
    by apply (is_open_pos (0%nat, lot)). }
  assert (Hamounts : open_amounts (refs (lots_get self asset))
                     = map TaxLot.amount (lots_get self asset)).
  { unfold open_amounts. rewrite filter_all by exact Hopen.
    apply refs_map. }
  destruct (add_disposal_takes_all asset amount proceeds_usd disposed_date
              tx_hash protocol event_type self k Hne)
    as (store & leftover & Hloop & Hstore & _ & _ & Hev & _ & _ & Hex).
  { unfold on_grid. apply Forall_forall. intros r0 Hr0 _.
    apply refs_lookup in Hr0.
    by destruct (Forall_lookup_1 _ _ _ _ Hlots Hr0) as (_ & H1 & H2). }
  { done. }
  { done. }
  { rewrite Hamounts. lia. }
  fold order in Hloop, Hev, Hex. fold r in Hloop, Hstore, Hev.
  assert (Hall : List.filter is_open order = order).
  { apply filter_all. by rewrite Hperm. }
  rewrite Hall in Hev, Hex.
  split; [|split].
  - transitivity (exact_sum (map (fun r : lot_ref => TaxLot.cost_basis_usd r.2) order)).
    + apply exact_sum_Forall2. apply Forall2_fmap.
      apply Forall2_flip. eapply Forall2_impl; [exact Hev|].
      by intros x y (_ & _ & H).
    + rewrite <- (refs_map TaxLot.cost_basis_usd).
      apply exact_sum_perm. by apply Permutation_map.
  - transitivity (exact_sum (map (fun r : lot_ref => TaxLot.amount r.2) order)).
    + apply exact_sum_Forall2. apply Forall2_fmap.
      apply Forall2_flip. eapply Forall2_impl; [exact Hev|].
      by intros x y (_ & H & _).
    + transitivity (exact_sum (map TaxLot.amount (lots_get self asset))).
      * rewrite <- (refs_map TaxLot.amount).
        apply exact_sum_perm. by apply Permutation_map.
      * etransitivity.
        { apply (exact_sum_as_units k). apply Forall_fmap.
          eapply Forall_impl; [exact Hlots|]. by intros lot (_ & H & _). }
        rewrite <- Hsum. symmetry. by apply dval_units.
  - rewrite Hstore. apply Forall_lookup. intros i x Hx.
    assert (Hlen : length store = length (lots_get self asset)).
    { pose proof (match_loop_length asset amount proceeds_usd disposed_date
                    tx_hash protocol event_type (map fst order) amount
                    (lots_get self asset) []) as Hl.
      by rewrite Hloop in Hl. }
    destruct (lookup_lt_is_Some_2 (lots_get self asset) i) as [lot Hlot].
    { rewrite <- Hlen. by eapply lookup_lt_Some. }
    destruct (Hex (i, lot)) as (lot' & Hl' & Hexh).
    { rewrite Hperm. by apply refs_elem. }
    simpl in Hl'. by simplify_eq.
Qed.

Lemma full_disposal_conserves_totals_witness :
  let r := add_disposal "UNI" 20 300 Scenario.jul1 "0xd1" "uniswap" "swap"
             Scenario.two_lots in
  Forall (fun lot => 0 < dcoeff (TaxLot.amount lot) /\
                     0 <= dexp (TaxLot.amount lot) /\
                     0 <= dcoeff (TaxLot.cost_basis_usd lot) < 10 ^ 28)
         (lots_get Scenario.two_lots "UNI") /\
  (exact_sum (map TaxEvent.cost_basis_usd r.1) == 150)%Q /\
  (exact_sum (map TaxEvent.amount_disposed r.1) == 20)%Q.
Proof.
  intros r.
  assert (Hlots : Forall (fun lot => 0 < dcoeff (TaxLot.amount lot) /\
                     0 <= dexp (TaxLot.amount lot) /\
                     0 <= dcoeff (TaxLot.cost_basis_usd lot) < 10 ^ 28)
         (lots_get Scenario.two_lots "UNI")).
  { let l := eval vm_compute in (lots_get Scenario.two_lots "UNI") in
    replace (lots_get Scenario.two_lots "UNI") with l
      by (vm_compute; reflexivity).
    repeat (apply List.Forall_cons; [cbn; lia|]). apply List.Forall_nil. }
  split; [exact Hlots|].
  destruct (full_disposal_conserves_totals "UNI" 20 300 Scenario.jul1 "0xd1"
              "uniswap" "swap" Scenario.two_lots 0 Hlots)
    as (Hcost & Hamount & _); try (vm_compute; congruence).
  fold r in Hcost, Hamount. split.
  - rewrite Hcost. vm_compute. reflexivity.
  - rewrite Hamount. vm_compute. reflexivity.
Defined.

(** ** Under-supplied disposals (C1) *)

Lemma match_loop_closed_stay asset amount proceeds_usd disposed_date tx_hash
    protocol event_type order : forall remaining store events i lot,
  store !! i = Some lot -> dec_leb (TaxLot.amount lot) 0 = true ->
  (match_loop asset amount proceeds_usd disposed_date tx_hash protocol event_type
     order remaining store events).1.1 !! i = Some lot.
Proof.
  induction order as [|j rest IH]; intros remaining store events i lot Hi Hc;
    simpl; [done|].
  destruct (dec_leb remaining 0); [done|].
  destruct (store !! j) as [lot'|] eqn:Hj; [|by apply IH].
  destruct (dec_leb (TaxLot.amount lot') 0) eqn:Hc'; [by apply IH|].
  apply IH; [|done]. rewrite list_lookup_insert_ne; [done|].
  intros ->. congruence.
Qed.

(** C1 (counterexample). With one open lot of 10 UNI, a disposal of 20 UNI
    and a disposal of 50 UNI (proceeds 0) return the same result and leave
    the same ledger, although 10 UNI are unmatched in the first and 40 in
    the second: no function of the result yields the unmatched
    remainder. *)
Lemma remainder_is_not_returned :
  let e0 := __init__ "FIFO" in
  let e1 := (add_acquisition e0 "UNI" 10 50 Scenario.jan1 "0xa1" "uniswap").2 in
  let r20 := add_disposal "UNI" 20 0 Scenario.jul1 "0xd1" "uniswap" "swap" e1 in
  let r50 := add_disposal "UNI" 50 0 Scenario.jul1 "0xd1" "uniswap" "swap" e1 in
  map TaxEvent.amount_disposed r20.1 = [dec_of_Z 10] /\
  r20 = r50 /\
  ~ exists remainder_of : list TaxEvent.t * TaxEngine -> Decimal,
      remainder_of r20 = dec_sub 20 10 /\ remainder_of r50 = dec_sub 50 10.
Proof.
  intros e0 e1 r20 r50.
  assert (E : r20 = r50) by (vm_compute; reflexivity).
  split; [vm_compute; reflexivity|]. split; [exact E|].
  intros (f & H20 & H50). rewrite E, H50 in H20. vm_compute in H20.
  discriminate H20.
Qed.

(** C1 (amended). A disposal asks for more than the asset's open lots
    hold (amounts on a grid of 28 digits, the asset has lots).  Then
    [add_disposal] matches all that is available: one event per open lot,
    in the order of [_sort_lots], each with the whole amount and cost
    basis of its lot, and no lot of the asset is left open.  The result is
    that list of events and nothing else: the loop ends with the positive
    unmatched remainder (the requested amount less the amounts of the
    events) in its local variable, which is not returned. *)
Theorem undersupplied_disposal_matches_available asset amount proceeds_usd
    disposed_date tx_hash protocol event_type self k :
  lots_get self asset <> [] ->
  on_grid k (refs (lots_get self asset)) ->
  k <= dexp amount -> units k amount < 10 ^ 28 ->
  sum_units k (open_amounts (refs (lots_get self asset))) < units k amount ->
  let r := add_disposal asset amount proceeds_usd disposed_date tx_hash protocol
             event_type self in
  let order :=
    _sort_lots self (refs (lots_get self asset))
      (if dec_ltb 0 amount then dec_div proceeds_usd amount else 0) in
  Forall2 takes_whole (List.filter is_open order) r.1 /\
  Forall (fun lot => dec_leb (TaxLot.amount lot) 0 = true) (lots_get r.2 asset) /\
  tax_events r.2 = tax_events self ++ r.1 /\
  income_events r.2 = income_events self /\
  exists leftover,
    (match_loop asset amount proceeds_usd disposed_date tx_hash protocol
       event_type (map fst order) amount (lots_get self asset) []).2 = leftover /\
    dec_ltb 0 leftover = true /\
    (dval leftover
     == dval amount - exact_sum (map TaxEvent.amount_disposed r.1))%Q.
Proof.
  intros Hne Hgrid Hk Hfit Hsum r order.
  destruct (add_disposal_takes_all asset amount proceeds_usd disposed_date
              tx_hash protocol event_type self k Hne Hgrid Hk Hfit)
    as (store & leftover & Hloop & Hstore & Hte & Hie & Hev & Hkl & Hul & Hex);
    [lia|].
  fold order in Hloop, Hev, Hex. fold r in Hloop, Hstore, Hte, Hie, Hev.
  assert (Hperm : order ≡ₚ refs (lots_get self asset)) by apply sort_lots_perm.
  split; [exact Hev|]. split; [|split; [exact Hte|split; [exact Hie|]]].
  - rewrite Hstore. apply Forall_lookup. intros i x Hx.
    assert (Hlen : length store = length (lots_get self asset)).
    { pose proof (match_loop_length asset amount proceeds_usd disposed_date
                    tx_hash protocol event_type (map fst order) amount
                    (lots_get self asset) []) as Hl.
      by rewrite Hloop in Hl. }
    destruct (lookup_lt_is_Some_2 (lots_get self asset) i) as [lot Hlot].
    { rewrite <- Hlen. by eapply lookup_lt_Some. }
    destruct (dec_leb (TaxLot.amount lot) 0) eqn:Hc.
    + pose proof (match_loop_closed_stay asset amount proceeds_usd disposed_date
                    tx_hash protocol event_type (map fst order) amount
                    (lots_get self asset) [] i lot Hlot Hc) as Hs.
      rewrite Hloop in Hs. simpl in Hs. by simplify_eq.
    + destruct (Hex (i, lot)) as (lot' & Hl' & Hz & _).
      { apply list_elem_of_In, filter_In. split.
        - apply list_elem_of_In. rewrite Hperm. by apply refs_elem.
        - unfold is_open. simpl. by rewrite Hc. }
      simpl in Hl'. simplify_eq. rewrite dec_leb_0, Hz. done.
  - exists leftover. split; [by rewrite Hloop|].
    assert (Hpos : 0 < units k leftover) by lia.
    split.
    { rewrite dec_ltb_0. apply Z.ltb_lt.
      pose proof (units_sgn k leftover Hkl). lia. }
    assert (Hsumev : (exact_sum (map TaxEvent.amount_disposed r.1)
                      == inject_Z (sum_units k (open_amounts
                                      (refs (lots_get self asset))))
                         * inject_Z 10 ^ k)%Q).
    { rewrite <- (open_amounts_perm k order _ Hperm).
      transitivity (exact_sum (open_amounts order)).
      - apply exact_sum_Forall2. unfold open_amounts. apply Forall2_fmap.
        apply Forall2_flip. eapply Forall2_impl; [exact Hev|].
        by intros x y (_ & H & _).
      - apply exact_sum_as_units. unfold open_amounts. apply Forall_fmap.
        apply Forall_forall. intros r0 Hr0.
        apply list_elem_of_In, filter_In in Hr0 as [Hin Ho].
        apply list_elem_of_In in Hin. rewrite Hperm in Hin.
        unfold on_grid in Hgrid. rewrite Forall_forall in Hgrid.
        by destruct (Hgrid r0 Hin Ho). }
    rewrite Hsumev, (dval_units k leftover Hkl), (dval_units k amount Hk), Hul.
    unfold Z.sub. rewrite inject_Z_plus, inject_Z_opp. ring.
Qed.

Lemma undersupplied_disposal_matches_available_witness :
  let e1 := (add_acquisition (__init__ "FIFO") "UNI" 10 50 Scenario.jan1 "0xa1"
               "uniswap").2 in
  let r := add_disposal "UNI" 15 300 Scenario.jul1 "0xd1" "uniswap" "swap" e1 in
  lots_get e1 "UNI" <> [] /\
  sum_units 0 (open_amounts (refs (lots_get e1 "UNI"))) < units 0 15 /\
  Forall (fun lot => dec_leb (TaxLot.amount lot) 0 = true) (lots_get r.2 "UNI") /\
  tax_events r.2 = tax_events e1 ++ r.1.
Proof.
  intros e1 r.
  assert (Hne : lots_get e1 "UNI" <> []) by (vm_compute; discriminate).
  assert (Hsum : sum_units 0 (open_amounts (refs (lots_get e1 "UNI")))
                 < units 0 15) by (vm_compute; reflexivity).
  split; [exact Hne|]. split; [exact Hsum|].
  destruct (undersupplied_disposal_matches_available "UNI" 15 300 Scenario.jul1
              "0xd1" "uniswap" "swap" e1 0 Hne) as (_ & Hclosed & Hte & _).
  - unfold on_grid.
    let l := eval vm_compute in (refs (lots_get e1 "UNI")) in
    replace (refs (lots_get e1 "UNI")) with l by (vm_compute; reflexivity).
    repeat (apply List.Forall_cons; [intros _; cbn; lia|]). apply List.Forall_nil.
  - vm_compute. discriminate.
  - vm_compute. reflexivity.
  - exact Hsum.
  - split; [exact Hclosed | exact Hte].
Defined.

(** * Further properties of the engine *)

(** * Further properties of the engine *)

(** ** What a disposal leaves alone *)

(** Two states of one lot: everything but the amount and the cost basis
    is the same. *)
Definition same_lot (old new : TaxLot.t) : Prop :=
  TaxLot.asset new = TaxLot.asset old /\
  TaxLot.acquired_date new = TaxLot.acquired_date old /\
  TaxLot.tx_hash new = TaxLot.tx_hash old /\
  TaxLot.protocol new = TaxLot.protocol old /\
  TaxLot.lot_id new = TaxLot.lot_id old.

#[global] Instance same_lot_preorder : PreOrder same_lot.
Proof.
  split.
  - intros lot. by repeat split.
  - intros a b c (A1 & A2 & A3 & A4 & A5) (B1 & B2 & B3 & B4 & B5).
    repeat split; congruence.
Qed.

(** The loop rewrites lots in place: the list keeps its length and every
    lot its place and its identity. *)
Lemma match_loop_same_lot asset amount proceeds_usd disposed_date tx_hash
    protocol event_type order : forall remaining store events,
  Forall2 same_lot store
    (match_loop asset amount proceeds_usd disposed_date tx_hash protocol
       event_type order remaining store events).1.1.
Proof.
  induction order as [|i rest IH]; intros remaining store events; simpl.
  { reflexivity. }
  destruct (dec_leb remaining 0); [reflexivity|].
  destruct (store !! i) as [lot|] eqn:Hi; [|apply IH].
  destruct (dec_leb (TaxLot.amount lot) 0); [apply IH|].
  etransitivity; [|apply IH].
  rewrite <- (list_insert_id store i lot Hi) at 1.
  apply Forall2_insert; [reflexivity|].
  by repeat split.
Qed.

(** What every event of a disposal carries from the call. *)
Definition event_of_call (asset : string) (disposed_date : datetime.t)
    (tx_hash protocol event_type : string) (e : TaxEvent.t) : Prop :=
  TaxEvent.asset e = asset /\
  TaxEvent.disposed_date e = disposed_date /\
  TaxEvent.tx_hash e = tx_hash /\
  TaxEvent.protocol e = protocol /\
  TaxEvent.event_type e = event_type /\
  (TaxEvent.holding_period e = "short" \/ TaxEvent.holding_period e = "long").

Lemma match_lot_of_call asset amount proceeds_usd disposed_date tx_hash protocol
    event_type remaining lot :
  event_of_call asset disposed_date tx_hash protocol event_type
    (match_lot asset amount proceeds_usd disposed_date tx_hash protocol
       event_type remaining lot).2.
Proof.
  unfold event_of_call. cbn.
  repeat (split; [reflexivity|]).
  destruct (365 <? _); [by right | by left].
Qed.

(** The effect of a disposal on the engine, whatever its arguments. *)
Lemma add_disposal_effect asset amount proceeds_usd disposed_date tx_hash
    protocol event_type self :
  let r := add_disposal asset amount proceeds_usd disposed_date tx_hash protocol
             event_type self in
  method r.2 = method self /\
  income_events r.2 = income_events self /\
  tax_events r.2 = tax_events self ++ r.1 /\
  (forall other, other <> asset -> lots_get r.2 other = lots_get self other) /\
  Forall2 same_lot (lots_get self asset) (lots_get r.2 asset) /\
  Forall (event_of_call asset disposed_date tx_hash protocol event_type) r.1.
Proof.
  unfold add_disposal.
  destruct (lots_get self asset) as [|l0 ls] eqn:E.
  { unfold lots_get in E |- *. cbn. rewrite E. repeat (split; [done|]).
    constructor; [|constructor].
    unfold event_of_call, fallback_event. cbn. repeat (split; [done|]). by left. }
  pose proof (match_loop_same_lot asset amount proceeds_usd disposed_date tx_hash
                protocol event_type
                (map fst (_sort_lots self (refs (l0 :: ls))
                            (if dec_ltb 0 amount then dec_div proceeds_usd amount
                             else 0)))
                amount (l0 :: ls) []) as Hsame.
  pose proof (match_loop_events_Forall asset amount proceeds_usd disposed_date
                tx_hash protocol event_type
                (event_of_call asset disposed_date tx_hash protocol event_type)
                (fun r l _ _ => match_lot_of_call asset amount proceeds_usd
                                  disposed_date tx_hash protocol event_type r l)
                (map fst (_sort_lots self (refs (l0 :: ls))
                            (if dec_ltb 0 amount then dec_div proceeds_usd amount
                             else 0)))
                amount (l0 :: ls) [] (Forall_nil_2 _)) as Hev.
  destruct (match_loop asset amount proceeds_usd disposed_date tx_hash protocol
              event_type _ amount (l0 :: ls) []) as [[store events] leftover].
  cbn [fst snd] in *. cbn.
  repeat (split; [done|]). split; [|split; [|done]].
  - intros other Hne. unfold lots_get. cbn. by rewrite lookup_insert_ne.
  - unfold lots_get at 1. cbn. by rewrite lookup_insert_eq.
Qed.

(** X1. A disposal, whatever its arguments, rewrites only the amounts and
    cost bases of the lots of its asset: the method and the income events
    stay, the lots of every other asset stay, the asset keeps the same
    number of lots, each in its place with its asset, acquisition date,
    transaction, protocol and lot id; the returned events are exactly what
    is appended to the tax events, and each carries the asset, date,
    transaction, protocol and event type of the call and the holding
    period "short" or "long". *)
Theorem add_disposal_frame asset amount proceeds_usd disposed_date tx_hash
    protocol event_type self :
  let r := add_disposal asset amount proceeds_usd disposed_date tx_hash protocol
             event_type self in
  method r.2 = method self /\
  income_events r.2 = income_events self /\
  tax_events r.2 = tax_events self ++ r.1 /\
  (forall other, other <> asset -> lots_get r.2 other = lots_get self other) /\
  Forall2 same_lot (lots_get self asset) (lots_get r.2 asset) /\
  Forall (event_of_call asset disposed_date tx_hash protocol event_type) r.1.
Proof.
  exact (add_disposal_effect asset amount proceeds_usd disposed_date tx_hash
           protocol event_type self).
Qed.

(** ** Income *)

Lemma lots_get_add_acquisition self asset amount usd date tx_hash protocol other :
  lots_get (add_acquisition self asset amount usd date tx_hash protocol).2 other
  = if decide (other = asset)
    then lots_get self asset
         ++ [(add_acquisition self asset amount usd date tx_hash protocol).1]
    else lots_get self other.
Proof.
  unfold lots_get at 1. cbn. destruct (decide (other = asset)) as [->|Hne].
  - by rewrite lookup_insert_eq.
  - by rewrite lookup_insert_ne.
Qed.

(** The lots after [add_income]: one lot more for the asset, built from
    the arguments. *)
Lemma add_income_lots self asset amount fmv_usd date tx_hash protocol income_type
    other :
  lots_get (add_income self asset amount fmv_usd date tx_hash protocol
              income_type).2 other
  = if decide (other = asset)
    then lots_get self asset
         ++ [TaxLot.mk asset amount fmv_usd date tx_hash protocol
               (str_take 8 tx_hash +:+ "-" +:+ asset +:+ "-"
                +:+ pretty (length (lots_get self asset)))]
    else lots_get self other.
Proof.
  unfold add_income. cbn [snd]. by rewrite lots_get_add_acquisition.
Qed.

Lemma sort_lots_singleton self (r : lot_ref) price : _sort_lots self [r] price = [r].
Proof.
  unfold _sort_lots. by repeat destruct (String.eqb _ _).
Qed.

Lemma dec_ltb_irrefl a : dec_ltb a a = false.
Proof.
  rewrite (dec_ltb_units a a (dexp a)) by lia. apply Z.ltb_irrefl.
Qed.

(** X2. Income received for an asset without lots, then disposed of whole:
    the disposal returns one event, for the whole amount, whose cost basis
    is the fair market value recorded with the income and whose
    acquisition date is the income date; the lot is left with amount 0 and
    cost basis 0. *)
Theorem income_value_is_cost_basis self asset amount fmv_usd date tx_hash protocol
    income_type proceeds_usd disposed_date tx_hash' protocol' event_type :
  lots_get self asset = [] ->
  0 < dcoeff amount -> 0 <= dcoeff fmv_usd < 10 ^ 28 ->
  let e1 := (add_income self asset amount fmv_usd date tx_hash protocol
               income_type).2 in
  let r := add_disposal asset amount proceeds_usd disposed_date tx_hash' protocol'
             event_type e1 in
  exists e,
    r.1 = [e] /\
    TaxEvent.amount_disposed e = amount /\
    dec_eqb (TaxEvent.cost_basis_usd e) fmv_usd = true /\
    TaxEvent.acquired_date e = date /\
    Forall exhausted (lots_get r.2 asset).
Proof.
  intros Hnone Ha Hc e1 r.
  pose proof (add_income_lots self asset amount fmv_usd date tx_hash protocol
                income_type asset) as Hlots.
  rewrite decide_True, Hnone in Hlots by done. cbn [app] in Hlots.
  fold e1 in Hlots.
  match type of Hlots with _ = [?l] => set (lot := l) in * end.
  assert (Hla : TaxLot.amount lot = amount) by done.
  assert (Hlc : TaxLot.cost_basis_usd lot = fmv_usd) by done.
  assert (Hld : TaxLot.acquired_date lot = date) by done.
  clearbody lot.
  assert (Hopen : dec_leb (TaxLot.amount lot) 0 = false).
  { rewrite dec_leb_0, Hla. apply Z.leb_gt. lia. }
  assert (Hrem : dec_leb amount 0 = false).
  { rewrite dec_leb_0. apply Z.leb_gt. lia. }
  set (m := match_lot asset amount proceeds_usd disposed_date tx_hash' protocol'
              event_type amount lot).
  assert (Hr : r = ([m.2],
                    mkEngine (method e1)
                      (<[asset := [TaxLot.consume lot m.1.1 m.1.2]]> (lots e1))
                      (tax_events e1 ++ [m.2]) (income_events e1))).
  { subst r. unfold add_disposal. rewrite Hlots.
    change (refs [lot]) with [(0%nat, lot)]. rewrite sort_lots_singleton.
    cbn [map fst].
    rewrite (match_loop_step asset amount proceeds_usd disposed_date tx_hash'
               protocol' event_type 0 [] amount [lot] [] lot) by done.
    reflexivity. }
  assert (Hd : m.1.1 = amount).
  { subst m. cbn. unfold py_min. by rewrite Hla, dec_ltb_irrefl. }
  destruct (match_lot_cost asset amount proceeds_usd disposed_date tx_hash'
              protocol' event_type amount lot) as (_ & _ & _ & _ & Heq);
    [lia | rewrite Hla; lia | rewrite Hlc; lia |].
  assert (Hcb : dec_eqb m.1.2 fmv_usd = true).
  { rewrite <- Hlc. apply Heq. change (dec_leb (TaxLot.amount lot) m.1.1 = true).
    rewrite Hd, Hla. apply dec_leb_refl. }
  exists m.2. rewrite Hr. cbn [fst snd].
  split; [done|]. split; [exact Hd|]. split; [exact Hcb|]. split; [by rewrite <- Hld|].
  unfold lots_get. cbn [lots]. rewrite lookup_insert_eq. cbn [default].
  constructor; [|constructor]. unfold exhausted, TaxLot.consume.
  cbn [TaxLot.amount TaxLot.cost_basis_usd]. split.
  - apply dec_sub_zero. rewrite Hd, Hla. apply dec_eqb_leb.
    split; apply dec_leb_refl.
  - apply dec_sub_zero. rewrite Hlc, dec_eqb_sym. exact Hcb.
Qed.

Lemma income_value_is_cost_basis_witness :
  exists e,
    (add_disposal "USDC" 25 30 Scenario.jul1 "0xd9" "aave" "swap"
       (add_income (__init__ "HIFO") "USDC" 25 25 Scenario.jan1 "0xi1" "aave"
          "interest").2).1 = [e] /\
    TaxEvent.amount_disposed e = dec_of_Z 25 /\
    dec_eqb (TaxEvent.cost_basis_usd e) 25 = true.
Proof.
  destruct (income_value_is_cost_basis (__init__ "HIFO") "USDC" 25 25
              Scenario.jan1 "0xi1" "aave" "interest" 30 Scenario.jul1 "0xd9"
              "aave" "swap") as (e & He & Ha & Hc & _).
  - reflexivity.
  - reflexivity.
  - cbn. lia.
  - exists e. by repeat split.
Defined.

(** ** Lots never grow *)

(** A lot of the ledger whose amount, too, has at most 28 digits. *)
Definition small_lot (lot : TaxLot.t) : Prop :=
  lot_ok lot /\ dcoeff (TaxLot.amount lot) < 10 ^ 28.

(** [new] holds no more than [old], in amount and in cost basis. *)
Definition not_more (old new : TaxLot.t) : Prop :=
  dec_leb (TaxLot.amount new) (TaxLot.amount old) = true /\
  dec_leb (TaxLot.cost_basis_usd new) (TaxLot.cost_basis_usd old) = true.

Lemma dec_leb_trans a b c :
  dec_leb a b = true -> dec_leb b c = true -> dec_leb a c = true.
Proof. rewrite !dval_le. apply Qle_trans. Qed.

#[global] Instance not_more_preorder : PreOrder not_more.
Proof.
  split.
  - intros lot. split; apply dec_leb_refl.
  - intros a b c [A1 A2] [B1 B2]. split; eapply dec_leb_trans; eauto.
Qed.

(** Taking [d], between 0 and [a], from [a] of at most 28 digits leaves
    no more than [a]. *)
Lemma dec_sub_le a d :
  0 <= dcoeff a < 10 ^ 28 -> 0 <= dcoeff d -> dec_leb d a = true ->
  dec_leb (dec_sub a d) a = true.
Proof.
  intros Ha Hd Hle. unfold dec_sub, dec_add.
  set (K := Z.min (dexp a) (dexp (dec_neg d))).
  set (x := mkDec (dcoeff a * 10 ^ (dexp a - K)
                   + dcoeff (dec_neg d) * 10 ^ (dexp (dec_neg d) - K)) K).
  assert (HK : K <= dexp a /\ K <= dexp d) by (subst K; simpl; lia).
  rewrite (dec_leb_units d a K) in Hle by lia. apply Z.leb_le in Hle.
  unfold units in Hle.
  assert (Hp : 0 <= 10 ^ (dexp d - K)) by (apply Z.pow_nonneg; lia).
  assert (Hx : dcoeff x = dcoeff a * 10 ^ (dexp a - K) - dcoeff d * 10 ^ (dexp d - K)).
  { subst x. simpl. lia. }
  destruct (dec_fix_mono x a) as [Hm _]; [lia | lia |].
  apply Hm. rewrite (dec_leb_units x a K) by (subst x; simpl; lia).
  apply Z.leb_le. unfold units at 1. rewrite Hx.
  change (dexp x) with K. rewrite Z.sub_diag, Z.mul_1_r. unfold units. nia.
Qed.

Lemma consume_not_more asset amount proceeds_usd disposed_date tx_hash protocol
    event_type remaining lot :
  0 < dcoeff remaining -> 0 < dcoeff (TaxLot.amount lot) -> small_lot lot ->
  let m := match_lot asset amount proceeds_usd disposed_date tx_hash protocol
             event_type remaining lot in
  not_more lot (TaxLot.consume lot m.1.1 m.1.2) /\
  small_lot (TaxLot.consume lot m.1.1 m.1.2).
Proof.
  intros Hr Ha [Hok Hsmall] m.
  pose proof Hok as Hok'. pose proof Hok as (_ & Hc & _).
  destruct (match_lot_cost asset amount proceeds_usd disposed_date tx_hash
              protocol event_type remaining lot Hr Ha Hc)
    as (Hd & Hle & Hcb0 & Hcb1 & _).
  fold m in Hd, Hle, Hcb0, Hcb1.
  destruct Hok as (Ha0 & _ & _).
  unfold not_more, small_lot, TaxLot.consume.
  cbn [TaxLot.amount TaxLot.cost_basis_usd].
  split; [split|split].
  - apply dec_sub_le; [lia | lia | done].
  - apply dec_sub_le; [lia | lia | done].
  - exact (consume_ok asset amount proceeds_usd disposed_date tx_hash protocol
             event_type remaining lot Hr Ha Hok').
  - pose proof (dec_sub_digits (TaxLot.amount lot) m.1.1). lia.
Qed.

Lemma match_loop_not_more asset amount proceeds_usd disposed_date tx_hash
    protocol event_type order : forall remaining store events,
  Forall small_lot store ->
  let res := match_loop asset amount proceeds_usd disposed_date tx_hash protocol
               event_type order remaining store events in
  Forall2 not_more store res.1.1 /\ Forall small_lot res.1.1.
Proof.
  induction order as [|i rest IH]; intros remaining store events Hst; simpl.
  { split; [reflexivity | done]. }
  destruct (dec_leb remaining 0) eqn:Hr; [split; [reflexivity | done]|].
  destruct (store !! i) as [lot|] eqn:Hi; [|by apply IH].
  destruct (dec_leb (TaxLot.amount lot) 0) eqn:Ha; [by apply IH|].
  rewrite dec_leb_0 in Hr, Ha. apply Z.leb_gt in Hr, Ha.
  destruct (consume_not_more asset amount proceeds_usd disposed_date tx_hash
              protocol event_type remaining lot Hr Ha) as [Hnm Hsm].
  { by eapply Forall_lookup_1. }
  match goal with
  | |- context [match_loop _ _ _ _ _ _ _ rest ?rem ?st ?ev] =>
      destruct (IH rem st ev) as [IH1 IH2]
  end.
  { by apply Forall_insert. }
  split; [|exact IH2].
  etransitivity; [|exact IH1].
  rewrite <- (list_insert_id store i lot Hi) at 1.
  apply Forall2_insert; [reflexivity | exact Hnm].
Qed.

(** X3. When the lots of an asset are valid and their amounts have at most
    28 digits, a disposal never increases a lot: lot by lot, the amount
    and the cost basis after the disposal are not above those before, and
    the lots stay valid with amounts of at most 28 digits. *)
Theorem disposal_never_increases_a_lot asset amount proceeds_usd disposed_date
    tx_hash protocol event_type self :
  Forall small_lot (lots_get self asset) ->
  let r := add_disposal asset amount proceeds_usd disposed_date tx_hash protocol
             event_type self in
  Forall2 not_more (lots_get self asset) (lots_get r.2 asset) /\
  Forall small_lot (lots_get r.2 asset).
Proof.
  intros Hsmall r. subst r. unfold add_disposal.
  destruct (lots_get self asset) as [|l0 ls] eqn:E.
  { unfold lots_get in E |- *. cbn. rewrite E. split; constructor. }
  match goal with
  | |- context [match_loop ?a ?b ?c ?d ?e ?f ?g ?o ?r ?s ?ev] =>
      pose proof (match_loop_not_more a b c d e f g o r s ev Hsmall) as H;
      destruct (match_loop a b c d e f g o r s ev) as [[st evs] rem]
  end.
  cbn [fst snd] in *. unfold lots_get. cbn. rewrite lookup_insert_eq. exact H.
Qed.

Lemma disposal_never_increases_a_lot_witness :
  Forall small_lot (lots_get Scenario.two_lots "UNI") /\
  Forall2 not_more (lots_get Scenario.two_lots "UNI")
    (lots_get Scenario.sell_15.2 "UNI").
Proof.
  assert (H : Forall small_lot (lots_get Scenario.two_lots "UNI")).
  { let l := eval vm_compute in (lots_get Scenario.two_lots "UNI") in
    replace (lots_get Scenario.two_lots "UNI") with l by (vm_compute; reflexivity).
    repeat (apply List.Forall_cons; [unfold small_lot, lot_ok; cbn; lia|]).
    apply List.Forall_nil. }
  split; [exact H|].
  apply (disposal_never_increases_a_lot "UNI" 15 300 Scenario.jul1 "0xd1"
           "uniswap" "swap" Scenario.two_lots H).
Defined.

(** The bound on the amount matters: a lot of 1.0000000000000000000000000009
    UNI (29 digits) from which 1E-40 UNI is taken holds
    1.000000000000000000000000001 UNI afterwards, more than before. *)
Example long_amount_grows :
  let e0 := __init__ "FIFO" in
  let e1 := (add_acquisition e0 "UNI" (mkDec 10000000000000000000000000009 (-28))
               1 Scenario.jan1 "0xa1" "uniswap").2 in
  let e2 := (add_disposal "UNI" (mkDec 1 (-40)) 1 Scenario.jun1 "0xd1" "uniswap"
               "swap" e1).2 in
  map TaxLot.amount (lots_get e2 "UNI") = [mkDec 1000000000000000000000000001 (-27)] /\
  dec_ltb (mkDec 10000000000000000000000000009 (-28))
          (mkDec 1000000000000000000000000001 (-27)) = true.
Proof. split; vm_compute; reflexivity. Qed.

(** ** The balance of amounts *)

(** The amount of the lot is not negative, lies on the grid [10^k] and
    has at most 28 digits there. *)
Definition amount_on_grid (k : Z) (lot : TaxLot.t) : Prop :=
  k <= dexp (TaxLot.amount lot) /\ 0 <= units k (TaxLot.amount lot) < 10 ^ 28.

Lemma sum_units_app k l1 l2 :
  sum_units k (l1 ++ l2) = sum_units k l1 + sum_units k l2.
Proof. induction l1 as [|d l1 IH]; simpl; lia. Qed.

Lemma sum_units_insert k (store : list TaxLot.t) i lot lot' :
  store !! i = Some lot ->
  sum_units k (map TaxLot.amount (<[i := lot']> store))
  = sum_units k (map TaxLot.amount store)
    - units k (TaxLot.amount lot) + units k (TaxLot.amount lot').
Proof.
  revert i. induction store as [|x store IH]; intros [|i] H; simpl in *; try done.
  - injection H as ->. lia.
  - rewrite (IH i H). lia.
Qed.

Lemma sum_units_amounts_nonneg k (store : list TaxLot.t) :
  Forall (amount_on_grid k) store -> 0 <= sum_units k (map TaxLot.amount store).
Proof.
  induction 1 as [|x store [_ Hx] _ IH]; simpl; lia.
Qed.

Lemma sum_units_amounts_zero k (store : list TaxLot.t) :
  Forall (fun lot => dcoeff (TaxLot.amount lot) = 0) store ->
  sum_units k (map TaxLot.amount store) = 0.
Proof.
  induction 1 as [|x store Hx _ IH]; simpl; [done|].
  unfold units at 1. rewrite Hx. lia.
Qed.

Section Balance.
Variables (asset : string) (amount proceeds_usd : Decimal)
          (disposed_date : datetime.t) (tx_hash protocol event_type : string).
Variable k : Z.

Abbreviation loop' :=
  (match_loop asset amount proceeds_usd disposed_date tx_hash protocol event_type).
Abbreviation matched'' remaining lot :=
  (match_lot asset amount proceeds_usd disposed_date tx_hash protocol
     event_type remaining lot).

(** What one iteration does to the amounts, on the grid: the amount taken
    is positive and is subtracted exactly from the lot and from what is
    left to dispose of. *)
Lemma match_lot_exact remaining lot :
  k <= dexp remaining -> 0 < units k remaining < 10 ^ 28 ->
  amount_on_grid k lot -> 0 < dcoeff (TaxLot.amount lot) ->
  let d := (matched'' remaining lot).1.1 in
  let lot' := TaxLot.consume lot d (matched'' remaining lot).1.2 in
  k <= dexp d /\ 0 < units k d /\
  units k d = Z.min (units k remaining) (units k (TaxLot.amount lot)) /\
  k <= dexp (dec_sub remaining d) /\
  units k (dec_sub remaining d) = units k remaining - units k d /\
  amount_on_grid k lot' /\
  units k (TaxLot.amount lot') = units k (TaxLot.amount lot) - units k d.
Proof.
  intros Hk Hr [Hka Hua] Ha d lot'.
  pose proof (units_pos k _ Hka Ha) as Hpos.
  assert (Hd : d = py_min remaining (TaxLot.amount lot)) by done.
  assert (Hkd : k <= dexp d /\
                units k d = Z.min (units k remaining) (units k (TaxLot.amount lot))).
  { rewrite Hd. unfold py_min.
    rewrite (dec_ltb_units (TaxLot.amount lot) remaining k) by done.
    destruct (Z.ltb_spec (units k (TaxLot.amount lot)) (units k remaining));
      split; try done; lia. }
  destruct Hkd as [Hkd Hud].
  destruct (dec_sub_exact k remaining d Hk Hkd) as [Hk1 Hu1]; [lia|].
  destruct (dec_sub_exact k (TaxLot.amount lot) d Hka Hkd) as [Hk2 Hu2]; [lia|].
  split; [done|]. split; [lia|]. split; [done|]. split; [done|]. split; [done|].
  unfold amount_on_grid. subst lot'. unfold TaxLot.consume.
  cbn [TaxLot.amount]. split; [|done]. split; [done|]. lia.
Qed.

(** The amounts through the loop: what the events take is what the lots
    lose and what the remainder loses; and if something is left to dispose
    of at the end, every lot the loop was given is empty. *)
Lemma match_loop_balance (order : list nat) : forall remaining store,
  Forall (amount_on_grid k) store ->
  k <= dexp remaining -> 0 <= units k remaining < 10 ^ 28 ->
  let res := loop' order remaining store [] in
  let taken := sum_units k (map TaxEvent.amount_disposed res.1.2) in
  Forall (amount_on_grid k) res.1.1 /\
  Forall (fun e => k <= dexp (TaxEvent.amount_disposed e) /\
                   0 < dcoeff (TaxEvent.amount_disposed e)) res.1.2 /\
  k <= dexp res.2 /\ 0 <= units k res.2 /\
  units k res.2 = units k remaining - taken /\
  sum_units k (map TaxLot.amount res.1.1)
  = sum_units k (map TaxLot.amount store) - taken /\
  (0 < units k res.2 ->
   forall i lot', i ∈ order -> res.1.1 !! i = Some lot' ->
                  dcoeff (TaxLot.amount lot') = 0).
Proof.
  induction order as [|i rest IH]; intros remaining store Hst Hk Hr.
  { cbv zeta. cbn [match_loop fst snd map]. change (sum_units k []) with 0.
    rewrite !Z.sub_0_r. repeat (split; [done || lia|]). intros _ i lot' Hi.
    by apply elem_of_nil in Hi. }
  destruct (dec_leb remaining 0) eqn:Hrem.
  { rewrite match_loop_nonpositive by done. cbv zeta. cbn [fst snd map].
    change (sum_units k []) with 0. rewrite !Z.sub_0_r.
    repeat (split; [done || lia|]). intros Hpos.
    rewrite dec_leb_0 in Hrem. apply Z.leb_le in Hrem.
    pose proof (units_sgn k remaining Hk). lia. }
  pose proof Hrem as Hrem'. rewrite dec_leb_0 in Hrem'. apply Z.leb_gt in Hrem'.
  pose proof (units_pos k remaining Hk Hrem') as Hrpos.
  destruct (store !! i) as [lot|] eqn:Hi.
  2:{ (* an index outside the list *)
    assert (E : loop' (i :: rest) remaining store [] = loop' rest remaining store []).
    { simpl. by rewrite Hrem, Hi. }
    rewrite E. destruct (IH remaining store Hst Hk Hr)
      as (H1 & H2 & H3 & H4 & H5 & H6 & H7).
    repeat (split; [done|]). intros Hpos j lot' Hj Hl.
    apply elem_of_cons in Hj as [-> | Hj]; [|by eapply H7].
    apply lookup_ge_None in Hi.
    pose proof (match_loop_length asset amount proceeds_usd disposed_date tx_hash
                  protocol event_type rest remaining store []) as Hlen.
    apply lookup_lt_Some in Hl. lia. }
  assert (Hlot : amount_on_grid k lot) by (by eapply Forall_lookup_1).
  destruct (dec_leb (TaxLot.amount lot) 0) eqn:Ha.
  { (* an empty lot *)
    rewrite (match_loop_skip asset amount proceeds_usd disposed_date tx_hash
               protocol event_type i rest remaining store [] lot) by done.
    destruct (IH remaining store Hst Hk Hr) as (H1 & H2 & H3 & H4 & H5 & H6 & H7).
    repeat (split; [done|]). intros Hpos j lot' Hj Hl.
    apply elem_of_cons in Hj as [-> | Hj]; [|by eapply H7].
    rewrite (match_loop_closed_stay asset amount proceeds_usd disposed_date tx_hash
               protocol event_type rest remaining store [] i lot Hi Ha) in Hl.
    injection Hl as <-.
    rewrite dec_leb_0 in Ha. apply Z.leb_le in Ha.
    destruct Hlot as [Hka Hua]. pose proof (units_sgn k _ Hka). lia. }
  (* an open lot *)
  pose proof Ha as Ha'. rewrite dec_leb_0 in Ha'. apply Z.leb_gt in Ha'.
  rewrite (match_loop_step asset amount proceeds_usd disposed_date tx_hash
             protocol event_type i rest remaining store [] lot) by done.
  destruct (match_lot_exact remaining lot Hk ltac:(lia) Hlot Ha')
    as (Hkd & Hdpos & Hud & Hk1 & Hu1 & Hlot' & Hu2).
  set (m := matched'' remaining lot) in *.
  set (lot' := TaxLot.consume lot m.1.1 m.1.2) in *.
  rewrite match_loop_events_app. cbn [fst snd app].
  destruct (IH (dec_sub remaining m.1.1) (<[i := lot']> store))
    as (H1 & H2 & H3 & H4 & H5 & H6 & H7).
  { by apply Forall_insert. }
  { done. }
  { lia. }
  set (res := loop' rest (dec_sub remaining m.1.1) (<[i := lot']> store) []) in *.
  assert (Hev : TaxEvent.amount_disposed m.2 = m.1.1) by done.
  cbn [map]. rewrite sum_units_cons, Hev.
  split; [done|]. split.
  { constructor; [|done]. rewrite Hev. split; [done|].
    pose proof (units_sgn k m.1.1 Hkd). lia. }
  split; [done|]. split; [done|]. split; [lia|]. split.
  { rewrite H6, (sum_units_insert k store i lot lot' Hi). lia. }
  intros Hpos j lot'' Hj Hl.
  apply elem_of_cons in Hj as [-> | Hj]; [|by eapply H7].
  destruct (Z.eq_dec (units k (TaxLot.amount lot')) 0) as [Hz|Hnz].
  - (* the lot was taken whole, and stays empty *)
    assert (Hc : dec_leb (TaxLot.amount lot') 0 = true).
    { rewrite dec_leb_0. apply Z.leb_le. destruct Hlot' as [Hk' _].
      pose proof (units_sgn k _ Hk'). lia. }
    assert (Hi' : <[i := lot']> store !! i = Some lot').
    { apply list_lookup_insert_eq. by eapply lookup_lt_Some. }
    subst res.
    rewrite (match_loop_closed_stay asset amount proceeds_usd disposed_date tx_hash
               protocol event_type rest (dec_sub remaining m.1.1)
               (<[i := lot']> store) [] i lot' Hi' Hc) in Hl.
    injection Hl as <-. rewrite dec_leb_0 in Hc. apply Z.leb_le in Hc.
    destruct Hlot' as [Hk' Hu']. pose proof (units_sgn k _ Hk'). lia.
  - (* part of the lot was taken: nothing is left to dispose of *)
    assert (Hz : units k (dec_sub remaining m.1.1) = 0) by lia.
    assert (Hc : dec_leb (dec_sub remaining m.1.1) 0 = true).
    { rewrite dec_leb_0. apply Z.leb_le.
      pose proof (units_sgn k _ Hk1). lia. }
    subst res. rewrite match_loop_nonpositive in Hpos by done.
    cbn [snd] in Hpos. lia.
Qed.
End Balance.

Lemma sort_lots_covers self (l : list TaxLot.t) price i :
  (i < length l)%nat -> i ∈ map fst (_sort_lots self (refs l) price).
Proof.
  intros Hi. rewrite (sort_lots_perm self (refs l) price), refs_fst.
  apply elem_of_seq. lia.
Qed.

(** X4. The lots of the asset have amounts that are not negative, on a
    grid [10^k] with at most 28 digits, and so has the requested amount.
    Then one disposal keeps the books on amounts exactly: the amounts of
    the returned events are positive, the lots lose in total what the
    events take, and the events take the requested amount when the lots
    hold at least that much and everything the lots hold otherwise. *)
Theorem disposal_amounts_balance asset amount proceeds_usd disposed_date tx_hash
    protocol event_type self k :
  lots_get self asset <> [] ->
  Forall (amount_on_grid k) (lots_get self asset) ->
  k <= dexp amount -> 0 <= units k amount < 10 ^ 28 ->
  let r := add_disposal asset amount proceeds_usd disposed_date tx_hash protocol
             event_type self in
  let before := exact_sum (map TaxLot.amount (lots_get self asset)) in
  let after := exact_sum (map TaxLot.amount (lots_get r.2 asset)) in
  let taken := exact_sum (map TaxEvent.amount_disposed r.1) in
  Forall (fun e => dec_ltb 0 (TaxEvent.amount_disposed e) = true) r.1 /\
  (after == before - taken)%Q /\
  ((dval amount <= before)%Q -> (taken == dval amount)%Q) /\
  ((before <= dval amount)%Q -> (taken == before)%Q).
Proof.
  intros Hne Hgrid Hk Hamt r before after taken.
  set (order := map fst (_sort_lots self (refs (lots_get self asset))
                           (if dec_ltb 0 amount then dec_div proceeds_usd amount
                            else 0))).
  destruct (match_loop_balance asset amount proceeds_usd disposed_date tx_hash
              protocol event_type k order amount (lots_get self asset)
              Hgrid Hk Hamt) as (H1 & H2 & H3 & H4 & H5 & H6 & H7).
  assert (Hr : r.1 = (match_loop asset amount proceeds_usd disposed_date tx_hash
                        protocol event_type order amount (lots_get self asset) []).1.2
               /\ lots_get r.2 asset
                  = (match_loop asset amount proceeds_usd disposed_date tx_hash
                       protocol event_type order amount (lots_get self asset) []).1.1).
  { subst r order. unfold add_disposal.
    destruct (lots_get self asset) as [|l0 ls] eqn:E; [done|].
    destruct (match_loop asset amount proceeds_usd disposed_date tx_hash protocol
                event_type _ amount (l0 :: ls) []) as [[st evs] rem].
    cbn [fst snd]. split; [done|]. unfold lots_get. cbn [lots].
    by rewrite lookup_insert_eq. }
  destruct Hr as [Hr1 Hr2].
  set (res := match_loop asset amount proceeds_usd disposed_date tx_hash protocol
                event_type order amount (lots_get self asset) []) in *.
  set (U0 := sum_units k (map TaxLot.amount (lots_get self asset))) in *.
  set (U1 := sum_units k (map TaxLot.amount res.1.1)) in *.
  set (D := sum_units k (map TaxEvent.amount_disposed res.1.2)) in *.
  (* in units of the grid *)
  assert (Hbefore : (before == inject_Z U0 * inject_Z 10 ^ k)%Q).
  { subst before U0. apply exact_sum_as_units. apply Forall_fmap.
    eapply Forall_impl; [exact Hgrid|]. by intros lot [Hl _]. }
  assert (Hafter : (after == inject_Z U1 * inject_Z 10 ^ k)%Q).
  { subst after U1. rewrite Hr2. apply exact_sum_as_units. apply Forall_fmap.
    eapply Forall_impl; [exact H1|]. by intros lot [Hl _]. }
  assert (Htaken : (taken == inject_Z D * inject_Z 10 ^ k)%Q).
  { subst taken D. rewrite Hr1. apply exact_sum_as_units. apply Forall_fmap.
    eapply Forall_impl; [exact H2|]. by intros e [He _]. }
  assert (Hamount : (dval amount == inject_Z (units k amount) * inject_Z 10 ^ k)%Q)
    by (by apply dval_units).
  pose proof (sum_units_amounts_nonneg k _ H1) as HU1. fold U1 in HU1.
  (* either nothing is left to dispose of, or every lot is empty *)
  assert (Hmin : D = Z.min (units k amount) U0).
  { destruct (Z.eq_dec (units k res.2) 0) as [Hz|Hnz]; [lia|].
    assert (Hzero : U1 = 0).
    { subst U1. apply sum_units_amounts_zero. apply Forall_lookup.
      intros i lot' Hl. apply (H7 ltac:(lia) i lot'); [|done].
      subst order. apply sort_lots_covers.
      apply lookup_lt_Some in Hl.
      pose proof (match_loop_length asset amount proceeds_usd disposed_date tx_hash
                    protocol event_type
                    (map fst (_sort_lots self (refs (lots_get self asset))
                                (if dec_ltb 0 amount
                                 then dec_div proceeds_usd amount else 0)))
                    amount (lots_get self asset) []) as Hlen.
      fold res in Hlen. lia. }
    lia. }
  split; [|split; [|split]].
  - rewrite Hr1. eapply Forall_impl; [exact H2|]. intros e [_ He].
    rewrite dec_ltb_0. by apply Z.ltb_lt.
  - rewrite Hafter, Hbefore, Htaken, H6.
    unfold Z.sub. rewrite inject_Z_plus, inject_Z_opp. ring.
  - intros Hle. rewrite Htaken, Hamount.
    rewrite Hamount, Hbefore in Hle.
    rewrite Qmult_le_r in Hle by apply pow10Q_pos. rewrite <- Zle_Qle in Hle.
    replace D with (units k amount) by lia. reflexivity.
  - intros Hle. rewrite Htaken, Hbefore.
    rewrite Hamount, Hbefore in Hle.
    rewrite Qmult_le_r in Hle by apply pow10Q_pos. rewrite <- Zle_Qle in Hle.
    replace D with U0 by lia. reflexivity.
Qed.

Lemma disposal_amounts_balance_witness :
  let before := exact_sum (map TaxLot.amount (lots_get Scenario.two_lots "UNI")) in
  let after := exact_sum (map TaxLot.amount (lots_get Scenario.sell_15.2 "UNI")) in
  let taken := exact_sum (map TaxEvent.amount_disposed Scenario.sell_15.1) in
  (dval (dec_of_Z 15) <= before)%Q /\
  (taken == dval (dec_of_Z 15))%Q /\ (after == before - taken)%Q.
Proof.
  intros before after taken.
  assert (Hle : (dval (dec_of_Z 15) <= before)%Q) by (vm_compute; discriminate).
  split; [exact Hle|].
  destruct (disposal_amounts_balance "UNI" 15 300 Scenario.jul1 "0xd1" "uniswap"
              "swap" Scenario.two_lots 0) as (_ & Hbal & Hreq & _).
  - vm_compute. discriminate.
  - let l := eval vm_compute in (lots_get Scenario.two_lots "UNI") in
    replace (lots_get Scenario.two_lots "UNI") with l by (vm_compute; reflexivity).
    repeat (apply List.Forall_cons; [unfold amount_on_grid, units; cbn; lia|]).
    apply List.Forall_nil.
  - cbn. lia.
  - unfold units. cbn. lia.
  - split; [exact (Hreq Hle) | exact Hbal].
Defined.

(** ** Bounds on the events of a disposal *)

(** The event takes a positive amount, not above the requested one; its
    proceeds lie between 0 and the proceeds of the call; its cost basis is
    not negative; its gain is the difference of the two. *)
Definition event_in_bounds (amount proceeds_usd : Decimal) (e : TaxEvent.t) : Prop :=
  dec_ltb 0 (TaxEvent.amount_disposed e) = true /\
  dec_leb (TaxEvent.amount_disposed e) amount = true /\
  dec_leb 0 (TaxEvent.proceeds_usd e) = true /\
  dec_leb (TaxEvent.proceeds_usd e) proceeds_usd = true /\
  dec_leb 0 (TaxEvent.cost_basis_usd e) = true /\
  TaxEvent.gain_loss_usd e
  = dec_sub (TaxEvent.proceeds_usd e) (TaxEvent.cost_basis_usd e).

Section EventBounds.
Variables (asset : string) (amount proceeds_usd : Decimal)
          (disposed_date : datetime.t) (tx_hash protocol event_type : string).
Hypothesis amount_pos : 0 < dcoeff amount < 10 ^ 28.
Hypothesis proceeds_nonneg : 0 <= dcoeff proceeds_usd < 10 ^ 28.

Lemma match_lot_in_bounds remaining lot :
  0 < dcoeff remaining -> dec_leb remaining amount = true ->
  0 < dcoeff (TaxLot.amount lot) -> lot_ok lot ->
  event_in_bounds amount proceeds_usd
    (match_lot asset amount proceeds_usd disposed_date tx_hash protocol
       event_type remaining lot).2.
Proof.
  intros Hr Hle Ha (_ & Hc & _).
  destruct (match_lot_cost asset amount proceeds_usd disposed_date tx_hash
              protocol event_type remaining lot Hr Ha Hc)
    as (Hd & _ & Hcb0 & _ & _).
  destruct (py_min_spec remaining (TaxLot.amount lot)) as (_ & _ & Hdr).
  set (m := match_lot asset amount proceeds_usd disposed_date tx_hash protocol
              event_type remaining lot) in *.
  assert (Hdm : m.1.1 = py_min remaining (TaxLot.amount lot)) by done.
  rewrite <- Hdm in Hdr.
  assert (Hda : dec_leb m.1.1 amount = true) by (by eapply dec_leb_trans).
  assert (Hamt : dec_ltb 0 amount = true) by (rewrite dec_ltb_0; apply Z.ltb_lt; lia).
  assert (Hp : TaxEvent.proceeds_usd m.2
               = dec_mul proceeds_usd (dec_div m.1.1 amount)).
  { subst m. cbn. by rewrite Hamt. }
  destruct (dec_div_le_1 m.1.1 amount Hd ltac:(lia) Hda) as (Hq0 & Hq1 & _).
  destruct (dec_mul_le_1 proceeds_usd (dec_div m.1.1 amount) proceeds_nonneg Hq0 Hq1)
    as (Hp0 & Hp1 & _).
  unfold event_in_bounds. rewrite Hp.
  change (TaxEvent.amount_disposed m.2) with m.1.1.
  change (TaxEvent.cost_basis_usd m.2) with m.1.2.
  split; [rewrite dec_ltb_0; by apply Z.ltb_lt|]. split; [done|].
  split; [rewrite dec_leb_0_l; by apply Z.leb_le|]. split; [done|].
  split; [rewrite dec_leb_0_l; by apply Z.leb_le|].
  subst m. cbn. by rewrite Hamt.
Qed.

Lemma match_loop_in_bounds order : forall remaining store events,
  Forall lot_ok store ->
  0 <= dcoeff remaining < 10 ^ 28 -> dec_leb remaining amount = true ->
  Forall (event_in_bounds amount proceeds_usd) events ->
  Forall (event_in_bounds amount proceeds_usd)
    (match_loop asset amount proceeds_usd disposed_date tx_hash protocol
       event_type order remaining store events).1.2.
Proof.
  induction order as [|i rest IH]; intros remaining store events Hst Hr Hle Hev;
    simpl; [done|].
  destruct (dec_leb remaining 0) eqn:Hrem; [done|].
  destruct (store !! i) as [lot|] eqn:Hi; [|by apply IH].
  destruct (dec_leb (TaxLot.amount lot) 0) eqn:Ha; [by apply IH|].
  rewrite dec_leb_0 in Hrem, Ha. apply Z.leb_gt in Hrem, Ha.
  assert (Hlot : lot_ok lot) by (by eapply Forall_lookup_1).
  destruct (py_min_spec remaining (TaxLot.amount lot)) as (Hmin & _ & Hdr).
  assert (Hd0 : 0 < dcoeff (py_min remaining (TaxLot.amount lot))).
  { destruct Hmin as [-> | ->]; done. }
  apply IH.
  - apply Forall_insert; [done|].
    by apply (consume_ok asset amount proceeds_usd disposed_date tx_hash protocol
                event_type remaining lot).
  - split; [by apply dec_sub_nonneg|].
    pose proof (dec_sub_digits remaining (py_min remaining (TaxLot.amount lot))).
    cbn. lia.
  - eapply dec_leb_trans; [|exact Hle]. cbn. apply dec_sub_le; [lia | lia | done].
  - apply Forall_app. split; [done|]. constructor; [|constructor].
    by apply match_lot_in_bounds.
Qed.
End EventBounds.

(** X5. The asset has lots, all valid; the requested amount is positive
    and the proceeds are not negative, both of at most 28 digits.  Then
    every event of the disposal takes a positive amount not above the
    requested one, is given proceeds between 0 and the proceeds of the
    call and a cost basis that is not negative, and its gain is its
    proceeds less its cost basis. *)
Theorem disposal_events_in_bounds asset amount proceeds_usd disposed_date tx_hash
    protocol event_type self :
  lots_get self asset <> [] -> Forall lot_ok (lots_get self asset) ->
  0 < dcoeff amount < 10 ^ 28 -> 0 <= dcoeff proceeds_usd < 10 ^ 28 ->
  Forall (event_in_bounds amount proceeds_usd)
    (add_disposal asset amount proceeds_usd disposed_date tx_hash protocol
       event_type self).1.
Proof.
  intros Hne Hok Ha Hp. unfold add_disposal.
  destruct (lots_get self asset) as [|l0 ls] eqn:E; [done|].
  match goal with
  | |- context [match_loop ?a ?b ?c ?d ?e ?f ?g ?o ?r ?s ?ev] =>
      pose proof (match_loop_in_bounds a b c d e f g Ha Hp o r s ev Hok
                    ltac:(lia) (dec_leb_refl _) (Forall_nil_2 _)) as H;
      destruct (match_loop a b c d e f g o r s ev) as [[st evs] rem]
  end.
  exact H.
Qed.

Lemma disposal_events_in_bounds_witness :
  lots_get Scenario.two_lots "UNI" <> [] /\
  Forall (event_in_bounds 15 300) Scenario.sell_15.1.
Proof.
  assert (Hne : lots_get Scenario.two_lots "UNI" <> []) by (vm_compute; discriminate).
  split; [exact Hne|].
  apply (disposal_events_in_bounds "UNI" 15 300 Scenario.jul1 "0xd1" "uniswap"
           "swap" Scenario.two_lots Hne).
  - let l := eval vm_compute in (lots_get Scenario.two_lots "UNI") in
    replace (lots_get Scenario.two_lots "UNI") with l by (vm_compute; reflexivity).
    repeat (apply List.Forall_cons; [unfold lot_ok; cbn; lia|]).
    apply List.Forall_nil.
  - cbn. lia.
  - cbn. lia.
Defined.

(** ** The ledger along a sequence of operations *)

(** [new] is [old] with lots rewritten in place and lots appended. *)
Definition lots_extend (old new : list TaxLot.t) : Prop :=
  exists kept added, new = kept ++ added /\ Forall2 same_lot old kept.

#[global] Instance lots_extend_preorder : PreOrder lots_extend.
Proof.
  split.
  - intros l. exists l, []. by rewrite app_nil_r.
  - intros a b c (k1 & a1 & -> & H1) (k2 & a2 & -> & H2).
    apply Forall2_app_inv_l in H2 as (k21 & k22 & H21 & H22 & ->).
    exists k21, (k22 ++ a2). split; [by rewrite app_assoc|].
    by etransitivity.
Qed.

(** Every tax event carries the holding period "short" or "long". *)
Definition classified (e : TaxEvent.t) : Prop :=
  TaxEvent.holding_period e = "short" \/ TaxEvent.holding_period e = "long".

Definition is_income (op : operation) : bool :=
  match op with Income _ _ _ _ _ _ _ => true | _ => false end.

Lemma apply_op_effect self op :
  method (apply_op self op) = method self /\
  (exists evs, tax_events (apply_op self op) = tax_events self ++ evs /\
               Forall classified evs) /\
  (exists inc, income_events (apply_op self op) = income_events self ++ inc /\
               (is_income op = false -> inc = [])) /\
  (forall asset, lots_extend (lots_get self asset) (lots_get (apply_op self op) asset)).
Proof.
  destruct op as [a amt usd d tx p | a amt usd d tx p et | a amt usd d tx p it];
    cbn [apply_op is_income].
  - split; [done|]. split; [exists []; by rewrite app_nil_r|].
    split; [exists []; by rewrite app_nil_r|].
    intros asset. rewrite lots_get_add_acquisition.
    destruct (decide (asset = a)) as [->|Hne]; [|reflexivity].
    eexists (lots_get self a), [_]. split; [reflexivity | reflexivity].
  - destruct (add_disposal_effect a amt usd d tx p et self)
      as (Hm & Hi & Ht & Hother & Hsame & Hev).
    split; [done|]. split.
    { eexists. split; [exact Ht|]. eapply Forall_impl; [exact Hev|].
      by intros e (_ & _ & _ & _ & _ & H). }
    split; [exists []; by rewrite app_nil_r|].
    intros asset. destruct (decide (asset = a)) as [->|Hne].
    + eexists _, []. rewrite app_nil_r. split; [reflexivity | exact Hsame].
    + rewrite Hother by done. reflexivity.
  - split; [done|]. split; [exists []; by rewrite app_nil_r|].
    split; [by eexists [_]|].
    intros asset. rewrite add_income_lots.
    destruct (decide (asset = a)) as [->|Hne]; [|reflexivity].
    eexists (lots_get self a), [_]. split; [reflexivity | reflexivity].
Qed.

Lemma run_effect ops : forall self,
  method (run ops self) = method self /\
  (exists evs, tax_events (run ops self) = tax_events self ++ evs /\
               Forall classified evs) /\
  (exists inc, income_events (run ops self) = income_events self ++ inc /\
               (forallb (fun op => negb (is_income op)) ops = true -> inc = [])) /\
  (forall asset, lots_extend (lots_get self asset) (lots_get (run ops self) asset)).
Proof.
  induction ops as [|op ops IH]; intros self; cbn [run fold_left forallb].
  { split; [done|]. split; [exists []; by rewrite app_nil_r|].
    split; [exists []; by rewrite app_nil_r|]. intros asset. reflexivity. }
  destruct (apply_op_effect self op) as (Hm & (ev1 & Ht1 & Hc1) & (in1 & Hi1 & Hn1) & Hl1).
  destruct (IH (apply_op self op)) as (Hm' & (ev2 & Ht2 & Hc2) & (in2 & Hi2 & Hn2) & Hl2).
  fold (run ops (apply_op self op)).
  split; [congruence|]. split; [|split].
  - exists (ev1 ++ ev2). rewrite Ht2, Ht1, app_assoc. split; [done|].
    by apply Forall_app.
  - exists (in1 ++ in2). rewrite Hi2, Hi1, app_assoc. split; [done|].
    intros H. apply andb_true_iff in H as [H1 H2].
    apply negb_true_iff in H1. by rewrite Hn1, Hn2.
  - intros asset. etransitivity; [apply Hl1 | apply Hl2].
Qed.

(** X6. The ledger is append-only along every sequence of operations:
    the method stays, the tax events and the income events of the start
    are a prefix of those at the end, and for every asset the lots of the
    start are still there, in the same places and with the same asset,
    acquisition date, transaction, protocol and lot id, followed by the
    lots added since.  No lot is ever deleted, moved or given to another
    asset. *)
Theorem ledger_is_append_only ops self :
  method (run ops self) = method self /\
  (exists evs, tax_events (run ops self) = tax_events self ++ evs) /\
  (exists inc, income_events (run ops self) = income_events self ++ inc) /\
  (forall asset,
      exists kept added,
        lots_get (run ops self) asset = kept ++ added /\
        Forall2 same_lot (lots_get self asset) kept).
Proof.
  destruct (run_effect ops self) as (Hm & (evs & Ht & _) & (inc & Hi & _) & Hl).
  split; [done|]. split; [by exists evs|]. split; [by exists inc|].
  intros asset. apply Hl.
Qed.

(** ** The summary *)

Lemma py_sum_nil : py_sum [] = PyInt 0.
Proof. reflexivity. Qed.

Lemma fold_py_add_dec l : forall d,
  exists d', fold_left (fun acc x => py_add acc (PyDec x)) l (PyDec d) = PyDec d'.
Proof.
  induction l as [|x l IH]; intros d; simpl; [by eexists|]. apply IH.
Qed.

(** The sum of a list that is not empty is a [Decimal]. *)
Lemma py_sum_cons x l : exists d, py_sum (x :: l) = PyDec d.
Proof. unfold py_sum. simpl. apply fold_py_add_dec. Qed.

(** What [py_quantize_str] returns is the text of the quantized operand. *)
Lemma py_quantize_str_ok x m t :
  py_quantize_str x m = Ok t ->
  exists d q, x = PyDec d /\ quantize d (-2) m = Some q /\ t = quantized_str d q.
Proof.
  destruct x as [n|d]; [done|]. unfold py_quantize_str, py_quantize.
  destruct (quantize d (-2) m) as [q|] eqn:E; [|done].
  cbn. intros [= <-]. by exists d, q.
Qed.

Lemma py_sum_quantize_ok l m t : py_quantize_str (py_sum l) m = Ok t -> l <> [].
Proof. intros H ->. done. Qed.

(** The steps of [generate_summary], in order. *)
Lemma generate_summary_ok self tax_year s :
  generate_summary self tax_year = Ok s ->
  let events := in_year TaxEvent.disposed_date tax_year (tax_events self) in
  let income := in_year IncomeEvent.date tax_year (income_events self) in
  exists st lt net inc by_type,
    py_quantize_str
      (py_sum (map TaxEvent.gain_loss_usd (with_period "short" events)))
      ROUND_HALF_UP = Ok st /\
    py_quantize_str
      (py_sum (map TaxEvent.gain_loss_usd (with_period "long" events)))
      ROUND_HALF_UP = Ok lt /\
    py_quantize_str (py_sum (map IncomeEvent.fair_market_value_usd income))
      ROUND_HALF_UP = Ok inc /\
    _group_income_by_type income = Ok by_type /\
    s = mkSummary tax_year (method self)
          st (length (with_period "short" events))
          lt (length (with_period "long" events))
          net
          inc (length income) by_type
          (list_to_set (map TaxEvent.protocol events
                        ++ map IncomeEvent.protocol income))
          (length events).
Proof.
  intros H. cbv zeta. unfold generate_summary in H.
  destruct (py_quantize_str (py_sum (map TaxEvent.gain_loss_usd
              (with_period "short" _))) ROUND_HALF_UP) as [st|] eqn:E1;
    [|done].
  destruct (py_quantize_str (py_sum (map TaxEvent.gain_loss_usd
              (with_period "long" _))) ROUND_HALF_UP) as [lt|] eqn:E2;
    [|done].
  cbn [mbind result_bind] in H.
  destruct (py_quantize_str (py_add _ _) ROUND_HALF_UP) as [net|] eqn:E3; [|done].
  destruct (py_quantize_str (py_sum (map IncomeEvent.fair_market_value_usd _))
              ROUND_HALF_UP) as [inc|] eqn:E4; [|done].
  cbn [mbind result_bind] in H.
  destruct (_group_income_by_type _) as [by_type|] eqn:E5; [|done].
  cbn [mbind result_bind] in H. injection H as <-.
  by exists st, lt, net, inc, by_type.
Qed.

Lemma map_eq_nil_inv {A B} (f : A -> B) l : map f l <> [] -> l <> [].
Proof. by intros H ->. Qed.

(** X7. [generate_summary] returns a report only for a ledger that holds,
    in the requested year, at least one short-term event, at least one
    long-term event and at least one income event: the total of an empty
    category is the integer 0 of [sum], which has no [quantize], so the
    call raises instead. *)
Theorem summary_needs_every_category self tax_year s :
  generate_summary self tax_year = Ok s ->
  let events := in_year TaxEvent.disposed_date tax_year (tax_events self) in
  with_period "short" events <> [] /\
  with_period "long" events <> [] /\
  in_year IncomeEvent.date tax_year (income_events self) <> [].
Proof.
  intros H events.
  destruct (generate_summary_ok self tax_year s H)
    as (st & lt & net & inc & by_type & E1 & E2 & E4 & _).
  apply py_sum_quantize_ok, map_eq_nil_inv in E1, E2, E4. done.
Qed.

(** A ledger with a long-term event, a short-term event and an income
    event in 2024. *)
Module Sample.
Definition ops : list operation :=
  [ Acquisition "UNI" 10 50 (datetime.date 2023 1 1) "0xa1" "uniswap";
    Acquisition "UNI" 10 100 Scenario.jun1 "0xa2" "uniswap";
    Disposal "UNI" 15 300 Scenario.jul1 "0xd1" "uniswap" "swap";
    Income "USDC" 25 (mkDec 2505 (-2)) (datetime.date 2024 2 1) "0xi1" "aave"
      "interest" ].
Definition ledger : TaxEngine := run ops (__init__ "fifo").
Definition report : Summary :=
  mkSummary (Some 2024) "FIFO" "50.00" 1 "150.00" 1 "200.00" "25.05" 1
    [("interest", "25.05")] (list_to_set ["uniswap"; "uniswap"; "aave"]) 2.
End Sample.

Example sample_report : generate_summary Sample.ledger (Some 2024) = Ok Sample.report.
Proof. vm_compute. reflexivity. Qed.

Lemma summary_needs_every_category_witness :
  generate_summary Sample.ledger (Some 2024) = Ok Sample.report /\
  in_year IncomeEvent.date (Some 2024) (income_events Sample.ledger) <> [].
Proof.
  split; [exact sample_report|].
  apply (summary_needs_every_category Sample.ledger (Some 2024) Sample.report).
  exact sample_report.
Defined.

(** X8. A ledger built by acquisitions and disposals only, that is
    without a call of [add_income], has no income event, and
    [generate_summary] raises on it for every tax year. *)
Theorem summary_without_income_raises cost_basis_method ops tax_year :
  forallb (fun op => negb (is_income op)) ops = true ->
  income_events (run ops (__init__ cost_basis_method)) = [] /\
  exists e, generate_summary (run ops (__init__ cost_basis_method)) tax_year
            = Raise e.
Proof.
  intros Hops.
  destruct (run_effect ops (__init__ cost_basis_method))
    as (_ & _ & (inc & Hi & Hn) & _).
  rewrite (Hn Hops) in Hi. cbn in Hi. split; [exact Hi|].
  destruct (generate_summary _ tax_year) as [s|e] eqn:E; [|by exists e].
  destruct (generate_summary_ok _ tax_year s E)
    as (st & lt & net & inc' & by_type & _ & _ & E4 & _).
  apply py_sum_quantize_ok, map_eq_nil_inv in E4.
  rewrite Hi in E4. by destruct tax_year as [y|]; [cbn in E4; destruct (y =? 0)|].
Qed.

Lemma summary_without_income_raises_witness :
  let ops := [ Acquisition "UNI" 10 50 Scenario.jan1 "0xa1" "uniswap";
               Acquisition "UNI" 10 100 Scenario.jun1 "0xa2" "uniswap";
               Disposal "UNI" 15 300 Scenario.jul1 "0xd1" "uniswap" "swap" ] in
  forallb (fun op => negb (is_income op)) ops = true /\
  exists e, generate_summary (run ops (__init__ "FIFO")) (Some 2024) = Raise e.
Proof.
  intros ops. split; [reflexivity|].
  apply (summary_without_income_raises "FIFO" ops (Some 2024)). reflexivity.
Defined.

Lemma Forall_filter_list {A} (P : A -> Prop) (f : A -> bool) (l : list A) :
  Forall P l -> Forall P (List.filter f l).
Proof.
  induction 1 as [|x l Hx _ IH]; simpl; [done|].
  destruct (f x); [by constructor | done].
Qed.

Lemma in_year_Forall {A} (P : A -> Prop) (date : A -> datetime.t) tax_year l :
  Forall P l -> Forall P (in_year date tax_year l).
Proof.
  intros H. unfold in_year. destruct tax_year as [y|]; [|done].
  destruct (y =? 0); [done|]. by apply Forall_filter_list.
Qed.

(** Events that are all "short" or "long" fall into exactly one of the two
    categories of the summary. *)
Lemma with_period_partition events :
  Forall classified events ->
  (length (with_period "short" events) + length (with_period "long" events)
   = length events)%nat.
Proof.
  unfold with_period.
  induction 1 as [|e events [He|He] _ IH]; simpl; [done| |]; rewrite He; simpl; lia.
Qed.

(** X9. On a ledger built from a new engine by any sequence of
    operations, a summary that is returned counts every event of the year
    once, as short-term or as long-term: the two counts add up to the
    number of events of the year; the income count is the number of income
    events of the year; for an engine constructed with an ASCII method
    name, the method shown is that name in upper case. *)
Theorem summary_counts_add_up cost_basis_method ops tax_year s :
  let self := run ops (__init__ cost_basis_method) in
  generate_summary self tax_year = Ok s ->
  (short_term_events s + long_term_events s = total_transactions s)%nat /\
  total_transactions s
  = length (in_year TaxEvent.disposed_date tax_year (tax_events self)) /\
  income_count s
  = length (in_year IncomeEvent.date tax_year (income_events self)) /\
  (isascii cost_basis_method = true ->
   sum_cost_basis_method s = upper cost_basis_method) /\
  sum_tax_year s = tax_year.
Proof.
  intros self H.
  destruct (generate_summary_ok self tax_year s H)
    as (st & lt & net & inc & by_type & _ & _ & _ & _ & ->).
  destruct (run_effect ops (__init__ cost_basis_method))
    as (Hm & (evs & Ht & Hc) & _ & _).
  fold self in Hm, Ht. cbn [tax_events __init__ app] in Ht.
  cbn [short_term_events long_term_events total_transactions income_count
       sum_cost_basis_method sum_tax_year].
  split; [|by rewrite Hm].
  apply with_period_partition, in_year_Forall. by rewrite Ht.
Qed.

Lemma summary_counts_add_up_witness :
  generate_summary (run Sample.ops (__init__ "fifo")) (Some 2024) = Ok Sample.report /\
  (short_term_events Sample.report + long_term_events Sample.report
   = total_transactions Sample.report)%nat /\
  sum_cost_basis_method Sample.report = "FIFO".
Proof.
  split; [exact sample_report|].
  destruct (summary_counts_add_up "fifo" Sample.ops (Some 2024) Sample.report
              sample_report) as (H1 & _ & _ & H2 & _).
  split; [exact H1 | exact (H2 eq_refl)].
Defined.

(** ** Form 8949 rows and CSV rows *)

Lemma mapM_length {A B} (f : A -> result B) l : forall ys,
  mapM f l = Ok ys -> length ys = length l.
Proof.
  induction l as [|x l IH]; intros ys; simpl.
  - by intros [= <-].
  - destruct (f x) as [y|]; [|done]. cbn [mbind result_bind].
    destruct (mapM f l) as [ys'|]; [|done]. cbn [mbind result_bind].
    intros [= <-]. simpl. by rewrite (IH ys').
Qed.

(** Two results of the same kind: both values, related by [R], or both
    the same exception. *)
Definition same_outcome {B C} (R : B -> C -> Prop) (b : result B) (c : result C)
  : Prop :=
  match b, c with
  | Ok x, Ok y => R x y
  | Raise e, Raise e' => e = e'
  | _, _ => False
  end.

Lemma mapM_same_outcome {A B C} (f : A -> result B) (g : A -> result C)
    (R : B -> C -> Prop) l :
  (forall x, same_outcome R (f x) (g x)) ->
  same_outcome (Forall2 R) (mapM f l) (mapM g l).
Proof.
  intros H. induction l as [|x l IH]; simpl; [constructor|].
  specialize (H x). destruct (f x) as [b|e], (g x) as [c|e']; try done.
  cbn [mbind result_bind].
  destruct (mapM f l) as [bs|e], (mapM g l) as [cs|e']; try done.
  cbn. by constructor.
Qed.

(** The Form 8949 row and the CSV row of one event show the same three
    amounts and the same transaction, and the term "A" for "short". *)
Definition rows_agree (row : Form8949Row) (line : CsvRow) : Prop :=
  proceeds row = csv_proceeds_usd line /\
  cost_basis row = csv_cost_basis_usd line /\
  gain_loss row = csv_gain_loss_usd line /\
  row_tx_hash row = csv_tx_hash line /\
  (term row = "A" <-> csv_holding_period line = "short").

Lemma row_builders_agree event :
  same_outcome rows_agree (form_8949_row event) (csv_row event).
Proof.
  unfold form_8949_row, csv_row.
  destruct (py_quantize_str (PyDec (TaxEvent.proceeds_usd event)) _); [|done].
  destruct (py_quantize_str (PyDec (TaxEvent.cost_basis_usd event)) _); [|done].
  destruct (py_quantize_str (PyDec (TaxEvent.gain_loss_usd event)) _); [|done].
  cbn. repeat (split; [done|]).
  destruct (String.eqb_spec (TaxEvent.holding_period event) "short"); by split.
Qed.

(** X10. For every ledger and tax year, the Form 8949 report and the CSV
    export either both fail, with the same exception, or both return one
    row per event of the year, in the same order, and row by row they
    show the same proceeds, cost basis, gain and transaction, with term
    "A" exactly for the holding period "short". *)
Theorem form_8949_and_csv_agree self tax_year :
  same_outcome
    (fun rows lines =>
       Forall2 rows_agree rows lines /\
       length rows
       = length (in_year TaxEvent.disposed_date tax_year (tax_events self)))
    (generate_form_8949 self tax_year) (export_csv_rows self tax_year).
Proof.
  unfold generate_form_8949, export_csv_rows.
  pose proof (mapM_same_outcome form_8949_row csv_row rows_agree
                (in_year TaxEvent.disposed_date tax_year (tax_events self))
                row_builders_agree) as H.
  destruct (mapM form_8949_row _) as [rows|e] eqn:E1,
           (mapM csv_row _) as [lines|e']; try done.
  cbn in *. split; [done|]. by apply mapM_length in E1.
Qed.

(** ** When the row reports fail *)

(** [|d| < 10^25] *)
Definition below_1e25 (d : Decimal) : bool :=
  dec_ltb (mkDec (-1) 25) d && dec_ltb d (mkDec 1 25).

Lemma below_1e25_digits d :
  below_1e25 d = true ->
  dcoeff d = 0 \/ dexp d + ndigits (Z.abs (dcoeff d)) <= 25.
Proof.
  unfold below_1e25. intros H. apply andb_true_iff in H as [Hlo Hhi].
  set (K := Z.min (dexp d) 25).
  rewrite (dec_ltb_units _ _ K) in Hlo by (subst K; simpl; lia).
  rewrite (dec_ltb_units _ _ K) in Hhi by (subst K; simpl; lia).
  apply Z.ltb_lt in Hlo, Hhi. unfold units in Hlo, Hhi. simpl in Hlo, Hhi.
  destruct (Z.eq_dec (dcoeff d) 0) as [Hz|Hnz]; [by left|right].
  assert (Habs : Z.abs (dcoeff d) * 10 ^ (dexp d - K) < 10 ^ (25 - K)) by lia.
  destruct (Z.le_gt_cases (dexp d) 25) as [Hle|Hgt].
  - replace K with (dexp d) in * by (subst K; lia).
    rewrite Z.sub_diag, Z.mul_1_r in Habs.
    destruct (Z.eq_dec (dexp d) 25) as [E|E].
    { rewrite E, Z.sub_diag in Habs. simpl in Habs. lia. }
    assert (ndigits (Z.abs (dcoeff d)) <= 25 - dexp d); [|lia].
    apply ndigits_le_iff; [lia | lia | done].
  - replace K with 25 in * by (subst K; lia). simpl in Habs.
    assert (0 < 10 ^ (dexp d - 25)) by (apply Z.pow_pos_nonneg; lia). nia.
Qed.

Lemma round_with_bounds m c k :
  0 <= c -> 1 <= k -> c / 10 ^ k <= round_with m c k <= c / 10 ^ k + 1.
Proof.
  intros Hc Hk. destruct m; cbn [round_with].
  - destruct (round_half_even_spec c k Hc Hk) as [-> | [-> _]]; lia.
  - unfold round_half_up. destruct (_ <=? _); lia.
Qed.

(** A value below 10^25 in magnitude can be rounded to cents. *)
Lemma quantize_cents d m :
  below_1e25 d = true -> exists q, quantize d (-2) m = Some q.
Proof.
  intros H. apply below_1e25_digits in H. unfold quantize.
  destruct (Z.eqb_spec (dcoeff d) 0) as [Hz|Hnz]; [by eexists|].
  destruct H as [H|H]; [done|].
  set (c := Z.abs (dcoeff d)) in *. assert (Hc : 0 < c) by (subst c; lia).
  unfold prec.
  destruct (Z.ltb_spec 28 (dexp d + ndigits c - 1 - -2 + 1)) as [Hbig|_]; [lia|].
  assert (Hans : Z.abs (dcoeff (rescale d (-2) m)) < 10 ^ 28).
  { unfold rescale. destruct (Z.eqb_spec (dcoeff d) 0) as [|_]; [done|].
    destruct (Z.leb_spec (-2) (dexp d)) as [Hge|Hlt]; cbn [dcoeff].
    - rewrite Z.abs_mul. fold c.
      rewrite (Z.abs_eq (10 ^ _)) by (apply Z.pow_nonneg; lia).
      apply ndigits_le_iff; [| lia |].
      + apply Z.mul_nonneg_nonneg; [lia | apply Z.pow_nonneg; lia].
      + rewrite ndigits_mul_pow10 by lia. lia.
    - rewrite Z.abs_mul. fold c.
      pose proof (round_with_bounds m c (-2 - dexp d) ltac:(lia) ltac:(lia))
        as [Hlo Hhi].
      assert (0 <= c / 10 ^ (-2 - dexp d)) by (apply Z.div_pos; [lia|];
        apply Z.pow_pos_nonneg; lia).
      rewrite (Z.abs_eq (round_with _ _ _)) by lia.
      assert (Hs : Z.abs (Z.sgn (dcoeff d)) = 1) by lia. rewrite Hs, Z.mul_1_l.
      assert (Hcd : c < 10 ^ (27 + (-2 - dexp d))).
      { pose proof (ndigits_pos c).
        apply (ndigits_le_iff c (27 + (-2 - dexp d))); lia. }
      rewrite Z.pow_add_r in Hcd by lia.
      assert (c / 10 ^ (-2 - dexp d) < 10 ^ 27).
      { apply Z.div_lt_upper_bound; [apply Z.pow_pos_nonneg; lia | lia]. }
      lia. }
  destruct (Z.ltb_spec 28 (ndigits (Z.abs (dcoeff (rescale d (-2) m)))))
    as [Hbig|_]; [|by eexists].
  pose proof (ndigits_pos (Z.abs (dcoeff (rescale d (-2) m)))).
  apply (ndigits_le_iff _ 28) in Hans; lia.
Qed.

(** The three amounts of the event are below 10^25 in magnitude. *)
Definition presentable (e : TaxEvent.t) : bool :=
  below_1e25 (TaxEvent.proceeds_usd e) && below_1e25 (TaxEvent.cost_basis_usd e)
  && below_1e25 (TaxEvent.gain_loss_usd e).

Lemma presentable_rows e :
  presentable e = true ->
  (exists row, form_8949_row e = Ok row) /\ (exists line, csv_row e = Ok line).
Proof.
  unfold presentable. intros H.
  apply andb_true_iff in H as [H Hg]. apply andb_true_iff in H as [Hp Hc].
  unfold form_8949_row, csv_row, py_quantize_str, py_quantize.
  destruct (quantize_cents _ ROUND_HALF_EVEN Hp) as [p ->].
  destruct (quantize_cents _ ROUND_HALF_EVEN Hc) as [c ->].
  destruct (quantize_cents _ ROUND_HALF_EVEN Hg) as [g ->].
  cbn. split; by eexists.
Qed.

Lemma mapM_all_ok {A B} (f : A -> result B) l :
  Forall (fun x => exists y, f x = Ok y) l -> exists ys, mapM f l = Ok ys.
Proof.
  induction 1 as [|x l [y Hy] _ [ys IH]]; simpl; [by eexists|].
  rewrite Hy, IH. cbn. by eexists.
Qed.

Lemma mapM_one_raises {A B} (f : A -> result B) (err : exn) l :
  (forall x e, f x = Raise e -> e = err) ->
  Exists (fun x => exists e, f x = Raise e) l -> mapM f l = Raise err.
Proof.
  intros Hf. induction 1 as [x l [e He] | x l _ IH]; simpl.
  - rewrite He. cbn. by rewrite (Hf x e He).
  - destruct (f x) as [y|e] eqn:E; cbn.
    + by rewrite IH.
    + by rewrite (Hf x e E).
Qed.

Lemma form_8949_row_raises e err : form_8949_row e = Raise err -> err = InvalidOperation.
Proof.
  unfold form_8949_row, py_quantize_str, py_quantize.
  repeat (match goal with
          | |- context [quantize ?d ?x ?m] => destruct (quantize d x m)
          end; simpl; try (by intros [= <-])).
Qed.

Lemma csv_row_raises e err : csv_row e = Raise err -> err = InvalidOperation.
Proof.
  unfold csv_row, py_quantize_str, py_quantize.
  repeat (match goal with
          | |- context [quantize ?d ?x ?m] => destruct (quantize d x m)
          end; simpl; try (by intros [= <-])).
Qed.

(** X11. One event of the year whose row cannot be built fails both row
    reports as a whole, with InvalidOperation: no row is returned for the
    other events. *)
Theorem one_event_fails_the_reports self tax_year e :
  In e (in_year TaxEvent.disposed_date tax_year (tax_events self)) ->
  (exists err, form_8949_row e = Raise err) ->
  generate_form_8949 self tax_year = Raise InvalidOperation /\
  export_csv_rows self tax_year = Raise InvalidOperation.
Proof.
  intros Hin [err Herr]. unfold generate_form_8949, export_csv_rows.
  split.
  - apply mapM_one_raises; [apply form_8949_row_raises|].
    apply Exists_exists. exists e. split; [by apply list_elem_of_In | by exists err].
  - apply mapM_one_raises; [apply csv_row_raises|].
    apply Exists_exists. exists e. split; [by apply list_elem_of_In|].
    pose proof (row_builders_agree e) as H. rewrite Herr in H.
    destruct (csv_row e) as [|err']; [done | by exists err'].
Qed.

Lemma one_event_fails_the_reports_witness :
  let e1 := (add_acquisition (__init__ "FIFO") "UNI" 10 50 Scenario.jan1 "0xa1"
               "uniswap").2 in
  let e2 := (add_disposal "UNI" 5 60 Scenario.jun1 "0xd1" "uniswap" "swap" e1).2 in
  let e3 := (add_disposal "WBTC" 1 (mkDec 1 26) Scenario.jul1 "0xd2" "curve"
               "swap" e2).2 in
  (exists rows, generate_form_8949 e2 (Some 2024) = Ok rows /\ length rows = 1%nat) /\
  generate_form_8949 e3 (Some 2024) = Raise InvalidOperation.
Proof.
  intros e1 e2 e3. split.
  - eexists. split; [vm_compute; reflexivity | reflexivity].
  - apply (one_event_fails_the_reports e3 (Some 2024)
             (TaxEvent.mk "WBTC" 1 (mkDec 1 26) 0 (mkDec 1 26) Scenario.jul1
                Scenario.jul1 "short" "0xd2" "curve" "swap")).
    + vm_compute. right. left. reflexivity.
    + exists InvalidOperation. vm_compute. reflexivity.
Defined.

(** X12. When the proceeds, the cost basis and the gain of every tax event
    are below 10^25 in magnitude, the Form 8949 report and the CSV export
    return, for every tax year, one row per event of the year. *)
Theorem reports_for_amounts_below_1e25 self tax_year :
  Forall (fun e => presentable e = true) (tax_events self) ->
  exists rows lines,
    generate_form_8949 self tax_year = Ok rows /\
    export_csv_rows self tax_year = Ok lines /\
    length rows = length (in_year TaxEvent.disposed_date tax_year (tax_events self)) /\
    length lines = length rows.
Proof.
  intros H.
  apply (in_year_Forall _ TaxEvent.disposed_date tax_year) in H.
  unfold generate_form_8949, export_csv_rows.
  destruct (mapM_all_ok form_8949_row _
              (Forall_impl _ _ _ H (fun e He => proj1 (presentable_rows e He))))
    as [rows Hrows].
  destruct (mapM_all_ok csv_row _
              (Forall_impl _ _ _ H (fun e He => proj2 (presentable_rows e He))))
    as [lines Hlines].
  exists rows, lines. split; [done|]. split; [done|].
  apply mapM_length in Hrows, Hlines. lia.
Qed.

Lemma reports_for_amounts_below_1e25_witness :
  Forall (fun e => presentable e = true) (tax_events Scenario.sell_15.2) /\
  exists rows, generate_form_8949 Scenario.sell_15.2 (Some 2024) = Ok rows /\
               length rows = 2%nat.
Proof.
  assert (H : Forall (fun e => presentable e = true) (tax_events Scenario.sell_15.2)).
  { let l := eval vm_compute in (tax_events Scenario.sell_15.2) in
    replace (tax_events Scenario.sell_15.2) with l by (vm_compute; reflexivity).
    repeat (apply List.Forall_cons; [vm_compute; reflexivity|]).
    apply List.Forall_nil. }
  split; [exact H|].
  destruct (reports_for_amounts_below_1e25 Scenario.sell_15.2 (Some 2024) H)
    as (rows & lines & Hr & _ & Hlen & _).
  exists rows. split; [exact Hr|]. rewrite Hlen. vm_compute. reflexivity.
Defined.

(** ** Income by type *)

(** [totals.get(k)] on the insertion-ordered dict. *)
Fixpoint totals_get (k : string) (totals : list (string * Decimal))
  : option Decimal :=
  match totals with
  | [] => None
  | (k', t) :: rest => if String.eqb k' k then Some t else totals_get k rest
  end.

(** The running totals of [_group_income_by_type] after the loop. *)
Definition income_totals (income : list IncomeEvent.t) (acc : list (string * Decimal))
  : list (string * Decimal) :=
  fold_left (fun totals e =>
               totals_add (IncomeEvent.income_type e)
                          (IncomeEvent.fair_market_value_usd e) totals)
            income acc.

(** The fair market values of the events of type [k], in ledger order. *)
Definition values_of_type (k : string) (income : list IncomeEvent.t) : list Decimal :=
  map IncomeEvent.fair_market_value_usd
      (List.filter (fun e => String.eqb (IncomeEvent.income_type e) k) income).

Lemma totals_add_get k v totals k' :
  totals_get k' (totals_add k v totals)
  = if String.eqb k k' then Some (dec_add (default (dec_of_Z 0) (totals_get k totals)) v)
    else totals_get k' totals.
Proof.
  induction totals as [|[k0 t] rest IH]; simpl.
  - destruct (String.eqb k k'); done.
  - destruct (String.eqb_spec k0 k) as [->|Hne]; simpl.
    + destruct (String.eqb k k'); done.
    + rewrite IH. destruct (String.eqb_spec k0 k') as [->|Hne'].
      * destruct (String.eqb_spec k k') as [->|_]; done.
      * done.
Qed.

Lemma totals_add_keys k v totals :
  map fst (totals_add k v totals)
  = if bool_decide (k ∈ map fst totals) then map fst totals
    else map fst totals ++ [k].
Proof.
  induction totals as [|[k0 t] rest IH]; simpl; [done|].
  destruct (String.eqb_spec k0 k) as [->|Hne]; simpl.
  - rewrite bool_decide_eq_true_2; [done | left].
  - rewrite IH. destruct (bool_decide (k ∈ map fst rest)) eqn:E.
    + apply bool_decide_eq_true_1 in E.
      rewrite bool_decide_eq_true_2; [done | by right].
    + apply bool_decide_eq_false_1 in E.
      rewrite bool_decide_eq_false_2; [done|].
      intros H. apply elem_of_cons in H as [->|H]; done.
Qed.

Lemma totals_add_NoDup k v totals :
  NoDup (map fst totals) -> NoDup (map fst (totals_add k v totals)).
Proof.
  intros H. rewrite totals_add_keys.
  destruct (bool_decide (k ∈ map fst totals)) eqn:E; [done|].
  apply bool_decide_eq_false_1 in E. apply NoDup_app. split; [done|].
  split; [|apply NoDup_singleton].
  intros x Hx Hk. apply list_elem_of_singleton in Hk as ->. done.
Qed.

Lemma totals_add_elem k v totals k' :
  k' ∈ map fst (totals_add k v totals) <-> k' = k \/ k' ∈ map fst totals.
Proof.
  rewrite totals_add_keys.
  destruct (bool_decide (k ∈ map fst totals)) eqn:E.
  - apply bool_decide_eq_true_1 in E. split; [by right | by intros [->|?]].
  - rewrite elem_of_app, list_elem_of_singleton. tauto.
Qed.

Lemma income_totals_keys income : forall acc,
  NoDup (map fst acc) ->
  NoDup (map fst (income_totals income acc)) /\
  forall k, k ∈ map fst (income_totals income acc)
            <-> k ∈ map fst acc \/ k ∈ map IncomeEvent.income_type income.
Proof.
  induction income as [|e income IH]; intros acc Hnd; simpl.
  - split; [done|]. intros k. rewrite elem_of_nil. tauto.
  - destruct (IH _ (totals_add_NoDup (IncomeEvent.income_type e)
                      (IncomeEvent.fair_market_value_usd e) acc Hnd)) as [H1 H2].
    split; [done|]. intros k. rewrite H2, totals_add_elem, elem_of_cons. tauto.
Qed.

Lemma income_totals_get k income : forall acc,
  totals_get k (income_totals income acc)
  = match values_of_type k income with
    | [] => totals_get k acc
    | _ :: _ =>
        Some (fold_left dec_add (values_of_type k income)
                (default (dec_of_Z 0) (totals_get k acc)))
    end.
Proof.
  unfold values_of_type.
  induction income as [|e income IH]; intros acc; simpl; [done|].
  rewrite IH, totals_add_get.
  destruct (String.eqb_spec (IncomeEvent.income_type e) k) as [->|Hne]; simpl.
  - by destruct (List.filter _ income).
  - done.
Qed.

Lemma totals_get_elem k t totals :
  NoDup (map fst totals) -> (k, t) ∈ totals -> totals_get k totals = Some t.
Proof.
  induction totals as [|[k0 t0] rest IH]; simpl; intros Hnd Hin.
  - by apply elem_of_nil in Hin.
  - apply NoDup_cons in Hnd as [Hk0 Hnd].
    apply elem_of_cons in Hin as [[= -> ->]|Hin].
    + by rewrite String.eqb_refl.
    + destruct (String.eqb_spec k0 k) as [->|_]; [|by apply IH].
      exfalso. apply Hk0. apply list_elem_of_fmap. by exists (k, t).
Qed.

Lemma mapM_Forall2 {A B} (f : A -> result B) l : forall ys,
  mapM f l = Ok ys -> Forall2 (fun x y => f x = Ok y) l ys.
Proof.
  induction l as [|x l IH]; intros ys; simpl.
  - intros [= <-]. constructor.
  - destruct (f x) as [y|] eqn:E; [|done]. cbn [mbind result_bind].
    destruct (mapM f l) as [ys'|]; [|done]. cbn [mbind result_bind].
    intros [= <-]. constructor; [done | by apply IH].
Qed.

(** X13. When [_group_income_by_type] returns, its result has one entry
    per income type that occurs among the events, no type twice, and the
    entry of a type shows the total of the fair market values of the
    events of that type, added in ledger order starting from Decimal 0 and
    rounded to cents (half-even); a negative total that rounds to zero is
    shown as -0.00. *)
Theorem income_by_type_totals income by_type :
  _group_income_by_type income = Ok by_type ->
  NoDup (map fst by_type) /\
  (forall k, k ∈ map fst by_type <-> k ∈ map IncomeEvent.income_type income) /\
  (forall k v,
      (k, v) ∈ by_type ->
      let total := fold_left dec_add (values_of_type k income) (dec_of_Z 0) in
      exists q,
        quantize total (-2) ROUND_HALF_EVEN = Some q /\
        v = quantized_str total q).
Proof.
  unfold _group_income_by_type. fold (income_totals income []).
  intros H. apply mapM_Forall2 in H.
  destruct (income_totals_keys income [] (NoDup_nil_2 (A:=string))) as [Hnd Hkeys].
  assert (Hrows : Forall2 (fun kv row =>
                     row.1 = kv.1 /\
                     exists q, quantize kv.2 (-2) ROUND_HALF_EVEN = Some q /\
                               row.2 = quantized_str kv.2 q)
                    (income_totals income []) by_type).
  { eapply Forall2_impl; [exact H|]. intros [k t] row. cbn.
    unfold py_quantize. destruct (quantize t (-2) ROUND_HALF_EVEN) as [q|]; [|done].
    cbn. intros [= <-]. split; [done|]. by exists q. }
  assert (Hfst : map fst by_type = map fst (income_totals income [])).
  { clear -Hrows. induction Hrows as [|kv row l1 l2 [E _] _ IH]; simpl; [done|].
    by rewrite E, IH. }
  split; [by rewrite Hfst|]. split.
  { intros k. rewrite Hfst, Hkeys, elem_of_nil. tauto. }
  intros k v Hin.
  apply list_elem_of_lookup in Hin as [i Hi].
  destruct (Forall2_lookup_r _ _ _ _ _ Hrows Hi) as ([k' t] & Ht & Hk & q & Hq & Hv).
  cbn in Hk, Hq, Hv. subst k'.
  assert (Hget : totals_get k (income_totals income []) = Some t).
  { apply totals_get_elem; [done|]. by eapply list_elem_of_lookup_2. }
  rewrite income_totals_get in Hget. exists q.
  assert (Htot : t = fold_left dec_add (values_of_type k income) (dec_of_Z 0)).
  { destruct (values_of_type k income) as [|x xs] eqn:E; [done|].
    cbn [totals_get default] in Hget. by injection Hget as <-. }
  by rewrite <- Htot.
Qed.

Lemma income_by_type_totals_witness :
  let income :=
    [ IncomeEvent.mk "USDC" 25 (mkDec 2505 (-2)) Scenario.jan1 "0xi1" "aave" "interest";
      IncomeEvent.mk "UNI" 3 (mkDec 41 0) Scenario.jun1 "0xi2" "uniswap" "airdrop";
      IncomeEvent.mk "USDC" 10 (mkDec 1001 (-2)) Scenario.jul1 "0xi3" "aave" "interest";
      IncomeEvent.mk "DAI" 1 (mkDec (-1) (-3)) Scenario.jul1 "0xi4" "curve" "refund" ] in
  _group_income_by_type income
  = Ok [("interest", "35.06"); ("airdrop", "41.00"); ("refund", "-0.00")] /\
  NoDup ["interest"; "airdrop"; "refund"].
Proof.
  intros income.
  assert (H : _group_income_by_type income
              = Ok [("interest", "35.06"); ("airdrop", "41.00"); ("refund", "-0.00")])
    by (vm_compute; reflexivity).
  split; [exact H|].
  apply (income_by_type_totals income _ H).
Defined.

(** ** Lot identifiers *)

(** The identifier [add_acquisition] gives to the lot it appends at
    position [i] of the asset's list. *)
Definition lot_id_at (asset tx_hash : string) (i : nat) : string :=
  str_take 8 tx_hash +:+ "-" +:+ asset +:+ "-" +:+ pretty i.

Fixpoint no_dash (s : string) : Prop :=
  match s with
  | EmptyString => True
  | String c s' => c <> "-"%char /\ no_dash s'
  end.

Lemma str_app_nil (s : string) : "" +:+ s = s.
Proof. reflexivity. Qed.

Lemma str_app_cons (c : ascii) (a s : string) :
  String c a +:+ s = String c (a +:+ s).
Proof. reflexivity. Qed.

Lemma str_app_assoc (a b c : string) : (a +:+ b) +:+ c = a +:+ (b +:+ c).
Proof.
  induction a as [|x a IH]; [done|]. rewrite !str_app_cons. by rewrite IH.
Qed.

Lemma dash_in_the_middle (a s : string) : ~ no_dash (a +:+ String "-" s).
Proof.
  induction a as [|x a IH]; rewrite ?str_app_cons, ?str_app_nil; simpl.
  - by intros [? _].
  - by intros [_ ?].
Qed.

(** What follows the last dash is determined by the whole string. *)
Lemma after_last_dash (a b s t : string) :
  no_dash s -> no_dash t -> a +:+ String "-" s = b +:+ String "-" t -> s = t.
Proof.
  intros Hs Ht. revert b. induction a as [|x a IH]; intros [|y b];
    rewrite ?str_app_cons, ?str_app_nil.
  - by intros [= ->].
  - intros [= _ ->]. by apply dash_in_the_middle in Hs.
  - intros [= _ <-]. by apply dash_in_the_middle in Ht.
  - intros [= _ H]. by apply (IH b).
Qed.

Lemma pretty_N_char_no_dash x : pretty_N_char x <> "-"%char.
Proof. unfold pretty_N_char. by repeat case_match. Qed.

Lemma pretty_N_go_no_dash x : forall s, no_dash s -> no_dash (pretty_N_go x s).
Proof.
  induction (N.lt_wf_0 x) as [x _ IH]; intros s Hs.
  destruct (decide (x = 0)%N) as [->|Hx]; [by rewrite pretty_N_go_0|].
  rewrite pretty_N_go_step by lia. apply IH.
  - apply N.div_lt; lia.
  - split; [apply pretty_N_char_no_dash | done].
Qed.

Lemma pretty_nat_no_dash (n : nat) : no_dash (pretty n).
Proof.
  unfold pretty, pretty_nat, pretty, pretty_N. case_decide; [by split|].
  by apply pretty_N_go_no_dash.
Qed.

(** Identifiers given at different positions differ, whatever the
    transactions. *)
Lemma lot_id_at_inj asset tx1 tx2 i j :
  lot_id_at asset tx1 i = lot_id_at asset tx2 j -> i = j.
Proof.
  unfold lot_id_at. intros H.
  rewrite <- !(str_app_assoc (str_take 8 _) "-" _) in H.
  rewrite <- !(str_app_assoc _ asset _) in H.
  rewrite !(str_app_cons "-" "" (pretty _)), !str_app_nil in H.
  apply after_last_dash in H; [|apply pretty_nat_no_dash..].
  by apply (inj pretty) in H.
Qed.

(** Every lot sits in the list of its own asset and carries the
    identifier of its position. *)
Definition ids_in_place (self : TaxEngine) : Prop :=
  forall asset i lot,
    lots_get self asset !! i = Some lot ->
    TaxLot.asset lot = asset /\
    TaxLot.lot_id lot = lot_id_at asset (TaxLot.tx_hash lot) i.

Lemma ids_in_place_append self asset lot (engine : TaxEngine) :
  ids_in_place self ->
  (forall other, lots_get engine other
                 = if decide (other = asset) then lots_get self asset ++ [lot]
                   else lots_get self other) ->
  TaxLot.asset lot = asset ->
  TaxLot.lot_id lot
  = lot_id_at asset (TaxLot.tx_hash lot) (length (lots_get self asset)) ->
  ids_in_place engine.
Proof.
  intros Hok Hlots Ha Hid other i l Hl. rewrite Hlots in Hl.
  destruct (decide (other = asset)) as [->|Hne]; [|by apply Hok].
  apply lookup_app_Some in Hl as [Hl|[Hlen Hl]]; [by apply Hok|].
  apply list_lookup_singleton_Some in Hl as [Hi ->].
  replace i with (length (lots_get self asset)) by lia. done.
Qed.

Lemma apply_op_ids self op : ids_in_place self -> ids_in_place (apply_op self op).
Proof.
  intros Hok.
  destruct op as [a amt usd d tx p | a amt usd d tx p et | a amt usd d tx p it];
    cbn [apply_op].
  - eapply (ids_in_place_append self a);
      [done | intros other; apply lots_get_add_acquisition | done | done].
  - destruct (add_disposal_effect a amt usd d tx p et self)
      as (_ & _ & _ & Hother & Hsame & _).
    intros asset i lot Hl. destruct (decide (asset = a)) as [->|Hne].
    + destruct (Forall2_lookup_r _ _ _ _ _ Hsame Hl)
        as (old & Hold & Has & _ & Htx & _ & Hid).
      destruct (Hok a i old Hold) as [H1 H2]. split; congruence.
    + rewrite Hother in Hl by done. by apply Hok.
  - eapply (ids_in_place_append self a);
      [done | intros other; apply add_income_lots | done | done].
Qed.

Lemma run_ids ops : forall self, ids_in_place self -> ids_in_place (run ops self).
Proof.
  induction ops as [|op ops IH]; intros self Hok; [done|].
  apply IH. by apply apply_op_ids.
Qed.

Lemma init_ids m : ids_in_place (__init__ m).
Proof. intros asset i lot H. unfold lots_get in H. cbn in H. by rewrite lookup_empty in H. Qed.

(** X14. On a ledger built from a new engine by any sequence of
    operations, the lot at position [i] of an asset's list is a lot of
    that asset and its lot id is the first 8 characters of its transaction
    hash, the asset and [i], joined by dashes; so two lots at different
    positions of one asset never share a lot id. *)
Theorem lot_ids_identify_lots cost_basis_method ops asset i j lot1 lot2 :
  let self := run ops (__init__ cost_basis_method) in
  lots_get self asset !! i = Some lot1 ->
  lots_get self asset !! j = Some lot2 ->
  TaxLot.asset lot1 = asset /\
  TaxLot.lot_id lot1
  = str_take 8 (TaxLot.tx_hash lot1) +:+ "-" +:+ asset +:+ "-" +:+ pretty i /\
  (i <> j -> TaxLot.lot_id lot1 <> TaxLot.lot_id lot2).
Proof.
  intros self H1 H2.
  pose proof (run_ids ops _ (init_ids cost_basis_method)) as Hok. fold self in Hok.
  destruct (Hok asset i lot1 H1) as [Ha1 Hid1].
  destruct (Hok asset j lot2 H2) as [Ha2 Hid2].
  split; [done|]. split; [done|].
  intros Hne E. rewrite Hid1, Hid2 in E. by apply lot_id_at_inj in E.
Qed.

Lemma lot_ids_identify_lots_witness :
  let lot1 := TaxLot.mk "UNI" 0 0 Scenario.jan1 "0xa1" "uniswap" "0xa1-UNI-0" in
  let lot2 := TaxLot.mk "UNI" 5 (mkDec 500 (-1)) Scenario.jun1 "0xa2" "uniswap"
                "0xa2-UNI-1" in
  lots_get Scenario.sell_15.2 "UNI" = [lot1; lot2] /\
  TaxLot.lot_id lot1 <> TaxLot.lot_id lot2.
Proof.
  intros lot1 lot2.
  assert (E : lots_get Scenario.sell_15.2 "UNI" = [lot1; lot2])
    by (vm_compute; reflexivity).
  split; [exact E|].
  apply (lot_ids_identify_lots "FIFO"
           [ Acquisition "UNI" 10 50 Scenario.jan1 "0xa1" "uniswap";
             Acquisition "UNI" 10 100 Scenario.jun1 "0xa2" "uniswap";
             Disposal "UNI" 15 300 Scenario.jul1 "0xd1" "uniswap" "swap" ]
           "UNI" 0%nat 1%nat lot1 lot2); [vm_compute; reflexivity.. | lia].
Defined.

(** ** Disposals that find no open lot, or one that covers them *)

(** The loop passes over lots that are not open. *)
Lemma match_loop_all_closed asset amount proceeds_usd disposed_date tx_hash
    protocol event_type order : forall remaining store events,
  Forall (fun lot => dec_leb (TaxLot.amount lot) 0 = true) store ->
  match_loop asset amount proceeds_usd disposed_date tx_hash protocol event_type
    order remaining store events = (store, events, remaining).
Proof.
  induction order as [|i rest IH]; intros remaining store events Hst; simpl; [done|].
  destruct (dec_leb remaining 0); [done|].
  destruct (store !! i) as [lot|] eqn:Hi; [|by apply IH].
  rewrite (Forall_lookup_1 _ _ _ _ Hst Hi). by apply IH.
Qed.

(** With something left to dispose of, the loop adds an event as soon as
    it meets an open lot. *)
Lemma match_loop_meets_open_lot asset amount proceeds_usd disposed_date tx_hash
    protocol event_type order : forall remaining store events i lot,
  dec_leb remaining 0 = false ->
  i ∈ order -> store !! i = Some lot -> dec_leb (TaxLot.amount lot) 0 = false ->
  (match_loop asset amount proceeds_usd disposed_date tx_hash protocol event_type
     order remaining store events).1.2 <> events.
Proof.
  induction order as [|j rest IH]; intros remaining store events i lot Hr Hi Hl Ho.
  { by apply elem_of_nil in Hi. }
  assert (Hgrow : forall l0 rem st (e : TaxEvent.t),
             (match_loop asset amount proceeds_usd disposed_date tx_hash protocol
                event_type l0 rem st (events ++ [e])).1.2 <> events).
  { intros l0 rem st e. rewrite match_loop_events_app. cbn [fst snd].
    intros E. apply (f_equal length) in E. rewrite !length_app in E.
    simpl in E. lia. }
  simpl. rewrite Hr.
  destruct (store !! j) as [lot'|] eqn:Hj.
  - destruct (dec_leb (TaxLot.amount lot') 0) eqn:Hc; [|apply Hgrow].
    apply elem_of_cons in Hi as [->|Hi]; [congruence|]. by eapply IH.
  - apply elem_of_cons in Hi as [->|Hi]; [congruence|]. by eapply IH.
Qed.

(** X15. For an asset that has lots, a disposal returns no event exactly
    when the requested amount is 0 or less or no lot of the asset is open
    (every amount is 0 or less); it then leaves the engine exactly as it
    was, so neither the amount nor the proceeds of the call are recorded
    anywhere. *)
Theorem disposal_returns_nothing_iff asset amount proceeds_usd disposed_date
    tx_hash protocol event_type self :
  lots_get self asset <> [] ->
  let r := add_disposal asset amount proceeds_usd disposed_date tx_hash protocol
             event_type self in
  (r.1 = [] <->
   dec_leb amount 0 = true \/
   Forall (fun lot => dec_leb (TaxLot.amount lot) 0 = true) (lots_get self asset)) /\
  (r.1 = [] -> r.2 = self).
Proof.
  intros Hne r.
  assert (Hdrop : dec_leb amount 0 = true \/
                  Forall (fun lot => dec_leb (TaxLot.amount lot) 0 = true)
                         (lots_get self asset) -> r = ([], self)).
  { intros H. subst r. unfold add_disposal.
    destruct (lots_get self asset) as [|l0 ls] eqn:E; [done|].
    assert (Hloop : forall order,
               match_loop asset amount proceeds_usd disposed_date tx_hash protocol
                 event_type order amount (l0 :: ls) [] = (l0 :: ls, [], amount)).
    { intros order. destruct H as [H|H].
      - by apply match_loop_nonpositive.
      - by apply match_loop_all_closed. }
    rewrite Hloop. apply lots_get_cons in E.
    destruct self as [m l t i]; simpl in *. rewrite app_nil_r. by rewrite insert_id. }
  assert (Hiff : r.1 = [] ->
                 dec_leb amount 0 = true \/
                 Forall (fun lot => dec_leb (TaxLot.amount lot) 0 = true)
                        (lots_get self asset)).
  { intros Hnil. destruct (dec_leb amount 0) eqn:Hr; [by left | right].
    apply Forall_lookup. intros i lot Hl.
    destruct (dec_leb (TaxLot.amount lot) 0) eqn:Ho; [done | exfalso].
    subst r. unfold add_disposal in Hnil.
    destruct (lots_get self asset) as [|l0 ls] eqn:E; [done|].
    pose proof (match_loop_meets_open_lot asset amount proceeds_usd disposed_date
                  tx_hash protocol event_type
                  (map fst (_sort_lots self (refs (l0 :: ls))
                              (if dec_ltb 0 amount
                               then dec_div proceeds_usd amount else 0)))
                  amount (l0 :: ls) [] i lot Hr) as Hmeet.
    destruct (match_loop asset amount proceeds_usd disposed_date tx_hash protocol
                event_type _ amount (l0 :: ls) []) as [[st evs] rem].
    cbn [fst snd] in *. apply Hmeet; [|done|done|done].
    apply sort_lots_covers. by eapply lookup_lt_Some. }
  split; [split; [exact Hiff|]|].
  - intros H. by rewrite (Hdrop H).
  - intros H. by rewrite (Hdrop (Hiff H)).
Qed.

Lemma disposal_returns_nothing_iff_witness :
  lots_get Scenario.sold_out "UNI" <> [] /\
  add_disposal "UNI" 5 60 Scenario.jul1 "0xd2" "uniswap" "swap" Scenario.sold_out
  = ([], Scenario.sold_out).
Proof.
  assert (Hne : lots_get Scenario.sold_out "UNI" <> []) by (vm_compute; discriminate).
  split; [exact Hne|].
  destruct (disposal_returns_nothing_iff "UNI" 5 60 Scenario.jul1 "0xd2" "uniswap"
              "swap" Scenario.sold_out Hne) as [[_ Hnil] Hsame].
  assert (H : (add_disposal "UNI" 5 60 Scenario.jul1 "0xd2" "uniswap" "swap"
                 Scenario.sold_out).1 = []).
  { apply Hnil. right.
    let l := eval vm_compute in (lots_get Scenario.sold_out "UNI") in
    replace (lots_get Scenario.sold_out "UNI") with l by (vm_compute; reflexivity).
    repeat (apply List.Forall_cons; [reflexivity|]). apply List.Forall_nil. }
  specialize (Hsame H). clear Hnil.
  destruct (add_disposal "UNI" 5 60 Scenario.jul1 "0xd2" "uniswap" "swap"
              Scenario.sold_out) as [evs engine].
  cbn [fst snd] in *. by rewrite H, Hsame.
Defined.

Section OneLot.
Variables (asset : string) (amount proceeds_usd : Decimal)
          (disposed_date : datetime.t) (tx_hash protocol event_type : string).
Hypothesis amount_pos : 0 < dcoeff amount.

(** The loop on an order whose first open lot holds at least the
    requested amount: one event, for the whole amount and all the
    proceeds, and nothing left to dispose of. *)
Lemma match_loop_one_lot (pre : list nat) i (post : list nat) lot :
  forall store,
    (forall j l, j ∈ pre -> store !! j = Some l ->
                 dec_leb (TaxLot.amount l) 0 = true) ->
    store !! i = Some lot ->
    dec_leb amount (TaxLot.amount lot) = true ->
    let m := match_lot asset amount proceeds_usd disposed_date tx_hash protocol
               event_type amount lot in
    match_loop asset amount proceeds_usd disposed_date tx_hash protocol event_type
      (pre ++ i :: post) amount store []
    = (<[i := TaxLot.consume lot m.1.1 m.1.2]> store, [m.2], dec_sub amount amount)
    /\ m.1.1 = amount.
Proof.
  assert (Hrem : dec_leb amount 0 = false).
  { rewrite dec_leb_0. apply Z.leb_gt. lia. }
  induction pre as [|j pre IH]; intros store Hpre Hi Hle m.
  - assert (Hopen : dec_leb (TaxLot.amount lot) 0 = false).
    { destruct (dec_leb (TaxLot.amount lot) 0) eqn:E; [|done].
      pose proof (dec_leb_trans _ _ _ Hle E). congruence. }
    assert (Hd : m.1.1 = amount).
    { subst m. cbn. unfold py_min.
      destruct (dec_ltb (TaxLot.amount lot) amount) eqn:E; [|done].
      exfalso. set (K := Z.min (dexp amount) (dexp (TaxLot.amount lot))).
      rewrite (dec_ltb_units _ _ K) in E by (subst K; lia).
      rewrite (dec_leb_units _ _ K) in Hle by (subst K; lia).
      apply Z.ltb_lt in E. apply Z.leb_le in Hle. lia. }
    split; [|exact Hd]. cbn [app].
    rewrite (match_loop_step asset amount proceeds_usd disposed_date tx_hash
               protocol event_type i post amount store [] lot) by done.
    fold m. rewrite Hd. cbn [app].
    apply match_loop_nonpositive. rewrite dec_leb_0. apply Z.leb_le.
    assert (dcoeff (dec_sub amount amount) = 0); [|lia].
    apply dec_sub_zero. apply dec_eqb_leb. split; apply dec_leb_refl.
  - cbn [app]. destruct (store !! j) as [l|] eqn:Hj.
    + assert (Hc : dec_leb (TaxLot.amount l) 0 = true)
        by (apply (Hpre j l); [left | done]).
      rewrite (match_loop_skip asset amount proceeds_usd disposed_date tx_hash
                 protocol event_type j _ amount store [] l) by done.
      apply IH; [|done|done]. intros j' l' Hj'. apply Hpre. by right.
    + assert (E : match_loop asset amount proceeds_usd disposed_date tx_hash
                    protocol event_type (j :: pre ++ i :: post) amount store []
                  = match_loop asset amount proceeds_usd disposed_date tx_hash
                      protocol event_type (pre ++ i :: post) amount store []).
      { simpl. by rewrite Hrem, Hj. }
      rewrite E. apply IH; [|done|done]. intros j' l' Hj'. apply Hpre. by right.
Qed.
End OneLot.

(** X16. A disposal of a positive amount whose first open lot, in the
    order of [_sort_lots], holds at least that amount is matched against
    that lot alone: one event is returned, for the whole requested amount
    and with all the proceeds of the call, carrying the acquisition date
    of that lot and a cost basis between 0 and the lot's; no other lot
    changes. *)
Theorem disposal_covered_by_one_lot asset amount proceeds_usd disposed_date
    tx_hash protocol event_type self pre r post :
  0 < dcoeff amount -> 0 <= dcoeff proceeds_usd < 10 ^ 28 ->
  _sort_lots self (refs (lots_get self asset))
    (if dec_ltb 0 amount then dec_div proceeds_usd amount else 0)
  = pre ++ r :: post ->
  Forall (fun p : lot_ref => is_open p = false) pre ->
  dec_leb amount (TaxLot.amount r.2) = true ->
  0 <= dcoeff (TaxLot.cost_basis_usd r.2) < 10 ^ 28 ->
  let res := add_disposal asset amount proceeds_usd disposed_date tx_hash protocol
               event_type self in
  exists e,
    res.1 = [e] /\
    TaxEvent.amount_disposed e = amount /\
    dec_eqb (TaxEvent.proceeds_usd e) proceeds_usd = true /\
    TaxEvent.acquired_date e = TaxLot.acquired_date r.2 /\
    dec_leb 0 (TaxEvent.cost_basis_usd e) = true /\
    dec_leb (TaxEvent.cost_basis_usd e) (TaxLot.cost_basis_usd r.2) = true /\
    (forall j, j <> r.1 -> lots_get res.2 asset !! j = lots_get self asset !! j).
Proof.
  intros Ha Hp Horder Hpre Hle Hc res.
  assert (Hin : r ∈ _sort_lots self (refs (lots_get self asset))
                      (if dec_ltb 0 amount then dec_div proceeds_usd amount else 0)).
  { rewrite Horder. apply elem_of_app. right. left. }
  pose proof (sort_lots_lookup _ _ _ _ Hin) as Hr.
  assert (Hne : lots_get self asset <> []).
  { intros E. rewrite E in Hr. by rewrite lookup_nil in Hr. }
  destruct (match_loop_one_lot asset amount proceeds_usd disposed_date tx_hash
              protocol event_type Ha (map fst pre) r.1 (map fst post) r.2
              (lots_get self asset)) as [Hloop Hd]; [|done|done|].
  { intros j l Hj Hl. apply list_elem_of_fmap in Hj as (p & -> & Hp').
    assert (Hp'' : p ∈ _sort_lots self (refs (lots_get self asset))
                         (if dec_ltb 0 amount then dec_div proceeds_usd amount
                          else 0)).
    { rewrite Horder. apply elem_of_app. by left. }
    apply sort_lots_lookup in Hp''. rewrite Hp'' in Hl. injection Hl as <-.
    rewrite Forall_forall in Hpre. specialize (Hpre p Hp').
    unfold is_open in Hpre. by apply negb_false_iff in Hpre. }
  set (m := match_lot asset amount proceeds_usd disposed_date tx_hash protocol
              event_type amount r.2) in *.
  assert (Hres : res = ([m.2],
                        mkEngine (method self)
                          (<[asset := <[r.1 := TaxLot.consume r.2 m.1.1 m.1.2]>
                                        (lots_get self asset)]> (lots self))
                          (tax_events self ++ [m.2]) (income_events self))).
  { subst res. unfold add_disposal.
    destruct (lots_get self asset) as [|l0 ls] eqn:E; [done|].
    rewrite Horder, map_app. cbn [map]. by rewrite Hloop. }
  assert (Hopen : 0 < dcoeff (TaxLot.amount r.2)).
  { destruct (Z.lt_ge_cases 0 (dcoeff (TaxLot.amount r.2))) as [|Hn]; [done|].
    assert (Hz : dec_leb (TaxLot.amount r.2) 0 = true)
      by (rewrite dec_leb_0; apply Z.leb_le; lia).
    pose proof (dec_leb_trans _ _ _ Hle Hz) as H0.
    rewrite dec_leb_0 in H0. apply Z.leb_le in H0. lia. }
  destruct (match_lot_cost asset amount proceeds_usd disposed_date tx_hash
              protocol event_type amount r.2 Ha Hopen Hc)
    as (_ & _ & Hcb0 & Hcb1 & _).
  fold m in Hcb0, Hcb1.
  assert (Hamt : dec_ltb 0 amount = true) by (rewrite dec_ltb_0; by apply Z.ltb_lt).
  assert (Hproc : TaxEvent.proceeds_usd m.2
                  = dec_mul proceeds_usd (dec_div amount amount)).
  { transitivity (dec_mul proceeds_usd (dec_div m.1.1 amount)); [|by rewrite Hd].
    subst m. cbn. by rewrite Hamt. }
  destruct (dec_div_le_1 amount amount Ha Ha (dec_leb_refl _)) as (Hq0 & Hq1 & Hq2).
  destruct (dec_mul_le_1 proceeds_usd (dec_div amount amount) Hp Hq0 Hq1)
    as (_ & Hm1 & Hm2).
  exists m.2. rewrite Hres. cbn [fst snd].
  split; [done|]. split; [exact Hd|]. split.
  { rewrite Hproc. apply dec_eqb_leb. split; [done|]. apply Hm2, Hq2, dec_leb_refl. }
  split; [done|]. split; [rewrite dec_leb_0_l; by apply Z.leb_le|]. split; [done|].
  intros j Hj. unfold lots_get at 1. cbn [lots]. rewrite lookup_insert_eq.
  change (default [] (Some ?x)) with x. by rewrite list_lookup_insert_ne.
Qed.

Lemma disposal_covered_by_one_lot_witness :
  exists e,
    (add_disposal "UNI" 4 100 Scenario.jul1 "0xd1" "uniswap" "swap"
       Scenario.two_lots).1 = [e] /\
    TaxEvent.amount_disposed e = dec_of_Z 4 /\
    dec_eqb (TaxEvent.proceeds_usd e) 100 = true /\
    TaxEvent.acquired_date e = Scenario.jan1.
Proof.
  destruct (disposal_covered_by_one_lot "UNI" 4 100 Scenario.jul1 "0xd1" "uniswap"
              "swap" Scenario.two_lots []
              (0%nat, TaxLot.mk "UNI" 10 50 Scenario.jan1 "0xa1" "uniswap"
                        "0xa1-UNI-0")
              [(1%nat, TaxLot.mk "UNI" 10 100 Scenario.jun1 "0xa2" "uniswap"
                         "0xa2-UNI-1")])
    as (e & He & Ha & Hp & Hd & _).
  - reflexivity.
  - cbn. lia.
  - vm_compute. reflexivity.
  - constructor.
  - reflexivity.
  - cbn. lia.
  - exists e. by repeat split.
Defined.

(** ** Lots acquired in chronological order *)

Section SortedInput.
Context {A K : Type} (ltb : K -> K -> bool) (key : A -> K).

(** A list in which no element has a smaller key than an earlier one is
    left as it is. *)
Lemma sorted_of_ascending l :
  StronglySorted (fun x y => ltb (key y) (key x) = false) l ->
  sorted ltb key l = l.
Proof.
  induction l as [|x l IH]; intros Hs; [done|].
  apply StronglySorted_cons in Hs as [Hx Hs].
  change (sorted ltb key (x :: l)) with (insert_stable ltb key x (sorted ltb key l)).
  rewrite (IH Hs). destruct l as [|y l]; [done|].
  apply Forall_cons in Hx as [Hxy _]. simpl. by rewrite Hxy.
Qed.

Lemma insert_stable_last x l :
  Forall (fun y => ltb (key y) (key x) = true) l ->
  insert_stable ltb key x l = l ++ [x].
Proof.
  induction 1 as [|y l Hy _ IH]; simpl; [done|]. by rewrite Hy, IH.
Qed.

(** A list in which every element has a smaller key than all earlier
    ones is reversed. *)
Lemma sorted_of_descending l :
  StronglySorted (fun x y => ltb (key y) (key x) = true) l ->
  sorted ltb key l = rev l.
Proof.
  induction l as [|x l IH]; intros Hs; [done|].
  apply StronglySorted_cons in Hs as [Hx Hs].
  change (sorted ltb key (x :: l)) with (insert_stable ltb key x (sorted ltb key l)).
  rewrite (IH Hs). simpl. apply insert_stable_last.
  apply Forall_forall. intros y Hy. rewrite Forall_forall in Hx. apply Hx.
  apply list_elem_of_In, in_rev, list_elem_of_In in Hy. exact Hy.
Qed.

(** With strictly increasing keys, [reverse=True] gives the reversed
    list. *)
Lemma sorted_reverse_of_increasing l :
  StronglySorted (fun x y => ltb (key x) (key y) = true) l ->
  sorted_reverse ltb key l = rev l.
Proof.
  intros Hs. unfold sorted_reverse. f_equal.
  rewrite sorted_of_descending; [apply rev_involutive|].
  apply StronglySorted_rev in Hs. exact Hs.
Qed.
End SortedInput.

Lemma refs_StronglySorted (R : TaxLot.t -> TaxLot.t -> Prop) (l : list TaxLot.t) :
  StronglySorted R l -> StronglySorted (fun x y : lot_ref => R x.2 y.2) (refs l).
Proof.
  unfold refs. generalize 0%nat.
  induction l as [|x l IH]; intros n Hs; simpl; [constructor|].
  apply StronglySorted_cons in Hs as [Hx Hs]. constructor; [by apply IH|].
  apply Forall_forall. intros r Hr.
  assert (Hin : r.2 ∈ l).
  { apply list_elem_of_lookup in Hr as [i Hi].
    apply lookup_zip_with_Some in Hi as (a & b & -> & _ & Hb).
    by eapply list_elem_of_lookup_2. }
  rewrite Forall_forall in Hx. by apply Hx.
Qed.

(** X17. When the lots of an asset were acquired in chronological order
    (no lot earlier than one inserted before it), FIFO walks them in
    insertion order; when the acquisition dates strictly increase along
    the list, LIFO walks them in reverse insertion order. *)
Theorem chronological_lots_order self (asset_lots : list TaxLot.t) price :
  (method self = "FIFO" ->
   StronglySorted
     (fun a b => datetime.ltb (TaxLot.acquired_date b) (TaxLot.acquired_date a)
                 = false) asset_lots ->
   _sort_lots self (refs asset_lots) price = refs asset_lots) /\
  (method self = "LIFO" ->
   StronglySorted
     (fun a b => datetime.ltb (TaxLot.acquired_date a) (TaxLot.acquired_date b)
                 = true) asset_lots ->
   _sort_lots self (refs asset_lots) price = rev (refs asset_lots)).
Proof.
  unfold _sort_lots. split; intros -> Hs; cbn [String.eqb Ascii.eqb Bool.eqb].
  - apply sorted_of_ascending.
    exact (refs_StronglySorted _ _ Hs).
  - apply sorted_reverse_of_increasing.
    exact (refs_StronglySorted _ _ Hs).
Qed.

Lemma chronological_lots_order_witness :
  _sort_lots (__init__ "lifo") (refs (lots_get Scenario.two_lots "UNI")) 0
  = rev (refs (lots_get Scenario.two_lots "UNI")).
Proof.
  apply (chronological_lots_order (__init__ "lifo")
           (lots_get Scenario.two_lots "UNI") 0).
  - reflexivity.
  - let l := eval vm_compute in (lots_get Scenario.two_lots "UNI") in
    replace (lots_get Scenario.two_lots "UNI") with l by (vm_compute; reflexivity).
    repeat (constructor; [|repeat (constructor; try reflexivity)]). constructor.
Defined.

(** ** Rounding to cents *)

(** Dropping [k] digits moves the coefficient by at most half a unit of
    the digit that is kept. *)
Lemma round_with_error m c k :
  0 <= c -> 1 <= k -> 2 * Z.abs (c - round_with m c k * 10 ^ k) <= 10 ^ k.
Proof.
  intros Hc Hk.
  assert (Hp : 0 < 10 ^ (k - 1)) by (apply Z.pow_pos_nonneg; lia).
  assert (Hpk : 10 ^ k = 10 * 10 ^ (k - 1)).
  { rewrite <- Z.pow_succ_r by lia. f_equal. lia. }
  pose proof (Z.div_mod c (10 ^ k) ltac:(lia)) as Hdm.
  pose proof (Z.mod_pos_bound c (10 ^ k) ltac:(lia)) as Hr.
  set (q := c / 10 ^ k) in *. set (r := c mod 10 ^ k) in *.
  destruct m; cbn [round_with]; unfold round_half_even, round_half_up;
    fold q r; cbv zeta.
  - destruct (Z.ltb_spec (5 * 10 ^ (k - 1)) r) as [H1|H1]; cbn [orb].
    + lia.
    + destruct (Z.eqb_spec r (5 * 10 ^ (k - 1))) as [H2|H2]; cbn [andb].
      * destruct (Z.odd q); lia.
      * lia.
  - destruct (Z.leb_spec (5 * 10 ^ (k - 1)) r); lia.
Qed.

(** [q] is [d] rounded to cents: it has two decimals and lies within half
    a cent of [d]. *)
Definition nearest_cent (d q : Decimal) : Prop :=
  dexp q = -2 /\ (dval q - (1 # 200) <= dval d <= dval q + (1 # 200))%Q.

Lemma close_in_units d q :
  dexp q = -2 ->
  (let k := Z.min (dexp d) (-2) in
   2 * Z.abs (units k d - units k q) <= 10 ^ (-2 - k)) ->
  nearest_cent d q.
Proof.
  intros Hq H. split; [done|]. cbv zeta in H.
  set (k := Z.min (dexp d) (-2)) in *.
  rewrite (dval_units k d), (dval_units k q) by (subst k; lia).
  set (X := (inject_Z 10 ^ k)%Q).
  assert (HX : (0 < X)%Q) by apply pow10Q_pos.
  assert (HY : (inject_Z (10 ^ (-2 - k)) * X == 1 # 100)%Q).
  { subst X. rewrite Zpower_Qpower by (subst k; lia).
    rewrite <- Qpower_plus by (intros E; discriminate E).
    replace (-2 - k + k) with (-2) by lia. reflexivity. }
  set (u := units k d) in *. set (v := units k q) in *.
  assert (H1 : (inject_Z (2 * (u - v)) <= inject_Z (10 ^ (-2 - k)))%Q)
    by (rewrite <- Zle_Qle; lia).
  assert (H2 : (inject_Z (2 * (v - u)) <= inject_Z (10 ^ (-2 - k)))%Q)
    by (rewrite <- Zle_Qle; lia).
  rewrite inject_Z_mult in H1, H2.
  unfold Z.sub in H1, H2. rewrite inject_Z_plus, inject_Z_opp in H1, H2.
  set (U := inject_Z u) in *. set (V := inject_Z v) in *.
  set (Y := inject_Z (10 ^ (-2 - k))) in *.
  change (inject_Z 2) with (2 # 1)%Q in H1, H2.
  assert (P1 : ((2 # 1) * (U + - V) * X <= Y * X)%Q)
    by (apply Qmult_le_compat_r; [exact H1 | apply Qlt_le_weak; exact HX]).
  assert (P2 : ((2 # 1) * (V + - U) * X <= Y * X)%Q)
    by (apply Qmult_le_compat_r; [exact H2 | apply Qlt_le_weak; exact HX]).
  clearbody U V Y X. clear H1 H2 HX. split; lra.
Qed.

(** [quantize] to two decimals, when it returns, returns the nearest
    cent. *)
Lemma quantize_nearest_cent d m q :
  quantize d (-2) m = Some q -> nearest_cent d q.
Proof.
  unfold quantize.
  destruct (Z.eqb_spec (dcoeff d) 0) as [Hz|Hnz].
  { intros [= <-]. apply close_in_units; [done|]. cbv zeta.
    unfold units. cbn [dcoeff dexp]. rewrite Hz. simpl.
    apply Z.pow_nonneg. lia. }
  destruct (prec <? _); [done|].
  destruct (Z.ltb_spec prec (ndigits (Z.abs (dcoeff (rescale d (-2) m)))))
    as [|Hfit]; [done|].
  intros [= <-]. rewrite dec_fix_id by done.
  unfold rescale. destruct (Z.eqb_spec (dcoeff d) 0) as [|_]; [done|].
  destruct (Z.leb_spec (-2) (dexp d)) as [Hge|Hlt]; apply close_in_units;
    try done; cbv zeta; unfold units; cbn [dcoeff dexp].
  - rewrite Z.min_r by lia. rewrite !Z.sub_diag, Z.mul_1_r, Z.sub_diag. simpl. lia.
  - rewrite Z.min_l by lia. rewrite Z.sub_diag, Z.mul_1_r.
    pose proof (round_with_error m (Z.abs (dcoeff d)) (-2 - dexp d)
                  ltac:(lia) ltac:(lia)) as H.
    set (r := round_with m (Z.abs (dcoeff d)) (-2 - dexp d)) in *.
    set (P := 10 ^ (-2 - dexp d)) in *.
    clearbody r P.
    destruct (Z.abs_spec (dcoeff d)) as [[H0 Ha]|[H0 Ha]]; rewrite Ha in H.
    + rewrite Z.sgn_pos by lia. lia.
    + rewrite Z.sgn_neg by lia. lia.
Qed.

(** X18. The three amounts of a Form 8949 row and of a CSV row are the
    event's proceeds, cost basis and gain rounded to cents: each is the
    text of a decimal with two decimals that lies within half a cent of
    the stored value, with a minus sign in front when the stored value is
    negative and rounds to zero (a small loss is shown as -0.00). *)
Theorem rows_show_nearest_cent e :
  (forall row,
      form_8949_row e = Ok row ->
      exists p c g,
        proceeds row = quantized_str (TaxEvent.proceeds_usd e) p /\
        nearest_cent (TaxEvent.proceeds_usd e) p /\
        cost_basis row = quantized_str (TaxEvent.cost_basis_usd e) c /\
        nearest_cent (TaxEvent.cost_basis_usd e) c /\
        gain_loss row = quantized_str (TaxEvent.gain_loss_usd e) g /\
        nearest_cent (TaxEvent.gain_loss_usd e) g) /\
  (forall line,
      csv_row e = Ok line ->
      exists p c g,
        csv_proceeds_usd line = quantized_str (TaxEvent.proceeds_usd e) p /\
        nearest_cent (TaxEvent.proceeds_usd e) p /\
        csv_cost_basis_usd line = quantized_str (TaxEvent.cost_basis_usd e) c /\
        nearest_cent (TaxEvent.cost_basis_usd e) c /\
        csv_gain_loss_usd line = quantized_str (TaxEvent.gain_loss_usd e) g /\
        nearest_cent (TaxEvent.gain_loss_usd e) g).
Proof.
  split; intros row; unfold form_8949_row, csv_row, py_quantize_str, py_quantize;
    destruct (quantize (TaxEvent.proceeds_usd e) (-2) ROUND_HALF_EVEN)
      as [p|] eqn:Ep; [|done| |done];
    destruct (quantize (TaxEvent.cost_basis_usd e) (-2) ROUND_HALF_EVEN)
      as [c|] eqn:Ec; [|done| |done];
    destruct (quantize (TaxEvent.gain_loss_usd e) (-2) ROUND_HALF_EVEN)
      as [g|] eqn:Eg; [|done| |done];
    cbn; intros [= <-]; exists p, c, g; cbn;
    apply quantize_nearest_cent in Ep, Ec, Eg; done.
Qed.

(** 3 UNI bought for 100, 1 UNI sold for 33.33: the gain of
    -0.00333333333333333333333333 is shown as -0.00. *)
Lemma rows_show_nearest_cent_witness :
  let e := TaxEvent.mk "UNI" 1 (mkDec 3333 (-2))
             (mkDec 3333333333333333333333333333 (-26))
             (mkDec (-333333333333333333333333) (-26))
             Scenario.jun1 Scenario.jul1 "short" "0xd1" "uniswap" "swap" in
  (add_disposal "UNI" 1 (mkDec 3333 (-2)) Scenario.jul1 "0xd1" "uniswap" "swap"
     (add_acquisition (__init__ "FIFO") "UNI" 3 100 Scenario.jun1 "0xa1"
        "uniswap").2).1 = [e] /\
  form_8949_row e
  = Ok (mkForm8949Row "1.000000 UNI (uniswap)" "06/01/2024" "07/01/2024"
          "33.33" "33.33" "-0.00" "A" "0xd1") /\
  exists g, "-0.00" = quantized_str (TaxEvent.gain_loss_usd e) g /\
            nearest_cent (TaxEvent.gain_loss_usd e) g.
Proof.
  intros e.
  assert (H : form_8949_row e
              = Ok (mkForm8949Row "1.000000 UNI (uniswap)" "06/01/2024"
                      "07/01/2024" "33.33" "33.33" "-0.00" "A" "0xd1"))
    by (vm_compute; reflexivity).
  split; [vm_compute; reflexivity|]. split; [exact H|].
  destruct (proj1 (rows_show_nearest_cent e) _ H)
    as (p & c & g & _ & _ & _ & _ & Hg & Hn).
  exists g. split; [exact Hg | exact Hn].
Defined.

(** ** The cost basis a disposal reports *)

(** The cost basis held at position [i] of the asset's list. *)
Definition cost_at (store : list TaxLot.t) (i : nat) : Q :=
  match store !! i with
  | Some lot => dval (TaxLot.cost_basis_usd lot)
  | None => 0%Q
  end.

Definition sumQ (l : list Q) : Q := foldr Qplus 0%Q l.

Lemma sumQ_perm l1 l2 : l1 ≡ₚ l2 -> (sumQ l1 == sumQ l2)%Q.
Proof.
  induction 1 as [|x l1 l2 _ IH|x y l|l1 l2 l3 _ IH1 _ IH2]; simpl.
  - reflexivity.
  - by rewrite IH.
  - ring.
  - by rewrite IH1.
Qed.

Lemma cost_at_nonneg store i : Forall lot_ok store -> (0 <= cost_at store i)%Q.
Proof.
  intros Hok. unfold cost_at. destruct (store !! i) as [lot|] eqn:Hi; [|done].
  destruct (Forall_lookup_1 _ _ _ _ Hok Hi) as (_ & Hc & _).
  apply (dval_le 0). rewrite dec_leb_0_l. apply Z.leb_le. lia.
Qed.

Lemma sumQ_cost_at_seq (store : list TaxLot.t) : forall n,
  (sumQ (map (cost_at store) (seq n (length store - n)))
   == exact_sum (map TaxLot.cost_basis_usd (drop n store)))%Q.
Proof.
  intros n. remember (length store - n)%nat as m eqn:Hm. revert n Hm.
  induction m as [|m IH]; intros n Hm.
  - rewrite drop_ge by lia. reflexivity.
  - destruct (lookup_lt_is_Some_2 store n ltac:(lia)) as [lot Hl].
    rewrite (drop_S _ _ _ Hl). cbn [seq map sumQ foldr exact_sum].
    fold (sumQ (map (cost_at store) (seq (S n) m))).
    fold (exact_sum (map TaxLot.cost_basis_usd (drop (S n) store))).
    rewrite (IH (S n)) by lia. unfold cost_at at 1. by rewrite Hl.
Qed.

Section CostBound.
Variables (asset : string) (amount proceeds_usd : Decimal)
          (disposed_date : datetime.t) (tx_hash protocol event_type : string).

(** The events of the loop carry no more cost basis than the lots the
    loop is given hold. *)
Lemma match_loop_cost_bound (order : list nat) : forall remaining store,
  NoDup order -> Forall lot_ok store ->
  (exact_sum (map TaxEvent.cost_basis_usd
                (match_loop asset amount proceeds_usd disposed_date tx_hash
                   protocol event_type order remaining store []).1.2)
   <= sumQ (map (cost_at store) order))%Q.
Proof.
  induction order as [|i rest IH]; intros remaining store Hnd Hok.
  { cbn. apply Qle_refl. }
  apply NoDup_cons in Hnd as [Hi Hnd].
  pose proof (cost_at_nonneg store i Hok) as H0.
  assert (Hrest : (0 <= sumQ (map (cost_at store) rest))%Q).
  { clear -Hok. induction rest as [|j rest IH]; simpl; [done|].
    pose proof (cost_at_nonneg store j Hok). lra. }
  cbn [map sumQ foldr]. fold (sumQ (map (cost_at store) rest)).
  destruct (dec_leb remaining 0) eqn:Hr.
  { rewrite match_loop_nonpositive by done. cbn. lra. }
  destruct (store !! i) as [lot|] eqn:Hl.
  2:{ assert (E : match_loop asset amount proceeds_usd disposed_date tx_hash
                    protocol event_type (i :: rest) remaining store []
                  = match_loop asset amount proceeds_usd disposed_date tx_hash
                      protocol event_type rest remaining store []).
      { simpl. by rewrite Hr, Hl. }
      rewrite E. specialize (IH remaining store Hnd Hok). lra. }
  destruct (dec_leb (TaxLot.amount lot) 0) eqn:Ha.
  { rewrite (match_loop_skip asset amount proceeds_usd disposed_date tx_hash
               protocol event_type i rest remaining store [] lot) by done.
    specialize (IH remaining store Hnd Hok). lra. }
  rewrite (match_loop_step asset amount proceeds_usd disposed_date tx_hash
             protocol event_type i rest remaining store [] lot) by done.
  rewrite dec_leb_0 in Hr, Ha. apply Z.leb_gt in Hr, Ha.
  pose proof (Forall_lookup_1 _ _ _ _ Hok Hl) as Hlot.
  pose proof Hlot as (_ & Hc & _).
  destruct (match_lot_cost asset amount proceeds_usd disposed_date tx_hash
              protocol event_type remaining lot Hr Ha Hc)
    as (_ & _ & _ & Hcb & _).
  set (m := match_lot asset amount proceeds_usd disposed_date tx_hash protocol
              event_type remaining lot) in *.
  set (store' := <[i := TaxLot.consume lot m.1.1 m.1.2]> store).
  rewrite match_loop_events_app. cbn [fst snd app map exact_sum foldr].
  fold (exact_sum (map TaxEvent.cost_basis_usd
          (match_loop asset amount proceeds_usd disposed_date tx_hash protocol
             event_type rest (dec_sub remaining m.1.1) store' []).1.2)).
  assert (Hok' : Forall lot_ok store').
  { apply Forall_insert; [done|].
    by apply (consume_ok asset amount proceeds_usd disposed_date tx_hash protocol
                event_type remaining lot). }
  specialize (IH (dec_sub remaining m.1.1) store' Hnd Hok').
  assert (Hsame : map (cost_at store') rest = map (cost_at store) rest).
  { apply map_ext_in. intros j Hj. unfold cost_at, store'.
    rewrite list_lookup_insert_ne; [done|]. intros ->.
    by apply list_elem_of_In in Hj. }
  rewrite Hsame in IH.
  assert (Hhead : (dval (TaxEvent.cost_basis_usd m.2) <= cost_at store i)%Q).
  { unfold cost_at. rewrite Hl. by apply dval_le. }
  lra.
Qed.
End CostBound.

(** X19. For an asset whose lots are valid, the events of one disposal
    never carry more cost basis, in total, than the lots of the asset held
    before the disposal. *)
Theorem disposal_cost_basis_is_bounded asset amount proceeds_usd disposed_date
    tx_hash protocol event_type self :
  lots_get self asset <> [] -> Forall lot_ok (lots_get self asset) ->
  (exact_sum (map TaxEvent.cost_basis_usd
                (add_disposal asset amount proceeds_usd disposed_date tx_hash
                   protocol event_type self).1)
   <= exact_sum (map TaxLot.cost_basis_usd (lots_get self asset)))%Q.
Proof.
  intros Hne Hok. unfold add_disposal.
  destruct (lots_get self asset) as [|l0 ls] eqn:E; [done|].
  set (order := map fst (_sort_lots self (refs (l0 :: ls))
                           (if dec_ltb 0 amount then dec_div proceeds_usd amount
                            else 0))).
  pose proof (match_loop_cost_bound asset amount proceeds_usd disposed_date tx_hash
                protocol event_type order amount (l0 :: ls)
                (sort_lots_NoDup _ _ _) Hok) as H.
  destruct (match_loop asset amount proceeds_usd disposed_date tx_hash protocol
              event_type order amount (l0 :: ls) []) as [[st evs] rem].
  cbn [fst snd] in *. eapply Qle_trans; [exact H|].
  assert (Hperm : order ≡ₚ seq 0 (length (l0 :: ls))).
  { subst order. by rewrite (sort_lots_perm self (refs (l0 :: ls))), refs_fst. }
  rewrite (sumQ_perm _ _ (Permutation_map (cost_at (l0 :: ls)) Hperm)).
  pose proof (sumQ_cost_at_seq (l0 :: ls) 0) as Hs.
  rewrite Nat.sub_0_r, drop_0 in Hs. rewrite Hs. apply Qle_refl.
Qed.

Lemma disposal_cost_basis_is_bounded_witness :
  lots_get Scenario.two_lots "UNI" <> [] /\
  (exact_sum (map TaxEvent.cost_basis_usd Scenario.sell_15.1)
   <= exact_sum (map TaxLot.cost_basis_usd (lots_get Scenario.two_lots "UNI")))%Q.
Proof.
  assert (Hne : lots_get Scenario.two_lots "UNI" <> []) by (vm_compute; discriminate).
  split; [exact Hne|].
  apply (disposal_cost_basis_is_bounded "UNI" 15 300 Scenario.jul1 "0xd1"
           "uniswap" "swap" Scenario.two_lots Hne).
  let l := eval vm_compute in (lots_get Scenario.two_lots "UNI") in
  replace (lots_get Scenario.two_lots "UNI") with l by (vm_compute; reflexivity).
  repeat (apply List.Forall_cons; [unfold lot_ok; cbn; lia|]).
  apply List.Forall_nil.
Defined.

(** ** Ties at half a cent *)

(** A positive amount that ends in exactly half a cent after an even
    number of cents. *)
Definition half_cent_tie (n : Z) : Decimal := mkDec (20 * n + 5) (-3).

Lemma quantize_tie n m :
  0 <= n < 10 ^ 24 ->
  quantize (half_cent_tie n) (-2) m
  = Some (mkDec (match m with ROUND_HALF_UP => 2 * n + 1 | ROUND_HALF_EVEN => 2 * n end)
                (-2)).
Proof.
  intros Hn. unfold quantize, half_cent_tie. cbn [dcoeff dexp].
  destruct (Z.eqb_spec (20 * n + 5) 0) as [|_]; [lia|].
  rewrite (Z.abs_eq (20 * n + 5)) by lia.
  assert (Hd : ndigits (20 * n + 5) <= 26).
  { apply ndigits_le_iff; [lia | lia |].
    change (10 ^ 26) with (100 * 10 ^ 24). lia. }
  unfold prec.
  destruct (Z.ltb_spec 28 (-3 + ndigits (20 * n + 5) - 1 - -2 + 1)) as [|_]; [lia|].
  assert (Hq : (20 * n + 5) / 10 ^ 1 = 2 * n /\ (20 * n + 5) mod 10 ^ 1 = 5).
  { change (10 ^ 1) with 10.
    replace (20 * n + 5) with (5 + (2 * n) * 10) by lia.
    rewrite Z.div_add, Z.mod_add by lia. split; reflexivity. }
  destruct Hq as [Hq Hr].
  assert (Hres : rescale (mkDec (20 * n + 5) (-3)) (-2) m
                 = mkDec (match m with
                          | ROUND_HALF_UP => 2 * n + 1
                          | ROUND_HALF_EVEN => 2 * n
                          end) (-2)).
  { unfold rescale. cbn [dcoeff dexp].
    destruct (Z.eqb_spec (20 * n + 5) 0) as [|_]; [lia|].
    change (-2 <=? -3) with false. cbv iota.
    rewrite (Z.abs_eq (20 * n + 5)), Z.sgn_pos, Z.mul_1_l by lia.
    change (-2 - -3) with 1. f_equal.
    destruct m; cbn [round_with]; unfold round_half_even, round_half_up;
      rewrite Hq, Hr; change (5 * 10 ^ (1 - 1)) with 5; cbn.
    - rewrite Z.odd_mul. reflexivity.
    - reflexivity. }
  rewrite Hres. cbn [dcoeff].
  assert (Hsmall : 0 <= match m with
                        | ROUND_HALF_UP => 2 * n + 1
                        | ROUND_HALF_EVEN => 2 * n
                        end < 10 ^ 28).
  { change (10 ^ 28) with (10000 * 10 ^ 24). destruct m; lia. }
  set (c := match m with ROUND_HALF_UP => 2 * n + 1 | ROUND_HALF_EVEN => 2 * n end)
    in *.
  assert (Hc : ndigits (Z.abs c) <= 28).
  { rewrite Z.abs_eq by lia. apply ndigits_le_iff; lia. }
  destruct (Z.ltb_spec 28 (ndigits (Z.abs c))) as [|_]; [lia|].
  by rewrite dec_fix_id.
Qed.

(** A value that is not negative is printed as its rounded value. *)
Lemma quantized_str_nonneg d q : 0 <= dcoeff d -> quantized_str d q = dec_str q.
Proof.
  intros H. unfold quantized_str.
  by destruct (Z.ltb_spec (dcoeff d) 0) as [|_]; [lia|].
Qed.

(** X20. The summary rounds half a cent up, the row reports round it to
    the even cent.  When the only short-term event of the year has a gain
    of an even number of cents plus exactly half a cent, a summary that is
    returned shows the short-term total one cent above the gain shown in
    the Form 8949 row and the CSV row of that event. *)
Theorem summary_and_rows_round_ties_differently self tax_year s e n :
  0 <= n < 10 ^ 24 ->
  generate_summary self tax_year = Ok s ->
  with_period "short" (in_year TaxEvent.disposed_date tax_year (tax_events self))
  = [e] ->
  TaxEvent.gain_loss_usd e = half_cent_tie n ->
  short_term_total s = dec_str (mkDec (2 * n + 1) (-2)) /\
  (forall row, form_8949_row e = Ok row ->
               gain_loss row = dec_str (mkDec (2 * n) (-2))) /\
  (forall line, csv_row e = Ok line ->
                csv_gain_loss_usd line = dec_str (mkDec (2 * n) (-2))).
Proof.
  intros Hn Hs Hshort Hgain.
  destruct (generate_summary_ok self tax_year s Hs)
    as (st & lt & net & inc & by_type & E1 & _ & _ & _ & ->).
  rewrite Hshort in E1. cbn [map] in E1. rewrite Hgain in E1.
  assert (Hsum : py_sum [half_cent_tie n] = PyDec (half_cent_tie n)).
  { unfold py_sum, half_cent_tie. cbn. f_equal. unfold dec_add. cbn [dcoeff dexp].
    change (Z.min 0 (-3)) with (-3). change (0 * 10 ^ (0 - -3)) with 0.
    rewrite Z.sub_diag, Z.mul_1_r, Z.add_0_l. apply dec_fix_id.
    cbn [dcoeff]. rewrite Z.abs_eq by lia. unfold prec.
    apply ndigits_le_iff; [lia | lia |].
    change (10 ^ 28) with (10000 * 10 ^ 24). lia. }
  assert (Hpos : 0 <= dcoeff (half_cent_tie n)) by (cbn; lia).
  rewrite Hsum in E1. unfold py_quantize_str, py_quantize in E1.
  rewrite (quantize_tie n ROUND_HALF_UP Hn) in E1. cbn in E1.
  rewrite (quantized_str_nonneg _ _ Hpos) in E1. injection E1 as <-.
  split; [done|].
  split; intros row; unfold form_8949_row, csv_row, py_quantize_str, py_quantize;
    rewrite Hgain; rewrite (quantize_tie n ROUND_HALF_EVEN Hn);
    destruct (quantize (TaxEvent.proceeds_usd e) (-2) ROUND_HALF_EVEN); [|done| |done];
    destruct (quantize (TaxEvent.cost_basis_usd e) (-2) ROUND_HALF_EVEN); [|done| |done];
    cbn; rewrite (quantized_str_nonneg _ _ Hpos); by intros [= <-].
Qed.

(** A ledger with one short-term event in 2025, of gain 0.125. *)
Module Ties.
Definition ops : list operation :=
  [ Acquisition "UNI" 10 50 (datetime.date 2023 1 1) "0xa1" "uniswap";
    Disposal "UNI" 10 300 (datetime.date 2025 3 1) "0xd1" "uniswap" "swap";
    Disposal "XYZ" 1 (mkDec 125 (-3)) (datetime.date 2025 4 1) "0xd2" "curve" "swap";
    Income "USDC" 25 25 (datetime.date 2025 2 1) "0xi1" "aave" "interest" ].
Definition ledger : TaxEngine := run ops (__init__ "FIFO").
Definition event : TaxEvent.t :=
  TaxEvent.mk "XYZ" 1 (mkDec 125 (-3)) 0 (mkDec 125 (-3)) (datetime.date 2025 4 1)
    (datetime.date 2025 4 1) "short" "0xd2" "curve" "swap".
End Ties.

Lemma summary_and_rows_round_ties_differently_witness :
  exists s row,
    generate_summary Ties.ledger (Some 2025) = Ok s /\
    form_8949_row Ties.event = Ok row /\
    short_term_total s = "0.13" /\ gain_loss row = "0.12".
Proof.
  destruct (generate_summary Ties.ledger (Some 2025)) as [s|] eqn:Es;
    [|vm_compute in Es; discriminate Es].
  destruct (form_8949_row Ties.event) as [row|] eqn:Er;
    [|vm_compute in Er; discriminate Er].
  exists s, row. split; [reflexivity|]. split; [reflexivity|].
  destruct (summary_and_rows_round_ties_differently Ties.ledger (Some 2025) s
              Ties.event 6) as (H1 & H2 & _).
  - lia.
  - exact Es.
  - vm_compute. reflexivity.
  - reflexivity.
  - split; [rewrite H1; vm_compute; reflexivity|].
    rewrite (H2 row Er). vm_compute. reflexivity.
Defined.
